(** * MGit overlay: commit hashing, object store, mapping table,
      reconstruction and verification.

    A shallow embedding of the Go sources of the [mgit] client
    ([mcommit.go], the storage file that follows it, the clone code with
    [reconstructMGitObjects], the nostr mapping file and [cmd_mgit.go]),
    together with the properties the specification states about them.

    Go strings are byte sequences: they are modelled by [string], whose
    characters are the 256 values of [ascii].  A [[20]byte] hash is a
    [string] of length 20. *)

From Stdlib Require Import ZArith DecimalString Ascii String.
From stdpp Require Import gmap strings list fin_maps sorting.

Open Scope string_scope.
Open Scope list_scope.

(** ** Byte strings *)

Module Bytes.

Definition byte_of_ascii (c : ascii) : Z := Z.of_N (N_of_ascii c).
Definition ascii_of_byte (b : Z) : ascii := ascii_of_N (Z.to_N (b mod 256)).

Definition bytes_of_string (s : string) : list Z :=
  byte_of_ascii <$> list_ascii_of_string s.
Definition string_of_bytes (l : list Z) : string :=
  string_of_list_ascii (ascii_of_byte <$> l).

(** [s[:n]] and [s[n:]] where they are in range. *)
Fixpoint str_take (n : nat) (s : string) : string :=
  match n, s with
  | S n', String c s' => String c (str_take n' s')
  | _, _ => ""
  end.

Fixpoint str_drop (n : nat) (s : string) : string :=
  match n, s with
  | S n', String _ s' => str_drop n' s'
  | _, _ => s
  end.

Fixpoint str_repeat (c : ascii) (n : nat) : string :=
  match n with
  | O => ""
  | S n' => String c (str_repeat c n')
  end.

(** [strings.HasPrefix s p]. *)
Definition HasPrefix (s p : string) : bool := String.prefix p s.

(** [strings.TrimPrefix s p]. *)
Definition TrimPrefix (s p : string) : string :=
  if HasPrefix s p then str_drop (String.length p) s else s.

(** Go slices [s[:n]] and [s[n:]] panic when [n > len(s)]: [None]. *)
Definition slice_to (n : nat) (s : string) : option string :=
  if (n <=? String.length s)%nat then Some (str_take n s) else None.
Definition slice_from (n : nat) (s : string) : option string :=
  if (n <=? String.length s)%nat then Some (str_drop n s) else None.

(** [fmt.Sprintf("%d", z)] for an [int64]. *)
Definition fmt_d (z : Z) : string := NilZero.string_of_int (Z.to_int z).

End Bytes.
Import Bytes.

(** ** [encoding/hex] *)

Module Hex.

Definition hextable : string := "0123456789abcdef".

Definition nibble_char (n : Z) : ascii :=
  match String.get (Z.to_nat n) hextable with
  | Some c => c
  | None => "0"%char
  end.

(** [hex.EncodeToString]. *)
Fixpoint EncodeToString (s : string) : string :=
  match s with
  | "" => ""
  | String c s' =>
      let b := byte_of_ascii c in
      String (nibble_char (Z.shiftr b 4))
        (String (nibble_char (Z.land b 15)) (EncodeToString s'))
  end.

(** One entry of [reverseHexTable]; [None] stands for [0xff]. *)
Definition fromHexChar (c : ascii) : option Z :=
  let b := byte_of_ascii c in
  if (48 <=? b)%Z && (b <=? 57)%Z then Some (b - 48)%Z
  else if (97 <=? b)%Z && (b <=? 102)%Z then Some (b - 97 + 10)%Z
  else if (65 <=? b)%Z && (b <=? 70)%Z then Some (b - 65 + 10)%Z
  else None.

(** The bytes [hex.DecodeString] returns, error or not: every pair of
    hex digits decoded before the first invalid byte or the odd end. *)
Fixpoint DecodeString (s : string) : string :=
  match s with
  | String p (String q rest) =>
      match fromHexChar p, fromHexChar q with
      | Some a, Some b =>
          String (ascii_of_byte (Z.lor (Z.shiftl a 4) b)) (DecodeString rest)
      | _, _ => ""
      end
  | _ => ""
  end.

End Hex.

(** ** [crypto/sha1] (FIPS 180-4), on byte strings *)

Module SHA1.

Definition mask32 (x : Z) : Z := Z.land x 0xFFFFFFFF.
Definition add32 (x y : Z) : Z := mask32 (x + y).
Definition rotl (n x : Z) : Z :=
  mask32 (Z.lor (Z.shiftl x n) (Z.shiftr x (32 - n))).
Definition not32 (x : Z) : Z := Z.lxor x 0xFFFFFFFF.

(** Big-endian encodings. *)
Definition be32 (x : Z) : list Z :=
  [Z.land (Z.shiftr x 24) 255; Z.land (Z.shiftr x 16) 255;
   Z.land (Z.shiftr x 8) 255; Z.land x 255].
Definition be64 (x : Z) : list Z := be32 (Z.shiftr x 32) ++ be32 (mask32 x).

Definition word_of (b : list Z) : Z :=
  fold_left (fun acc x => Z.lor (Z.shiftl acc 8) x) b 0%Z.

(** Padding: [0x80], zeros up to 56 modulo 64, the bit length. *)
Definition pad (msg : list Z) : list Z :=
  let n := Z.of_nat (length msg) in
  msg ++ [128%Z] ++ replicate (Z.to_nat ((55 - n) mod 64)) 0%Z ++ be64 (8 * n).

Fixpoint chunks (fuel k : nat) (l : list Z) : list (list Z) :=
  match fuel with
  | O => []
  | S fuel' =>
      match l with
      | [] => []
      | _ => take k l :: chunks fuel' k (drop k l)
      end
  end.

Definition split_every (k : nat) (l : list Z) : list (list Z) :=
  chunks (length l) k l.

(** The message schedule, most recent word first. *)
Fixpoint schedule (n : nat) (w : list Z) : list Z :=
  match n with
  | O => w
  | S n' =>
      let x := Z.lxor (Z.lxor (nth 2 w 0%Z) (nth 7 w 0%Z))
                      (Z.lxor (nth 13 w 0%Z) (nth 15 w 0%Z)) in
      schedule n' (rotl 1 x :: w)
  end.

Definition round_f (i : nat) (b c d : Z) : Z * Z :=
  if (i <? 20)%nat then
    (Z.lor (Z.land b c) (Z.land (not32 b) d), 0x5A827999%Z)
  else if (i <? 40)%nat then
    (Z.lxor (Z.lxor b c) d, 0x6ED9EBA1%Z)
  else if (i <? 60)%nat then
    (Z.lor (Z.lor (Z.land b c) (Z.land b d)) (Z.land c d), 0x8F1BBCDC%Z)
  else
    (Z.lxor (Z.lxor b c) d, 0xCA62C1D6%Z).

Definition state : Type := Z * Z * Z * Z * Z.

Definition round (st : state * nat) (w : Z) : state * nat :=
  let '((a, b, c, d, e), i) := st in
  let '(f, k) := round_f i b c d in
  let t := add32 (add32 (add32 (add32 (rotl 5 a) f) e) k) w in
  ((t, a, rotl 30 b, c, d), S i).

Definition block (h : state) (chunk : list Z) : state :=
  let w := rev (schedule 64 (rev (word_of <$> split_every 4 chunk))) in
  let '(h0, h1, h2, h3, h4) := h in
  let '((a, b, c, d, e), _) := fold_left round w (h, O) in
  (add32 h0 a, add32 h1 b, add32 h2 c, add32 h3 d, add32 h4 e).

Definition init : state :=
  (0x67452301, 0xEFCDAB89, 0x98BADCFE, 0x10325476, 0xC3D2E1F0)%Z.

(** [sha1.Sum]: the 20-byte digest of a byte string. *)
Definition Sum (msg : string) : string :=
  let '(h0, h1, h2, h3, h4) :=
    fold_left block (split_every 64 (pad (bytes_of_string msg))) init in
  string_of_bytes (be32 h0 ++ be32 h1 ++ be32 h2 ++ be32 h3 ++ be32 h4).

End SHA1.

(** ** [fmt.Sprintf], for the verbs the sources use *)

Module Fmt.

Inductive arg : Type :=
| ArgString (s : string)
| ArgInt64 (z : Z).

(** [%v] of an operand, and the name of its type. *)
Definition value (a : arg) : string :=
  match a with
  | ArgString s => s
  | ArgInt64 z => fmt_d z
  end.

Definition type_name (a : arg) : string :=
  match a with
  | ArgString _ => "string"
  | ArgInt64 _ => "int64"
  end.

Definition bad_verb (v : ascii) (a : arg) : string :=
  "%!" +:+ String v ("(" +:+ type_name a +:+ "=" +:+ value a +:+ ")").

Definition verb (v : ascii) (a : arg) : string :=
  match a with
  | ArgString s =>
      if Ascii.eqb v "s" || Ascii.eqb v "v" then s else bad_verb v a
  | ArgInt64 z =>
      if Ascii.eqb v "d" || Ascii.eqb v "v" then fmt_d z else bad_verb v a
  end.

Fixpoint extra (args : list arg) : string :=
  match args with
  | [] => ""
  | [a] => type_name a +:+ "=" +:+ value a
  | a :: rest => type_name a +:+ "=" +:+ value a +:+ ", " +:+ extra rest
  end.

(** Operands left over when the format is used up are reported as
    [%!(EXTRA type=value, ...)]. *)
Definition leftover (args : list arg) : string :=
  match args with
  | [] => ""
  | _ => "%!(EXTRA " +:+ extra args +:+ ")"
  end.

Fixpoint Sprintf (format : string) (args : list arg) : string :=
  match format with
  | "" => leftover args
  | String c rest =>
      if Ascii.eqb c "%" then
        match rest with
        | "" => "%!(NOVERB)" +:+ leftover args
        | String v rest' =>
            if Ascii.eqb v "%" then String "%" (Sprintf rest' args)
            else
              match args with
              | [] => "%!" +:+ String v "(MISSING)" +:+ Sprintf rest' []
              | a :: args' => verb v a +:+ Sprintf rest' args'
              end
        end
      else String c (Sprintf rest args)
  end.

End Fmt.

(** ** go-git: hashes, signatures, commits, references *)

Module plumbing.

(** [plumbing.Hash] is [[20]byte]. *)
Definition Hash : Type := string.

Definition ZeroHash : Hash := str_repeat "000"%char 20.

(** [plumbing.NewHash]: [b, _ := hex.DecodeString(s); copy(h[:], b)]
    into a zeroed array. *)
Definition NewHash (s : string) : Hash :=
  str_take 20 (Hex.DecodeString s +:+ ZeroHash).

(** [Hash.String]. *)
Definition String_ (h : Hash) : string := Hex.EncodeToString h.

(** What the sources read of a [*plumbing.Reference]. *)
Record Reference : Type := mkReference {
  IsBranch : bool;     (* ref.Name().IsBranch() *)
  Short : string;      (* ref.Name().Short() *)
  RefHash : Hash       (* ref.Hash() *)
}.

End plumbing.

Module time.
(** [time.Time]; the sources only call [Unix]. *)
Record Time : Type := mkTime { Unix : Z; Nanosecond : Z }.
End time.

Module object.

Record Signature : Type := mkSignature {
  Name : string;
  Email : string;
  When : time.Time
}.

Record Commit : Type := mkCommit {
  Hash : plumbing.Hash;
  Author : Signature;
  Committer : Signature;
  Message : string;
  TreeHash : plumbing.Hash;
  ParentHashes : list plumbing.Hash
}.

End object.

(** The hasher returned by [sha1.New()]: the bytes written so far. *)
Module hasher.
Definition t : Type := string.
Definition New : t := "".
Definition Write (h : t) (p : string) : t := h +:+ p.
Definition Sum (h : t) : string := SHA1.Sum h.
End hasher.

(** ** mcommit.go: [computeMGitHash] *)

(** The hasher after every [Write] of [computeMGitHash], before [Sum]. *)
Definition computeMGitHash_writes
    (commit : object.Commit) (parentMGitHashes : list string) (pubkey : string)
    : hasher.t :=
  let h := hasher.New in
  (* Include the tree hash *)
  let h := hasher.Write h (object.TreeHash commit) in
  (* Include all parent MGit hashes *)
  let h :=
    fold_left
      (fun h parentHashStr => hasher.Write h (plumbing.NewHash parentHashStr))
      parentMGitHashes h in
  (* Include the author information with pubkey *)
  let authorStr :=
    Fmt.Sprintf "%s <%s> %d %s"
      [Fmt.ArgString (object.Name (object.Author commit));
       Fmt.ArgString (object.Email (object.Author commit));
       Fmt.ArgInt64 (time.Unix (object.When (object.Author commit)));
       Fmt.ArgString pubkey] in
  let h := hasher.Write h authorStr in
  (* Include committer information *)
  let committerStr :=
    Fmt.Sprintf "%s <%s> %d"
      [Fmt.ArgString (object.Name (object.Committer commit));
       Fmt.ArgString (object.Email (object.Committer commit));
       Fmt.ArgInt64 (time.Unix (object.When (object.Committer commit)));
       Fmt.ArgString pubkey] in
  let h := hasher.Write h committerStr in
  (* "Include the commit message" *)
  let h := hasher.Write h committerStr in
  h.

Definition computeMGitHash
    (commit : object.Commit) (parentMGitHashes : list string) (pubkey : string)
    : plumbing.Hash :=
  let mgitHash := hasher.Sum (computeMGitHash_writes commit parentMGitHashes pubkey) in
  (* copy(result[:], mgitHash[:20]) *)
  str_take 20 mgitHash.

(** ** The file system under the sources' [os], [ioutil] and [filepath] calls

    A tree of directories and regular files addressed by cleaned paths,
    without symbolic links, permissions or limits on names: the calls
    answer for every name, where the operating system refuses a name that
    holds a NUL byte or is too long ([os_path], below, says that a path is
    within these limits).  A cleaned path is kept as its components,
    innermost first:
    [.mgit/objects/ab] is [["ab"; "objects"; ".mgit"]], the working
    directory is [[]], and a rooted path ends with the component ["/"]. *)

Module FS.

Definition path : Type := list string.

Inductive node : Type :=
| File (data : string)
| Dir.

#[global] Instance node_eq_dec : EqDecision node.
Proof. solve_decision. Defined.

Abbreviation t := (gmap (list string) node).

(** The components of a string between its separators. *)
Fixpoint split_slash (s : string) : list string :=
  match s with
  | "" => [""]
  | String c s' =>
      if Ascii.eqb c "/" then "" :: split_slash s'
      else
        match split_slash s' with
        | [] => [String c ""]
        | x :: xs => String c x :: xs
        end
  end.

(** One step of [filepath.Clean]: empty and [.] components vanish and
    [..] removes the component before it, where there is one. *)
Definition push (p : path) (c : string) : path :=
  if decide (c = "" ∨ c = ".") then p
  else if decide (c = "..") then
    match p with
    | [] => [".."]
    | q :: p' =>
        if decide (q = "..") then ".." :: p
        else if decide (q = "/") then p
        else p'
    end
  else c :: p.

(** [filepath.Join(base, elems...)] for a cleaned [base]. *)
Definition Join (base : path) (elems : list string) : path :=
  fold_left push (flat_map split_slash elems) base.

(** [filepath.Clean] of a path given as a string. *)
Definition Clean (s : string) : path :=
  Join (if HasPrefix s "/" then ["/"] else []) [s].

(** [filepath.Dir] of a cleaned path. *)
Definition DirOf (p : path) : path :=
  match p with
  | [] => []
  | q :: p' => if decide (q = "/" ∨ q = "..") then p else p'
  end.

(** The always present directories: [.], [/] and chains of [..]. *)
Definition implicit_dir (p : path) : bool :=
  forallb (fun c => bool_decide (c = ".." ∨ c = "/")) p.

Definition node_at (fs : t) (p : path) : option node :=
  if implicit_dir p then Some Dir else fs !! p.

Inductive stat_result : Type :=
| StatOk (n : node)
| ENOENT
| ENOTDIR.

(** [os.Stat]: a missing entry below a regular file is [ENOTDIR]. *)
Fixpoint Stat (fs : t) (p : path) : stat_result :=
  match node_at fs p with
  | Some n => StatOk n
  | None =>
      match p with
      | [] => StatOk Dir
      | _ :: q =>
          match Stat fs q with
          | StatOk Dir => ENOENT
          | StatOk (File _) => ENOTDIR
          | e => e
          end
      end
  end.

(** [os.IsNotExist(err)] for the error, if any, of a [Stat]. *)
Definition IsNotExist (r : stat_result) : bool :=
  match r with
  | ENOENT => true
  | _ => false
  end.

(** [os.MkdirAll]: [true] for a [nil] error. *)
Fixpoint MkdirAll (p : path) (fs : t) : t * bool :=
  match node_at fs p with
  | Some Dir => (fs, true)
  | Some (File _) => (fs, false)
  | None =>
      match p with
      | [] => (fs, true)
      | _ :: q =>
          let '(fs', ok) := MkdirAll q fs in
          if ok then (<[p := Dir]> fs', true) else (fs', false)
      end
  end.

(** [os.WriteFile] / [ioutil.WriteFile]: create or truncate. *)
Definition WriteFile (p : path) (data : string) (fs : t) : t * bool :=
  match node_at fs p with
  | Some Dir => (fs, false)
  | Some (File _) => (<[p := File data]> fs, true)
  | None =>
      match p with
      | [] => (fs, false)
      | _ :: q =>
          match node_at fs q with
          | Some Dir => (<[p := File data]> fs, true)
          | _ => (fs, false)
          end
      end
  end.

(** [os.ReadFile] / [ioutil.ReadFile]. *)
Definition ReadFile (p : path) (fs : t) : option string :=
  match node_at fs p with
  | Some (File data) => Some data
  | _ => None
  end.

Definition child_name (dir : path) (p : path) : option string :=
  match p with
  | n :: q => if decide (q = dir ∧ n ≠ "/" ∧ n ≠ "..") then Some n else None
  | [] => None
  end.

Definition name_le (a b : string) : Prop := String.leb a b = true.

#[global] Instance name_le_dec : RelDecision name_le.
Proof. intros a b. unfold name_le. solve_decision. Defined.

(** [ioutil.ReadDir]: the names in a directory, sorted by name. *)
Definition ReadDir (dir : path) (fs : t) : option (list string) :=
  match node_at fs dir with
  | Some Dir => Some (merge_sort name_le (omap (child_name dir) (map_to_list fs).*1))
  | _ => None
  end.

End FS.

(** ** The MGit records *)

Module Sig.
(** [MGitSignature]. *)
Record MGitSignature : Type := mk {
  Name : string;
  Email : string;
  Pubkey : string;
  When : time.Time
}.
End Sig.

Definition MGitCommitObject : string := "commit".

Module MCommit.
(** [MCommitStruct]; [Author] and [Committer] are pointers, [None] is
    [nil]. *)
Record MCommitStruct : Type := mk {
  Type_ : string;
  MGitHash : string;
  GitHash : string;
  TreeHash : string;
  ParentHashes : list string;
  Author : option Sig.MGitSignature;
  Committer : option Sig.MGitSignature;
  Message : string;
  Metadata : gmap string string
}.

(** [commit.Type = t]. *)
Definition setType (t : string) (c : MCommitStruct) : MCommitStruct :=
  mk t (MGitHash c) (GitHash c) (TreeHash c) (ParentHashes c)
     (Author c) (Committer c) (Message c) (Metadata c).
End MCommit.

Module Mapping.
(** [NostrCommitMapping], and the anonymous struct with the same fields
    and JSON tags that [StoreMapping] and [GetMappings] use. *)
Record NostrCommitMapping : Type := mk {
  GitHash : string;
  MGitHash : string;
  Pubkey : string
}.
End Mapping.

(** [encoding/json] on the two record types that are stored: what
    [json.MarshalIndent] writes ([None] for an error) and what
    [json.Unmarshal] reads back from the bytes of a file. *)
Class JSON : Type := {
  MarshalCommit : MCommit.MCommitStruct -> option string;
  UnmarshalCommit : string -> option MCommit.MCommitStruct;
  MarshalMappings : list Mapping.NostrCommitMapping -> option string;
  UnmarshalMappings : string -> option (list Mapping.NostrCommitMapping)
}.

(** ** Errors and outcomes *)

(** One constructor for each error the modelled functions build. *)
Inductive error : Type :=
| ErrMkdirRoot                       (* failed to create MGit directory *)
| ErrMkdir (dir : FS.path)           (* failed to create directory %s *)
| ErrCreateHEAD                      (* failed to create HEAD file *)
| ErrEmptyHash                       (* MGit hash cannot be empty *)
| ErrMkdirObject                     (* failed to create object directory *)
| ErrMarshalCommit                   (* failed to marshal commit *)
| ErrWriteObject                     (* failed to write commit object *)
| ErrHashTooShort                    (* MGit hash too short, need at least 4 characters *)
| ErrNoObjectWithPrefix (p : string) (* no object found with hash prefix %s *)
| ErrAmbiguousPrefix (p : string)    (* ambiguous hash prefix %s matches multiple objects *)
| ErrCommitNotFound (h : string)     (* commit object not found: %s *)
| ErrReadObject                      (* failed to read commit object *)
| ErrUnmarshalCommit                 (* failed to unmarshal commit *)
| ErrReadObjectDir                   (* failed to read object directory *)
| ErrMkdirRef                        (* failed to create ref directory *)
| ErrWriteRef                        (* failed to write ref *)
| ErrRefNotFound (name : string)     (* reference not found: %s *)
| ErrReadRef                         (* failed to read ref *)
| ErrUpdateHEAD                      (* failed to update HEAD *)
| ErrHEADNotFound                    (* HEAD not found *)
| ErrReadHEAD                        (* failed to read HEAD *)
| ErrMkdirMapping                    (* failed to create mapping directory *)
| ErrReadMappings                    (* failed to read hash mappings *)
| ErrUnmarshalMappings               (* failed to unmarshal hash mappings *)
| ErrMarshalMappings                 (* failed to marshal hash mappings *)
| ErrWriteMappings                   (* failed to write hash mappings *)
| ErrNoMGitHash (gitHash : string)   (* no MGit hash found for Git hash %s *)
| ErrNoGitHash (mgitHash : string)   (* no Git hash found for MGit hash %s *)
| ErrNoPubkey (hash : string)        (* no pubkey found for hash %s *)
| ErrRcMkdir                         (* error creating MGit directory structure *)
| ErrRcOpenRepo                      (* error opening Git repository *)
| ErrRcNoMappings                    (* no MGit mappings found in the repository *)
| ErrRcReadMappings                  (* error reading mappings file *)
| ErrRcParseMappings                 (* error parsing mappings file *)
| ErrRcInitialize (e : error)        (* error initializing MGit storage: %w *)
| ErrRcReferences                    (* error getting references *)
| ErrRcHead                          (* error getting Git HEAD *)
| ErrRcWriteHEAD                     (* error writing HEAD file *)
| ErrRcDetachedHEAD (gitHash : string). (* could not find MGit hash for detached HEAD at %s *)

(** How a call ends: a value, a returned error, or a run-time panic. *)
Inductive outcome (A : Type) : Type :=
| Ok (a : A)
| Err (e : error)
| Panic.
Arguments Ok {A} a.
Arguments Err {A} e.
Arguments Panic {A}.

#[global] Instance error_eq_dec : EqDecision error.
Proof.
  intros x y. unfold Decision. revert y.
  induction x as [| | | | | | | | | | | | | | | | | | | | | | | | | | | | | | | | | |e IHe| | | |];
    intros []; try (right; discriminate); try (left; reflexivity);
    match goal with
    | |- {ErrRcInitialize _ = ErrRcInitialize ?b} + {_} =>
        destruct (IHe b) as [->|]; [left; reflexivity | right; congruence]
    | |- {?f ?a = ?f ?b} + {_} =>
        destruct (decide (a = b)) as [->|];
        [left; reflexivity | right; congruence]
    end.
Defined.

#[global] Instance outcome_eq_dec {A} `{EqDecision A} : EqDecision (outcome A).
Proof. solve_decision. Defined.

(** Calls that change the file system thread it; what was written before
    an error or a panic stays written. *)
Definition M (A : Type) : Type := FS.t -> FS.t * outcome A.

Definition ret {A} (a : A) : M A := fun fs => (fs, Ok a).
Definition fail {A} (e : error) : M A := fun fs => (fs, Err e).
Definition panic {A} : M A := fun fs => (fs, Panic).

Definition bind {A B} (m : M A) (k : A -> M B) : M B :=
  fun fs =>
    match m fs with
    | (fs', Ok a) => k a fs'
    | (fs', Err e) => (fs', Err e)
    | (fs', Panic) => (fs', Panic)
    end.

Declare Scope go_scope.
Delimit Scope go_scope with go.
Notation "'do' x <- m ; k" := (bind m (fun x => k))
  (at level 10, x pattern, m at level 100, k at level 200) : go_scope.
Notation "m ;; k" := (bind m (fun _ => k))
  (at level 100, k at level 200, right associativity) : go_scope.

(** Reading the file system inside [M]. *)
Definition look {A} (f : FS.t -> outcome A) : M A := fun fs => (fs, f fs).

(** [if err := os.MkdirAll(p, 0755); err != nil { return e }]. *)
Definition mkdirAll (p : FS.path) (e : error) : M unit :=
  fun fs =>
    let '(fs', ok) := FS.MkdirAll p fs in
    (fs', if ok then Ok tt else Err e).

(** [if err := WriteFile(p, data, 0644); err != nil { return e }]. *)
Definition writeFile (p : FS.path) (data : string) (e : error) : M unit :=
  fun fs =>
    let '(fs', ok) := FS.WriteFile p data fs in
    (fs', if ok then Ok tt else Err e).

(** An early-returning [for _, x := range l { ... }]. *)
Fixpoint forEach {A} (l : list A) (body : A -> M unit) : M unit :=
  match l with
  | [] => ret tt
  | x :: l' => (body x ;; forEach l' body)%go
  end.

(** ** The storage file: [MGitStorage] *)

Record MGitStorage : Type := mkStorage {
  RootDir : FS.path   (* usually ".mgit" *)
}.

Definition NewMGitStorage : MGitStorage := mkStorage [".mgit"].

Section Storage.
Context `{JSON}.
Variable s : MGitStorage.

Local Open Scope go_scope.

(** [Initialize]. *)
Definition Initialize : M unit :=
  mkdirAll (RootDir s) ErrMkdirRoot ;;
  let dirs :=
    [FS.Join (RootDir s) ["objects"];
     FS.Join (RootDir s) ["refs"];
     FS.Join (RootDir s) ["refs/heads"];
     FS.Join (RootDir s) ["refs/tags"];
     FS.Join (RootDir s) ["mappings"]] in
  forEach dirs (fun dir => mkdirAll dir (ErrMkdir dir)) ;;
  let headPath := FS.Join (RootDir s) ["HEAD"] in
  do st <- look (fun fs => Ok (FS.Stat fs headPath)) ;
  if FS.IsNotExist st then
    writeFile headPath "ref: refs/heads/master" ErrCreateHEAD
  else ret tt.

(** [StoreCommit]. *)
Definition StoreCommit (commit : MCommit.MCommitStruct) : M unit :=
  if decide (MCommit.MGitHash commit = "") then fail ErrEmptyHash
  else
    let commit := MCommit.setType MGitCommitObject commit in
    match slice_to 2 (MCommit.MGitHash commit),
          slice_from 2 (MCommit.MGitHash commit) with
    | Some prefix, Some suffix =>
        let objDir := FS.Join (RootDir s) ["objects"; prefix] in
        let objPath := FS.Join objDir [suffix] in
        mkdirAll objDir ErrMkdirObject ;;
        match MarshalCommit commit with
        | None => fail ErrMarshalCommit
        | Some data => writeFile objPath data ErrWriteObject
        end
    | _, _ => panic
    end.

(** [findObjectByPrefix]. *)
Definition findObjectByPrefix (prefix : string) (fs : FS.t)
    : outcome (list string) :=
  if (String.length prefix <=? 2)%nat then
    let objDir := FS.Join (RootDir s) ["objects"; prefix] in
    if FS.IsNotExist (FS.Stat fs objDir) then Ok []
    else
      match FS.ReadDir objDir fs with
      | None => Err ErrReadObjectDir
      | Some files => Ok ((fun name => prefix +:+ name) <$> files)
      end
  else
    match slice_to 2 prefix, slice_from 2 prefix with
    | Some dirPrefix, Some filePrefix =>
        let objDir := FS.Join (RootDir s) ["objects"; dirPrefix] in
        if FS.IsNotExist (FS.Stat fs objDir) then Ok []
        else
          match FS.ReadDir objDir fs with
          | None => Err ErrReadObjectDir
          | Some files =>
              Ok ((fun name => dirPrefix +:+ name)
                    <$> filter (fun name => HasPrefix name filePrefix = true) files)
          end
    | _, _ => Panic
    end.

(** The first half of [GetCommit]: the hash whose object is read. *)
Definition resolveHash (mgitHash : string) (fs : FS.t) : outcome string :=
  if (String.length mgitHash <? 4)%nat then Err ErrHashTooShort
  else if (String.length mgitHash <? 40)%nat then
    match findObjectByPrefix mgitHash fs with
    | Ok [] => Err (ErrNoObjectWithPrefix mgitHash)
    | Ok [m] => Ok m
    | Ok (_ :: _ :: _) => Err (ErrAmbiguousPrefix mgitHash)
    | Err e => Err e
    | Panic => Panic
    end
  else Ok mgitHash.

(** [GetCommit]. *)
Definition GetCommit (mgitHash : string) (fs : FS.t)
    : outcome MCommit.MCommitStruct :=
  match resolveHash mgitHash fs with
  | Ok mgitHash =>
      match slice_to 2 mgitHash, slice_from 2 mgitHash with
      | Some prefix, Some suffix =>
          let objPath := FS.Join (RootDir s) ["objects"; prefix; suffix] in
          if FS.IsNotExist (FS.Stat fs objPath) then Err (ErrCommitNotFound mgitHash)
          else
            match FS.ReadFile objPath fs with
            | None => Err ErrReadObject
            | Some data =>
                match UnmarshalCommit data with
                | None => Err ErrUnmarshalCommit
                | Some commit => Ok commit
                end
            end
      | _, _ => Panic
      end
  | Err e => Err e
  | Panic => Panic
  end.

(** [if !strings.HasPrefix(refName, "refs/") { refName = "refs/heads/" + refName }]. *)
Definition normRef (refName : string) : string :=
  if HasPrefix refName "refs/" then refName else "refs/heads/" +:+ refName.

(** [UpdateRef]. *)
Definition UpdateRef (refName mgitHash : string) : M unit :=
  let refName := normRef refName in
  let refPath := FS.Join (RootDir s) [refName] in
  let refDir := FS.DirOf refPath in
  mkdirAll refDir ErrMkdirRef ;;
  writeFile refPath mgitHash ErrWriteRef.

(** [GetRef]. *)
Definition GetRef (refName : string) (fs : FS.t) : outcome string :=
  let refName := normRef refName in
  let refPath := FS.Join (RootDir s) [refName] in
  if FS.IsNotExist (FS.Stat fs refPath) then Err (ErrRefNotFound refName)
  else
    match FS.ReadFile refPath fs with
    | None => Err ErrReadRef
    | Some data => Ok data
    end.

(** [UpdateHead]. *)
Definition UpdateHead (refName : string) : M unit :=
  let headPath := FS.Join (RootDir s) ["HEAD"] in
  let refName := normRef refName in
  let content := Fmt.Sprintf "ref: %s" [Fmt.ArgString refName] in
  writeFile headPath content ErrUpdateHEAD.

(** [GetHead]. *)
Definition GetHead (fs : FS.t) : outcome string :=
  let headPath := FS.Join (RootDir s) ["HEAD"] in
  if FS.IsNotExist (FS.Stat fs headPath) then Err ErrHEADNotFound
  else
    match FS.ReadFile headPath fs with
    | None => Err ErrReadHEAD
    | Some content =>
        if HasPrefix content "ref: " then Ok (TrimPrefix content "ref: ")
        else Ok content
    end.

(** [GetHeadCommit]. *)
Definition GetHeadCommit (fs : FS.t) : outcome MCommit.MCommitStruct :=
  match GetHead fs with
  | Ok head =>
      if HasPrefix head "refs/" then
        match GetRef head fs with
        | Ok hash => GetCommit hash fs
        | Err e => Err e
        | Panic => Panic
        end
      else GetCommit head fs
  | Err e => Err e
  | Panic => Panic
  end.

End Storage.

(** ** The mapping table *)

(** The test of the update loops:
    [mapping.GitHash == gitHash || mapping.MGitHash == mgitHash]. *)
Definition sharesHash (gitHash mgitHash : string) (m : Mapping.NostrCommitMapping)
    : Prop :=
  Mapping.GitHash m = gitHash \/ Mapping.MGitHash m = mgitHash.

#[global] Instance sharesHash_dec g h m : Decision (sharesHash g h m).
Proof. unfold sharesHash. solve_decision. Defined.

(** "Check for existing mapping ... Add if not found": the loop with its
    [break] overwrites the first record that shares a hash, and the
    [append] runs when the loop found none. *)
Definition addOrUpdate (mappings : list Mapping.NostrCommitMapping)
    (newMapping : Mapping.NostrCommitMapping) : list Mapping.NostrCommitMapping :=
  match list_find (sharesHash (Mapping.GitHash newMapping)
                              (Mapping.MGitHash newMapping)) mappings with
  | Some (i, _) => <[i := newMapping]> mappings
  | None => mappings ++ [newMapping]
  end.

(** The three lookup loops over a parsed table. *)
Fixpoint lookupMGitHash (mappings : list Mapping.NostrCommitMapping)
    (gitHash : string) : option string :=
  match mappings with
  | [] => None
  | m :: rest =>
      if decide (Mapping.GitHash m = gitHash) then Some (Mapping.MGitHash m)
      else lookupMGitHash rest gitHash
  end.

Fixpoint lookupGitHash (mappings : list Mapping.NostrCommitMapping)
    (mgitHash : string) : option string :=
  match mappings with
  | [] => None
  | m :: rest =>
      if decide (Mapping.MGitHash m = mgitHash) then Some (Mapping.GitHash m)
      else lookupGitHash rest mgitHash
  end.

Fixpoint lookupPubkey (mappings : list Mapping.NostrCommitMapping)
    (hash : string) : option string :=
  match mappings with
  | [] => None
  | m :: rest =>
      if decide (Mapping.GitHash m = hash \/ Mapping.MGitHash m = hash)
      then Some (Mapping.Pubkey m)
      else lookupPubkey rest hash
  end.

Section MappingTable.
Context `{JSON}.
Variable s : MGitStorage.

Local Open Scope go_scope.

(** The table in a mapping file, when the file is there:
    [Stat], [ReadFile], [json.Unmarshal]. *)
Definition readTable (mappingPath : FS.path) (eRead eParse : error) (fs : FS.t)
    : outcome (list Mapping.NostrCommitMapping) :=
  if FS.IsNotExist (FS.Stat fs mappingPath) then Ok []
  else
    match FS.ReadFile mappingPath fs with
    | None => Err eRead
    | Some data =>
        match UnmarshalMappings data with
        | None => Err eParse
        | Some mappings => Ok mappings
        end
    end.

(** [StoreMapping]. *)
Definition StoreMapping (gitHash mgitHash pubkey : string) : M unit :=
  let mappingPath := FS.Join (RootDir s) ["mappings"; "hash_mappings.json"] in
  let mappingDir := FS.DirOf mappingPath in
  mkdirAll mappingDir ErrMkdirMapping ;;
  do mappings <- look (readTable mappingPath ErrReadMappings ErrUnmarshalMappings) ;
  let newMapping := Mapping.mk gitHash mgitHash pubkey in
  let mappings := addOrUpdate mappings newMapping in
  match MarshalMappings mappings with
  | None => fail ErrMarshalMappings
  | Some data => writeFile mappingPath data ErrWriteMappings
  end.

(** [GetMappings]. *)
Definition GetMappings (fs : FS.t) : outcome (list Mapping.NostrCommitMapping) :=
  let mappingPath := FS.Join (RootDir s) ["mappings"; "hash_mappings.json"] in
  readTable mappingPath ErrReadMappings ErrUnmarshalMappings fs.

(** [GetMGitHashFromGit]. *)
Definition GetMGitHashFromGit (gitHash : string) (fs : FS.t) : outcome string :=
  match GetMappings fs with
  | Ok mappings =>
      match lookupMGitHash mappings gitHash with
      | Some h => Ok h
      | None => Err (ErrNoMGitHash gitHash)
      end
  | Err e => Err e
  | Panic => Panic
  end.

(** [GetGitHashFromMGit]. *)
Definition GetGitHashFromMGit (mgitHash : string) (fs : FS.t) : outcome string :=
  match GetMappings fs with
  | Ok mappings =>
      match lookupGitHash mappings mgitHash with
      | Some h => Ok h
      | None => Err (ErrNoGitHash mgitHash)
      end
  | Err e => Err e
  | Panic => Panic
  end.

(** [GetPubkeyForCommit]. *)
Definition GetPubkeyForCommit (hash : string) (fs : FS.t) : outcome string :=
  match GetMappings fs with
  | Ok mappings =>
      match lookupPubkey mappings hash with
      | Some k => Ok k
      | None => Err (ErrNoPubkey hash)
      end
  | Err e => Err e
  | Panic => Panic
  end.

(** [getNostrMappingFilePath]. *)
Definition getNostrMappingFilePath : FS.path := FS.Clean ".mgit/nostr_mappings.json".

(** [StoreCommitNostrMapping]; its errors carry other texts, the same
    constructors stand for them. *)
Definition StoreCommitNostrMapping (gitHash mgitHash : plumbing.Hash)
    (pubkey : string) : M unit :=
  let mappingFile := getNostrMappingFilePath in
  do mappings <- look (readTable mappingFile ErrReadMappings ErrUnmarshalMappings) ;
  let newMapping :=
    Mapping.mk (plumbing.String_ gitHash) (plumbing.String_ mgitHash) pubkey in
  let mappings := addOrUpdate mappings newMapping in
  match MarshalMappings mappings with
  | None => fail ErrMarshalMappings
  | Some data =>
      mkdirAll (FS.DirOf mappingFile) ErrMkdirMapping ;;
      writeFile mappingFile data ErrWriteMappings
  end.

(** The parents loop of [MGitCommit] ("Collect MGit hashes for parent
    commits"): the mapped hash, or the Git hash as a fallback.  The
    [Printf] of a found hash slices [mgitHash[:7]]. *)
Fixpoint MGitCommit_parents (parents : list plumbing.Hash) (fs : FS.t)
    : outcome (list string) :=
  match parents with
  | [] => Ok []
  | parentGitHash :: rest =>
      let here :=
        match GetMGitHashFromGit (plumbing.String_ parentGitHash) fs with
        | Ok mgitHash =>
            match slice_to 7 mgitHash with
            | Some _ => Ok mgitHash
            | None => Panic
            end
        | _ => Ok (plumbing.String_ parentGitHash)
        end in
      match here with
      | Ok h =>
          match MGitCommit_parents rest fs with
          | Ok hs => Ok (h :: hs)
          | r => r
          end
      | Err e => Err e
      | Panic => Panic
      end
  end.

End MappingTable.

(** ** The Git repository that go-git opens

    What the sources ask of a [*git.Repository]: a commit by hash, the
    references, and [HEAD]; [None] is a returned error. *)

Record Repository : Type := mkRepository {
  CommitObject : plumbing.Hash -> option object.Commit;
  References : option (list plumbing.Reference);
  Head : option plumbing.Reference
}.

(** ** The clone code: [reconstructMGitObjects] *)

Section Reconstruct.
Context `{JSON}.

Local Open Scope go_scope.

(** [fmt.Printf("... %s\n", h[:7])]: nothing but the slice matters. *)
Definition printShort (h : string) : M unit :=
  match slice_to 7 h with
  | Some _ => ret tt
  | None => panic
  end.

(** "Find MGit parent hashes": for each parent of the Git commit, the
    MGit hash of the first mapping with that Git hash; a parent with no
    mapping adds nothing. *)
Fixpoint reconstructParents (mappings : list Mapping.NostrCommitMapping)
    (parents : list plumbing.Hash) : list string :=
  match parents with
  | [] => []
  | parentGitHash :: rest =>
      match lookupMGitHash mappings (plumbing.String_ parentGitHash) with
      | Some mgitHash => mgitHash :: reconstructParents mappings rest
      | None => reconstructParents mappings rest
      end
  end.

(** "Create the MGit commit object". *)
Definition reconstructedCommit (mappings : list Mapping.NostrCommitMapping)
    (mapping : Mapping.NostrCommitMapping) (gitCommit : object.Commit)
    : MCommit.MCommitStruct :=
  let parentMGitHashes := reconstructParents mappings (object.ParentHashes gitCommit) in
  MCommit.mk MGitCommitObject
    (Mapping.MGitHash mapping)
    (Mapping.GitHash mapping)
    (plumbing.String_ (object.TreeHash gitCommit))
    parentMGitHashes
    (Some (Sig.mk (object.Name (object.Author gitCommit))
                  (object.Email (object.Author gitCommit))
                  (Mapping.Pubkey mapping)
                  (object.When (object.Author gitCommit))))
    (Some (Sig.mk (object.Name (object.Committer gitCommit))
                  (object.Email (object.Committer gitCommit))
                  (Mapping.Pubkey mapping)
                  (object.When (object.Committer gitCommit))))
    (object.Message gitCommit)
    {[ "version" := "1.0" ]}.

(** The body of "Process each mapping"; every [continue] is [ret tt]. *)
Definition reconstructMapping (storage : MGitStorage) (repo : Repository)
    (mappings : list Mapping.NostrCommitMapping)
    (mapping : Mapping.NostrCommitMapping) : M unit :=
  fun fs =>
    match GetCommit storage (Mapping.MGitHash mapping) fs with
    | Ok _ => (fs, Ok tt)                      (* Object already exists, skip *)
    | Panic => (fs, Panic)
    | Err _ =>
        let gitHash := plumbing.NewHash (Mapping.GitHash mapping) in
        match CommitObject repo gitHash with
        | None => (fs, Ok tt)                  (* Warning: Could not find Git commit *)
        | Some gitCommit =>
            let mgitCommit := reconstructedCommit mappings mapping gitCommit in
            match StoreCommit storage mgitCommit fs with
            | (fs', Err _) => (fs', Ok tt)     (* Warning: Could not store MGit commit *)
            | (fs', Panic) => (fs', Panic)
            | (fs', Ok _) => printShort (Mapping.MGitHash mapping) fs'
            end
        end
    end.

(** The callback of [refs.ForEach]; it always returns [nil]. *)
Definition reconstructRef (storage : MGitStorage)
    (mappings : list Mapping.NostrCommitMapping) (ref : plumbing.Reference)
    : M unit :=
  if plumbing.IsBranch ref then
    let branchName := plumbing.Short ref in
    let gitHash := plumbing.String_ (plumbing.RefHash ref) in
    match lookupMGitHash mappings gitHash with
    | Some mgitHash =>
        let refPath := Fmt.Sprintf "refs/heads/%s" [Fmt.ArgString branchName] in
        fun fs =>
          match UpdateRef storage refPath mgitHash fs with
          | (fs', Err _) => (fs', Ok tt)       (* Warning: Could not update branch ref *)
          | (fs', Panic) => (fs', Panic)
          | (fs', Ok _) => printShort mgitHash fs'
          end
    | None => ret tt                           (* Warning: Could not find MGit hash *)
    end
  else ret tt.

(** "Update HEAD". *)
Definition reconstructHEAD (repoPath : FS.path)
    (mappings : list Mapping.NostrCommitMapping) (head : plumbing.Reference)
    : M unit :=
  if plumbing.IsBranch head then
    let branchName := plumbing.Short head in
    let headContent := Fmt.Sprintf "ref: refs/heads/%s" [Fmt.ArgString branchName] in
    let headPath := FS.Join repoPath [".mgit"; "HEAD"] in
    writeFile headPath headContent ErrRcWriteHEAD
  else
    (* Detached HEAD - try to find the corresponding MGit hash *)
    let gitHash := plumbing.String_ (plumbing.RefHash head) in
    let mgitHash := default "" (lookupMGitHash mappings gitHash) in
    if decide (mgitHash = "") then fail (ErrRcDetachedHEAD gitHash)
    else
      let headPath := FS.Join repoPath [".mgit"; "HEAD"] in
      writeFile headPath mgitHash ErrRcWriteHEAD ;;
      printShort mgitHash.

(** [reconstructMGitObjects(repoPath)]; [opened] is what
    [git.PlainOpen(repoPath)] returns. *)
Definition reconstructMGitObjects (opened : option Repository)
    (repoPath : FS.path) : M unit :=
  let mgitDir := FS.Join repoPath [".mgit"] in
  let objDir := FS.Join mgitDir ["objects"] in
  let refsDir := FS.Join mgitDir ["refs"] in
  let refsHeadsDir := FS.Join refsDir ["heads"] in
  let mappingsDir := FS.Join mgitDir ["mappings"] in
  let dirs := [objDir; refsDir; refsHeadsDir; mappingsDir] in
  forEach dirs (fun dir => mkdirAll dir ErrRcMkdir) ;;
  match opened with
  | None => fail ErrRcOpenRepo
  | Some repo =>
      let hashMappingsPath :=
        FS.Join repoPath [".mgit"; "mappings"; "hash_mappings.json"] in
      do mappings <- look (fun fs =>
        if FS.IsNotExist (FS.Stat fs hashMappingsPath) then Err ErrRcNoMappings
        else
          match FS.ReadFile hashMappingsPath fs with
          | None => Err ErrRcReadMappings
          | Some mappingsData =>
              match UnmarshalMappings mappingsData with
              | None => Err ErrRcParseMappings
              | Some mappings => Ok mappings
              end
          end) ;
      let storage := mkStorage (FS.Join repoPath [".mgit"]) in
      (fun fs =>
         match Initialize storage fs with
         | (fs', Err e) => (fs', Err (ErrRcInitialize e))
         | r => r
         end) ;;
      forEach mappings (reconstructMapping storage repo mappings) ;;
      match References repo with
      | None => fail ErrRcReferences
      | Some refs =>
          forEach refs (reconstructRef storage mappings) ;;
          match Head repo with
          | None => fail ErrRcHead
          | Some head => reconstructHEAD repoPath mappings head
          end
      end
  end.

End Reconstruct.

(** ** cmd_mgit.go: [HandleMGitVerify] *)

(** What the second loop prints for a commit it rejects. *)
Inductive verifyFailure : Type :=
| GitCommitMissing (hash gitHash : string)   (* Error: Cannot find Git commit *)
| HashMismatch (hash expected : string).     (* Hash verification failed *)

(** How the command ends.  [Verdict valid loadErrors failures]: the final
    message ([valid = false] is followed by [os.Exit(1)]), the hashes
    whose [GetCommit] failed in the first loop and the failures the second
    loop printed. *)
Inductive verifyOutcome : Type :=
| HeadError (e : error)          (* Error getting HEAD commit, os.Exit(1) *)
| RepoError                      (* getRepo: Error opening repository, os.Exit(1) *)
| VerifyPanic                    (* nil pointer dereference *)
| Verdict (valid : bool) (loadErrors : list string) (failures : list verifyFailure).

Section Verify.
Context `{JSON}.

(** "Build the commit graph": the loop [for len(queue) > 0].  [commits]
    lists the entries of the Go map in the order they were added, and
    [visited] holds its keys.  [None]: more iterations than [fuel]. *)
Fixpoint buildGraph (storage : MGitStorage) (fs : FS.t) (fuel : nat)
    (queue : list string) (visited : gset string)
    (commits : list (string * MCommit.MCommitStruct)) (loadErrors : list string)
    : option (outcome (list (string * MCommit.MCommitStruct) * list string)) :=
  match fuel with
  | O => None
  | S fuel' =>
      match queue with
      | [] => Some (Ok (commits, loadErrors))
      | current :: queue =>
          if decide (current ∈ visited) then
            buildGraph storage fs fuel' queue visited commits loadErrors
          else
            match GetCommit storage current fs with
            | Err _ =>
                (* Error getting commit; continue *)
                buildGraph storage fs fuel' queue visited commits
                  (loadErrors ++ [current])
            | Panic => Some Panic
            | Ok commit =>
                let visited := {[ current ]} ∪ visited in
                let queue :=
                  (queue ++ filter (fun parent => parent ∉ visited)
                                   (MCommit.ParentHashes commit))%list in
                buildGraph storage fs fuel' queue visited
                  (commits ++ [(current, commit)]) loadErrors
            end
      end
  end.

(** One iteration of "Verify each commit's hash": [None] when the commit
    passes. *)
Definition verifyCommit (repo : Repository) (hash : string)
    (commit : MCommit.MCommitStruct) : outcome (option verifyFailure) :=
  let gitHash := MCommit.GitHash commit in
  match CommitObject repo (plumbing.NewHash gitHash) with
  | None => Ok (Some (GitCommitMissing hash gitHash))
  | Some gitCommit =>
      match MCommit.Author commit with
      | None => Panic
      | Some author =>
          let expectedHash :=
            computeMGitHash gitCommit (MCommit.ParentHashes commit) (Sig.Pubkey author) in
          if decide (plumbing.String_ expectedHash ≠ hash)
          then Ok (Some (HashMismatch hash (plumbing.String_ expectedHash)))
          else Ok None
      end
  end.

(** The second loop; [getRepo()] is called in every iteration. *)
Fixpoint verifyCommits (opened : option Repository)
    (commits : list (string * MCommit.MCommitStruct)) (failures : list verifyFailure)
    : option (outcome (list verifyFailure)) :=
  match commits with
  | [] => Some (Ok failures)
  | (hash, commit) :: rest =>
      match opened with
      | None => None
      | Some repo =>
          match verifyCommit repo hash commit with
          | Ok None => verifyCommits opened rest failures
          | Ok (Some f) => verifyCommits opened rest (failures ++ [f])
          | Err e => Some (Err e)
          | Panic => Some Panic
          end
      end
  end.

(** [HandleMGitVerify]; [opened] is what [git.PlainOpen(".")] returns.
    [None]: the first loop needs more than [fuel] iterations. *)
Definition HandleMGitVerify (fuel : nat) (opened : option Repository) (fs : FS.t)
    : option verifyOutcome :=
  let storage := NewMGitStorage in
  match GetHeadCommit storage fs with
  | Err e => Some (HeadError e)
  | Panic => Some VerifyPanic
  | Ok headCommit =>
      match buildGraph storage fs fuel [MCommit.MGitHash headCommit] ∅ [] [] with
      | None => None
      | Some Panic | Some (Err _) => Some VerifyPanic
      | Some (Ok (commits, loadErrors)) =>
          match verifyCommits opened commits [] with
          | None => Some RepoError
          | Some Panic | Some (Err _) => Some VerifyPanic
          | Some (Ok failures) =>
              (* valid stays true exactly when nothing was printed here *)
              Some (Verdict (bool_decide (failures = [])) loadErrors failures)
          end
      end
  end.

End Verify.

(** ** Vocabulary of the statements *)

(** Concatenation of byte strings, as successive [Write]s produce it. *)
Fixpoint concat_str (l : list string) : string :=
  match l with
  | [] => ""
  | x :: l' => x +:+ concat_str l'
  end.

(** The same Git commit with another message. *)
Definition setMessage (msg : string) (c : object.Commit) : object.Commit :=
  object.mkCommit (object.Hash c) (object.Author c) (object.Committer c) msg
    (object.TreeHash c) (object.ParentHashes c).

(** [l] with the entries at [i] and [j] exchanged. *)
Definition swapEntries {A} (i j : nat) (l : list A) : list A :=
  match l !! i, l !! j with
  | Some a, Some b => <[i := b]> (<[j := a]> l)
  | _, _ => l
  end.

(** ** Values for the examples *)

Definition exTime : time.Time := time.mkTime 1700000000 0.

Definition exSignature : object.Signature :=
  object.mkSignature "ann" "ann@example.org" exTime.

Definition exTree : plumbing.Hash :=
  plumbing.NewHash "4b825dc642cb6eb9a060e54bf8d69288fbee4904".

(** A Git commit with the given hash, parents and message. *)
Definition exGitCommit (hash : string) (parents : list string) (msg : string)
    : object.Commit :=
  object.mkCommit (plumbing.NewHash hash) exSignature exSignature msg exTree
    (plumbing.NewHash <$> parents).

Definition exKey : string := "npub1examplekey".

(** Two spellings of one hash, and another hash. *)
Definition exParentLower : string := "00000000000000000000000000000000000000ab".
Definition exParentUpper : string := "00000000000000000000000000000000000000AB".
Definition exParentOther : string := "00000000000000000000000000000000000000cd".

(** ** A table-driven codec for the examples

    The files of an example hold short names; [tableCodec] reads a name
    back to the record listed under it and writes a listed record as its
    name, with a marshalling error for any other record. *)

#[global] Instance Time_eq_dec : EqDecision time.Time.
Proof. solve_decision. Defined.
#[global] Instance MGitSignature_eq_dec : EqDecision Sig.MGitSignature.
Proof. solve_decision. Defined.
#[global] Instance MCommitStruct_eq_dec : EqDecision MCommit.MCommitStruct.
Proof. solve_decision. Defined.
#[global] Instance NostrCommitMapping_eq_dec : EqDecision Mapping.NostrCommitMapping.
Proof. solve_decision. Defined.

Fixpoint nameOf {A} `{EqDecision A} (table : list (string * A)) (x : A)
    : option string :=
  match table with
  | [] => None
  | (name, y) :: rest => if decide (y = x) then Some name else nameOf rest x
  end.

Fixpoint valueOf {A} (table : list (string * A)) (name : string) : option A :=
  match table with
  | [] => None
  | (n, y) :: rest => if decide (n = name) then Some y else valueOf rest name
  end.

Definition tableCodec (commits : list (string * MCommit.MCommitStruct))
    (tables : list (string * list Mapping.NostrCommitMapping)) : JSON :=
  {| MarshalCommit := nameOf commits;
     UnmarshalCommit := valueOf commits;
     MarshalMappings := nameOf tables;
     UnmarshalMappings := valueOf tables |}.

(** A record with a one-character overlay hash. *)
Definition exShortRecord : MCommit.MCommitStruct :=
  MCommit.mk "" "a" "" "" [] None None "" ∅.

(** ** Names and paths in the statements *)

(** A name that [filepath.Join] keeps as one component. *)
Definition plain (c : string) : Prop :=
  FS.split_slash c = [c] /\ c <> "" /\ c <> "." /\ c <> "..".

#[global] Instance plain_dec c : Decision (plain c).
Proof. unfold plain. solve_decision. Defined.

(** A hash whose two-character directory name and entry name are both
    such names; every hexadecimal hash of three or more characters is. *)
Definition good_hash (h : string) : Prop :=
  plain (str_take 2 h) /\ plain (str_drop 2 h).

#[global] Instance good_hash_dec h : Decision (good_hash h).
Proof. unfold good_hash. solve_decision. Defined.

(** [objects/] and the file of a hash below the root of a storage. *)
Definition objectsDir (s : MGitStorage) : FS.path := "objects" :: RootDir s.

Definition objectPath (s : MGitStorage) (h : string) : FS.path :=
  str_drop 2 h :: str_take 2 h :: objectsDir s.

(** ** The object store as a finite map

    [store_rep s fs m]: below [objects/] the file system [fs] holds the
    records of [m] and nothing else.  The directory of objects exists,
    every two-character entry of it is a directory, every entry of such a
    directory is a regular file that decodes to the record [m] has under
    the directory name followed by the entry name, and every record of
    [m] is stored that way. *)
Record store_rep `{JSON} (s : MGitStorage) (fs : FS.t)
    (m : gmap string MCommit.MCommitStruct) : Prop := mkStoreRep {
  rep_objects : fs !! objectsDir s = Some FS.Dir;
  rep_shard : forall d,
    plain d -> String.length d = 2 ->
    fs !! (d :: objectsDir s) = None \/ fs !! (d :: objectsDir s) = Some FS.Dir;
  rep_entry : forall d n node,
    plain d -> String.length d = 2 ->
    fs !! (n :: d :: objectsDir s) = Some node ->
    exists c data,
      good_hash (d +:+ n) /\ m !! (d +:+ n) = Some c
      /\ node = FS.File data /\ UnmarshalCommit data = Some c;
  rep_record : forall h c,
    m !! h = Some c ->
    good_hash h
    /\ fs !! (str_take 2 h :: objectsDir s) = Some FS.Dir
    /\ exists data,
         fs !! objectPath s h = Some (FS.File data) /\ UnmarshalCommit data = Some c
}.

(** The stored hashes that begin with [p]. *)
Definition extending (m : gmap string MCommit.MCommitStruct) (p : string)
    : gset string :=
  filter (fun h => HasPrefix h p = true) (dom m).

(** ** An example repository *)

Definition exRootGitHash : string := "a1a1a1a1a1a1a1a1a1a1a1a1a1a1a1a1a1a1a1a1".
Definition exChildGitHash : string := "b2b2b2b2b2b2b2b2b2b2b2b2b2b2b2b2b2b2b2b2".

Definition exRootGit : object.Commit := exGitCommit exRootGitHash [] "root".
Definition exChildGit : object.Commit :=
  exGitCommit exChildGitHash [exRootGitHash] "child".

(** The overlay hashes the hash engine gives the two commits. *)
Definition exRootHash : string :=
  Eval vm_compute in plumbing.String_ (computeMGitHash exRootGit [] exKey).
Definition exChildHash : string :=
  Eval vm_compute in plumbing.String_ (computeMGitHash exChildGit [exRootHash] exKey).

Definition exRootMapping : Mapping.NostrCommitMapping :=
  Mapping.mk exRootGitHash exRootHash exKey.
Definition exChildMapping : Mapping.NostrCommitMapping :=
  Mapping.mk exChildGitHash exChildHash exKey.
Definition exMappings : list Mapping.NostrCommitMapping :=
  [exRootMapping; exChildMapping].

Definition exBranch : plumbing.Reference :=
  plumbing.mkReference true "main" (plumbing.NewHash exChildGitHash).

(** [HEAD] detached at a commit. *)
Definition exDetached (gitHash : string) : plumbing.Reference :=
  plumbing.mkReference false "HEAD" (plumbing.NewHash gitHash).

Definition exCommitObject (h : plumbing.Hash) : option object.Commit :=
  if decide (h = plumbing.NewHash exRootGitHash) then Some exRootGit
  else if decide (h = plumbing.NewHash exChildGitHash) then Some exChildGit
  else None.

(** The Git repository with the two commits and the branch [main], with
    [HEAD] as given. *)
Definition exRepo (head : plumbing.Reference) : Repository :=
  mkRepository exCommitObject (Some [exBranch]) (Some head).

(** A storage directory as [Initialize] leaves it in an empty working
    directory. *)
Definition exEmptyStore : FS.t :=
  <[ ["HEAD"; ".mgit"] := FS.File "ref: refs/heads/master" ]>
  (<[ ["mappings"; ".mgit"] := FS.Dir ]>
  (<[ ["tags"; "refs"; ".mgit"] := FS.Dir ]>
  (<[ ["heads"; "refs"; ".mgit"] := FS.Dir ]>
  (<[ ["refs"; ".mgit"] := FS.Dir ]>
  (<[ ["objects"; ".mgit"] := FS.Dir ]>
  (<[ [".mgit"] := FS.Dir ]> ∅)))))).

(** The records [reconstructMGitObjects] builds for the two commits, and
    the codec of the examples. *)
Definition exRootRecord : MCommit.MCommitStruct :=
  reconstructedCommit exMappings exRootMapping exRootGit.
Definition exChildRecord : MCommit.MCommitStruct :=
  reconstructedCommit exMappings exChildMapping exChildGit.

Definition exCodec : JSON :=
  tableCodec [("root.json", exRootRecord); ("child.json", exChildRecord)]
             [("table.json", exMappings)].

(** The storage directory after [put] of the root record. *)
Definition exRootStore : FS.t :=
  <[ objectPath NewMGitStorage exRootHash := FS.File "root.json" ]>
  (<[ str_take 2 exRootHash :: objectsDir NewMGitStorage := FS.Dir ]> exEmptyStore).

(** A record with an overlay hash of three characters. *)
Definition exThreeCharRecord : MCommit.MCommitStruct :=
  MCommit.mk MGitCommitObject "abc" "" "" [] None None "" ∅.

(** The initialized storage directory with the mapping table of the
    example in [mappings/hash_mappings.json]. *)
Definition exTableStore : FS.t :=
  <[ ["hash_mappings.json"; "mappings"; ".mgit"] := FS.File "table.json" ]> exEmptyStore.

(** A table whose record for the root commit has an empty overlay hash,
    its codec, and the storage directory that holds it. *)
Definition exEmptyHashTable : list Mapping.NostrCommitMapping :=
  [Mapping.mk exRootGitHash "" exKey].

Definition exEmptyHashCodec : JSON :=
  tableCodec [] [("table.json", exEmptyHashTable)].

(** ** The overlay graph that [HandleMGitVerify] walks *)

Section VerifySpec.
Context `{JSON}.

(** The hashes reached from [start] along [ParentHashes], going on from a
    hash only when its record loads. *)
Inductive reachable (storage : MGitStorage) (fs : FS.t) (start : string)
    : string -> Prop :=
| reach_start : reachable storage fs start start
| reach_parent k c p :
    reachable storage fs start k ->
    GetCommit storage k fs = Ok c ->
    p ∈ MCommit.ParentHashes c ->
    reachable storage fs start p.

(** The record [c], loaded under the hash [k], passes the second loop: its
    Git commit is found and the hash recomputed from it is [k]. *)
Definition nodeOK (repo : Repository) (k : string) (c : MCommit.MCommitStruct)
    : Prop :=
  exists gitCommit author,
    CommitObject repo (plumbing.NewHash (MCommit.GitHash c)) = Some gitCommit
    /\ MCommit.Author c = Some author
    /\ plumbing.String_
         (computeMGitHash gitCommit (MCommit.ParentHashes c) (Sig.Pubkey author)) = k.

(** The records that the regular files of [fs] decode to, and all the
    parent hashes they name. *)
Definition storedRecords (fs : FS.t) : list MCommit.MCommitStruct :=
  omap (fun kn : FS.path * FS.node =>
          match kn.2 with
          | FS.File data => UnmarshalCommit data
          | FS.Dir => None
          end) (map_to_list fs).

Definition storedParents (fs : FS.t) : list string :=
  flat_map MCommit.ParentHashes (storedRecords fs).

(** Iterations that suffice for the first loop on [fs]. *)
Definition verifyFuel (fs : FS.t) : nat :=
  2 + (1 + length (storedParents fs)) * (1 + length (storedParents fs)).

(** What holds of the state of the first loop at each iteration. *)
Record graphInv (storage : MGitStorage) (fs : FS.t) (start : string)
    (queue : list string) (visited : gset string)
    (commits : list (string * MCommit.MCommitStruct)) (loadErrors : list string)
    : Prop := mkGraphInv {
  inv_commits : forall k c,
    (k, c) ∈ commits ->
    GetCommit storage k fs = Ok c /\ k ∈ visited /\ reachable storage fs start k;
  inv_visited : forall k, k ∈ visited -> exists c, (k, c) ∈ commits;
  inv_queue : forall q, q ∈ queue -> reachable storage fs start q;
  inv_errors : forall k,
    k ∈ loadErrors ->
    reachable storage fs start k /\ exists e, GetCommit storage k fs = Err e;
  inv_start : start ∈ visited \/ start ∈ queue \/ start ∈ loadErrors;
  inv_closed : forall k c p,
    (k, c) ∈ commits -> p ∈ MCommit.ParentHashes c ->
    p ∈ visited \/ p ∈ queue \/ p ∈ loadErrors
}.

End VerifySpec.

Definition failureHash (f : verifyFailure) : string :=
  match f with
  | GitCommitMissing h _ => h
  | HashMismatch h _ => h
  end.

Section VerifyOutcome.
Context `{JSON}.

(** The hashes the first loop can meet on [fs]. *)
Definition graphNodes (fs : FS.t) (start : string) : gset string :=
  {[ start ]} ∪ list_to_set (storedParents fs).

(** What the way the command ends says about the overlay graph: the
    verdict is [true] exactly when every record that loads from a
    reachable hash passes, the hashes reported by the first loop are the
    reachable ones without a loadable record, and the failures are those
    of the loaded records that do not pass, one or more for each.  The
    command breaks off only at a loaded record without author whose Git
    commit exists. *)
Definition verifySpec (repo : Repository) (fs : FS.t) (start : string)
    (out : verifyOutcome) : Prop :=
  let s := NewMGitStorage in
  match out with
  | Verdict valid loadErrors failures =>
      (valid = true <->
         forall k c, reachable s fs start k -> GetCommit s k fs = Ok c -> nodeOK repo k c)
      /\ (forall k, k ∈ loadErrors <->
            reachable s fs start k /\ exists e, GetCommit s k fs = Err e)
      /\ (forall k c, reachable s fs start k -> GetCommit s k fs = Ok c ->
            ~ nodeOK repo k c -> exists f, f ∈ failures /\ failureHash f = k)
      /\ (forall f, f ∈ failures ->
            exists c, reachable s fs start (failureHash f)
              /\ GetCommit s (failureHash f) fs = Ok c
              /\ ~ nodeOK repo (failureHash f) c)
  | VerifyPanic =>
      exists k c, reachable s fs start k /\ GetCommit s k fs = Ok c
        /\ MCommit.Author c = None
        /\ CommitObject repo (plumbing.NewHash (MCommit.GitHash c)) <> None
  | HeadError _ | RepoError => False
  end.

End VerifyOutcome.

#[global] Instance verifyFailure_eq_dec : EqDecision verifyFailure.
Proof. solve_decision. Defined.
#[global] Instance verifyOutcome_eq_dec : EqDecision verifyOutcome.
Proof. solve_decision. Defined.

(** [fs] with the record of the child commit and the branch of [HEAD]
    at it. *)
Definition exHeadStore (fs : FS.t) : FS.t :=
  <[ ["master"; "heads"; "refs"; ".mgit"] := FS.File exChildHash ]>
  (<[ objectPath NewMGitStorage exChildHash := FS.File "child.json" ]>
  (<[ str_take 2 exChildHash :: objectsDir NewMGitStorage := FS.Dir ]> fs)).

(** The child record alone, and together with the record of its parent. *)
Definition exDanglingStore : FS.t := exHeadStore exEmptyStore.
Definition exFullStore : FS.t := exHeadStore exRootStore.

(** ** How the file system changes under a run

    [evolves P fs fs']: directories stay directories, regular files stay
    regular files, a file whose path and content satisfy [P] keeps its
    content, and every new node lies in a directory. *)
Record evolves (P : FS.path -> string -> Prop) (fs fs' : FS.t) : Prop := mkEvolves {
  ev_dir : forall p, FS.node_at fs p = Some FS.Dir -> FS.node_at fs' p = Some FS.Dir;
  ev_file : forall p d,
    FS.node_at fs p = Some (FS.File d) ->
    exists d', FS.node_at fs' p = Some (FS.File d') /\ (P p d -> d' = d);
  ev_new : forall c q,
    FS.node_at fs (c :: q) = None -> FS.node_at fs' (c :: q) <> None ->
    FS.node_at fs' q = Some FS.Dir
}.

(** Every run of [m] changes the file system within [R]. *)
Definition preserves {A : Type} (R : relation FS.t) (m : M A) : Prop :=
  forall fs fs' r, m fs = (fs', r) -> R fs fs'.

(** A hash of full length whose object file [GetCommit] reads directly. *)
Definition full_hash (h : string) : Prop := good_hash h /\ 40 <= String.length h.

#[global] Instance full_hash_dec h : Decision (full_hash h).
Proof. unfold full_hash. solve_decision. Defined.

(** The files of the object store. *)
Definition isObjectPath (s : MGitStorage) (p : FS.path) : Prop :=
  exists n d, p = n :: d :: objectsDir s.

(** The object files that decode. *)
Definition decodedObject `{JSON} (s : MGitStorage) (p : FS.path) (data : string)
    : Prop :=
  isObjectPath s p /\ is_Some (UnmarshalCommit data).

(** What [json.Marshal] writes for a record, [json.Unmarshal] reads. *)
Definition decodes `{JSON} : Prop :=
  forall c data, MarshalCommit c = Some data -> is_Some (UnmarshalCommit data).

(** The inverse of [FS.split_slash]. *)
Fixpoint join_slash (l : list string) : string :=
  match l with
  | [] => ""
  | [x] => x
  | x :: l' => x +:+ "/" +:+ join_slash l'
  end.

(** A branch name whose components [filepath.Join] keeps, and the file
    of the branch. *)
Definition branchName_ok (name : string) : Prop := Forall plain (FS.split_slash name).

Definition refFile (s : MGitStorage) (name : string) : FS.path :=
  reverse (FS.split_slash name) ++ "heads" :: "refs" :: RootDir s.

#[global] Instance branchName_ok_dec name : Decision (branchName_ok name).
Proof. unfold branchName_ok. apply _. Defined.

(** A table that names two overlay objects by seven characters and more,
    and a third by the seven characters the two share. *)
Definition exShortTable : list Mapping.NostrCommitMapping :=
  [Mapping.mk exRootGitHash "abcdefg1" exKey;
   Mapping.mk exChildGitHash "abcdefg" exKey;
   Mapping.mk exRootGitHash "abcdefg2" exKey].

Definition exShortCodec : JSON :=
  tableCodec
    [("1.json", reconstructedCommit exShortTable
                  (Mapping.mk exRootGitHash "abcdefg1" exKey) exRootGit);
     ("2.json", reconstructedCommit exShortTable
                  (Mapping.mk exChildGitHash "abcdefg" exKey) exChildGit);
     ("3.json", reconstructedCommit exShortTable
                  (Mapping.mk exRootGitHash "abcdefg2" exKey) exRootGit)]
    [("table.json", exShortTable)].

(** A name without separator and without dot. *)
Fixpoint clean_name (x : string) : bool :=
  match x with
  | "" => true
  | String c x' => negb (Ascii.eqb c "/") && negb (Ascii.eqb c ".") && clean_name x'
  end.

(** ** mcommit.go: [MGitCommit]

    The calls into go-git are inputs: [opened] is what [getRepo] opens,
    with the commits and the [HEAD] it has once [w.Commit] is done, and
    [worktree] is [None] when [repo.Worktree()] fails, [Some None] when
    [w.Commit] fails and [Some (Some gitHash)] for the hash it returns.
    [pubkey] is [opts.Author.Pubkey]. *)

Inductive commitError : Type :=
| ErrCmWorktree                (* error getting worktree *)
| ErrCmCommit                  (* error committing *)
| ErrCmRetrieve                (* error retrieving commit *)
| ErrCmInitialize (e : error)  (* error initializing MGit storage *)
| ErrCmStore (e : error)       (* error storing MGit commit *)
| ErrCmMapping (e : error).    (* error storing hash mapping *)

Inductive commitOutcome : Type :=
| CommitHash (h : plumbing.Hash)   (* the hash, with a nil error *)
| CommitErr (e : commitError)      (* plumbing.ZeroHash and the error *)
| CommitExit                       (* getRepo: os.Exit(1) *)
| CommitPanic.

#[global] Instance commitError_eq_dec : EqDecision commitError.
Proof. solve_decision. Defined.
#[global] Instance commitOutcome_eq_dec : EqDecision commitOutcome.
Proof. solve_decision. Defined.

(** "Create an MGit commit object". *)
Definition MGitCommit_record (gitCommit : object.Commit) (gitHash : plumbing.Hash)
    (parentMGitHashes : list string) (pubkey : string) : MCommit.MCommitStruct :=
  let mgitHash := computeMGitHash gitCommit parentMGitHashes pubkey in
  MCommit.mk MGitCommitObject
    (plumbing.String_ mgitHash)
    (plumbing.String_ gitHash)
    (plumbing.String_ (object.TreeHash gitCommit))
    parentMGitHashes
    (Some (Sig.mk (object.Name (object.Author gitCommit))
                  (object.Email (object.Author gitCommit))
                  pubkey
                  (object.When (object.Author gitCommit))))
    (Some (Sig.mk (object.Name (object.Committer gitCommit))
                  (object.Email (object.Committer gitCommit))
                  pubkey
                  (object.When (object.Committer gitCommit))))
    (object.Message gitCommit)
    {[ "version" := "1.0" ]}.

Definition MGitCommit `{JSON} (opened : option Repository)
    (worktree : option (option plumbing.Hash)) (pubkey : string) (fs : FS.t)
    : FS.t * commitOutcome :=
  match opened with
  | None => (fs, CommitExit)
  | Some repo =>
      match worktree with
      | None => (fs, CommitErr ErrCmWorktree)
      | Some None => (fs, CommitErr ErrCmCommit)
      | Some (Some gitHash) =>
          (* If no pubkey is present, just return the Git hash *)
          if decide (pubkey = "") then (fs, CommitHash gitHash)
          else
            match CommitObject repo gitHash with
            | None => (fs, CommitErr ErrCmRetrieve)
            | Some gitCommit =>
                let storage := NewMGitStorage in
                match Initialize storage fs with
                | (fs1, Err e) => (fs1, CommitErr (ErrCmInitialize e))
                | (fs1, Panic) => (fs1, CommitPanic)
                | (fs1, Ok _) =>
                    match MGitCommit_parents storage (object.ParentHashes gitCommit) fs1 with
                    | Err _ | Panic => (fs1, CommitPanic)
                    | Ok parentMGitHashes =>
                        let mgitHash :=
                          computeMGitHash gitCommit parentMGitHashes pubkey in
                        let mgitCommit :=
                          MGitCommit_record gitCommit gitHash parentMGitHashes pubkey in
                        match StoreCommit storage mgitCommit fs1 with
                        | (fs2, Err e) => (fs2, CommitErr (ErrCmStore e))
                        | (fs2, Panic) => (fs2, CommitPanic)
                        | (fs2, Ok _) =>
                            match StoreMapping storage (plumbing.String_ gitHash)
                                    (plumbing.String_ mgitHash) pubkey fs2 with
                            | (fs3, Err e) => (fs3, CommitErr (ErrCmMapping e))
                            | (fs3, Panic) => (fs3, CommitPanic)
                            | (fs3, Ok _) =>
                                (* Update the current branch reference in MGit *)
                                match Head repo with
                                | Some head =>
                                    if plumbing.IsBranch head then
                                      let refName :=
                                        Fmt.Sprintf "refs/heads/%s"
                                          [Fmt.ArgString (plumbing.Short head)] in
                                      (* a failure is a warning *)
                                      ((UpdateRef storage refName
                                          (plumbing.String_ mgitHash) fs3).1,
                                       CommitHash mgitHash)
                                    else (fs3, CommitHash mgitHash)
                                | None => (fs3, CommitHash mgitHash)
                                end
                            end
                        end
                    end
                end
            end
      end
  end.

(** ** Where the nodes of a file system come from

    [comes_from Wd Wf fs fs']: a directory of [fs'] is one of [fs] or has
    a path in [Wd], and a regular file of [fs'] is in [fs] with the same
    content or has a path in [Wf]. *)
Record comes_from (Wd Wf : FS.path -> Prop) (fs fs' : FS.t) : Prop := mkComesFrom {
  cf_dir : forall q,
    FS.node_at fs' q = Some FS.Dir -> Wd q \/ FS.node_at fs q = Some FS.Dir;
  cf_file : forall q d,
    FS.node_at fs' q = Some (FS.File d) -> Wf q \/ FS.node_at fs q = Some (FS.File d)
}.

(** What the two codecs write, they read back. *)
Definition codec_roundtrip `{JSON} : Prop :=
  (forall c data, MarshalCommit c = Some data -> UnmarshalCommit data = Some c)
  /\ (forall l data, MarshalMappings l = Some data -> UnmarshalMappings data = Some l).

(** The directories that [Initialize] makes: the four it names last and
    the directories above them. *)
Definition storageDir (s : MGitStorage) (q : FS.path) : Prop :=
  exists d,
    d ∈ ["objects" :: RootDir s; "heads" :: "refs" :: RootDir s;
         "tags" :: "refs" :: RootDir s; "mappings" :: RootDir s]
    /\ q `suffix_of` d.

(** [os.Stat] fails at a path with [ENOTDIR], or finds a regular file. *)
Definition blocked (fs : FS.t) (p : FS.path) : bool :=
  match FS.Stat fs p with
  | FS.StatOk (FS.File _) | FS.ENOTDIR => true
  | _ => false
  end.

(** ** The second mapping file: [GetCommitNostrPubkey], [getAllNostrMappings],
    [GetMGitHashForCommit]

    A warning is printed where the sources return the empty value after
    an error. *)
Definition GetCommitNostrPubkey `{JSON} (hash : plumbing.Hash) (fs : FS.t) : string :=
  let mappingFile := getNostrMappingFilePath in
  if FS.IsNotExist (FS.Stat fs mappingFile) then ""
  else
    match FS.ReadFile mappingFile fs with
    | None => ""
    | Some data =>
        match UnmarshalMappings data with
        | None => ""
        | Some mappings => default "" (lookupPubkey mappings (plumbing.String_ hash))
        end
    end.

Definition getAllNostrMappings `{JSON} (fs : FS.t) : list Mapping.NostrCommitMapping :=
  let mappingFile := FS.Clean ".mgit/mappings/hash_mappings.json" in
  if FS.IsNotExist (FS.Stat fs mappingFile) then []
  else
    match FS.ReadFile mappingFile fs with
    | None => []
    | Some data => default [] (UnmarshalMappings data)
    end.

Definition GetMGitHashForCommit `{JSON} (gitHash : plumbing.Hash) (fs : FS.t) : string :=
  default "" (lookupMGitHash (getAllNostrMappings fs) (plumbing.String_ gitHash)).

(** The storage after the last step of [MGitCommit], the update of the
    branch. *)
Definition afterUpdateRef `{JSON} (repo : Repository) (h : plumbing.Hash) (fs3 : FS.t)
    : FS.t :=
  match Head repo with
  | Some head =>
      if plumbing.IsBranch head then
        (UpdateRef NewMGitStorage
           (Fmt.Sprintf "refs/heads/%s" [Fmt.ArgString (plumbing.Short head)])
           (plumbing.String_ h) fs3).1
      else fs3
  | None => fs3
  end.

(** A repository whose [HEAD] is the branch [master] at the root commit,
    and a codec for the record and the table of its first commit. *)
Definition exMasterBranch : plumbing.Reference :=
  plumbing.mkReference true "master" (plumbing.NewHash exRootGitHash).

Definition exCommitCodec : JSON :=
  tableCodec
    [("root.json", MGitCommit_record exRootGit (plumbing.NewHash exRootGitHash) [] exKey)]
    [("one.json", [Mapping.mk exRootGitHash exRootHash exKey])].

(** ** The clone code: repository URLs *)

Module Strings.

(** [strings.HasSuffix] and [strings.TrimSuffix]. *)
Definition HasSuffix (s suffix : string) : bool :=
  (String.length suffix <=? String.length s)%nat
  && String.eqb (str_drop (String.length s - String.length suffix) s) suffix.

Definition TrimSuffix (s suffix : string) : string :=
  if HasSuffix s suffix then str_take (String.length s - String.length suffix) s else s.

(** [strings.Index]: the first position where [substr] begins. *)
Fixpoint Index (s substr : string) : option nat :=
  if HasPrefix s substr then Some 0
  else
    match s with
    | "" => None
    | String _ s' => S <$> Index s' substr
    end.

Definition Contains (s substr : string) : bool := bool_decide (is_Some (Index s substr)).

(** [strings.LastIndex(s, "/")]. *)
Fixpoint LastIndexSlash (s : string) : option nat :=
  match s with
  | "" => None
  | String c s' =>
      match LastIndexSlash s' with
      | Some i => Some (S i)
      | None => if Ascii.eqb c "/" then Some 0 else None
      end
  end.

(** [strings.Split(s, sep)] for a separator that is not empty: cut at
    the first [sep], go on behind it.  Every cut shortens the string, so
    its length bounds the number of cuts. *)
Fixpoint Split_loop (n : nat) (s sep : string) : list string :=
  match n with
  | O => [s]
  | S n' =>
      match Index s sep with
      | None => [s]
      | Some m => str_take m s :: Split_loop n' (str_drop (m + String.length sep) s) sep
      end
  end.

Definition Split (s sep : string) : list string := Split_loop (String.length s) s sep.

End Strings.

(** [parts[len(parts)-1]] of [strings.Split(url, "/")]; at this separator
    [Strings.Split] is [FS.split_slash]. *)
Definition lastPart (url : string) : string :=
  match last (FS.split_slash url) with
  | Some part => part
  | None => ""        (* not reached: Split returns one part or more *)
  end.

(** [extractRepoID]. *)
Definition extractRepoID (url : string) : string := lastPart url.

(** [extractServerBaseURL]. *)
Definition extractServerBaseURL (url : string) : string :=
  match Strings.LastIndexSlash url with
  | None => url
  | Some lastSlashIndex => str_take lastSlashIndex url
  end.

(** [extractRepoIDFromAnyURL]. *)
Definition extractRepoIDFromAnyURL (url : string) : string :=
  let direct := lastPart url in
  if Strings.Contains url "/api/mgit/repos/" then
    match Strings.Split url "/api/mgit/repos/" with
    | _ :: part :: _ => part
    | _ => direct
    end
  else direct.

(** [matchRepoURL]. *)
Definition matchRepoURL (storedURL providedURL : string) : bool :=
  let storedURL := Strings.TrimSuffix (Strings.TrimSuffix storedURL "/") ".git" in
  let providedURL := Strings.TrimSuffix (Strings.TrimSuffix providedURL "/") ".git" in
  if decide (storedURL = providedURL) then true
  else
    let storedRepoID := extractRepoIDFromAnyURL storedURL in
    let providedRepoID := extractRepoIDFromAnyURL providedURL in
    bool_decide (storedRepoID <> "" /\ providedRepoID <> ""
                 /\ storedRepoID = providedRepoID).

(** [AuthToken], and the loop of [getTokenForRepo] over the tokens of the
    parsed store; [None]: no token found, [os.Exit(1)]. *)
Record AuthToken : Type := mkAuthToken {
  Token : string;
  RepoURL : string;
  Access : string
}.

Fixpoint getTokenForRepo (tokens : list AuthToken) (repoURL : string) : option string :=
  match tokens with
  | [] => None
  | t :: tokens =>
      if matchRepoURL (RepoURL t) repoURL then Some (Token t)
      else getTokenForRepo tokens repoURL
  end.

(** A string without separator. *)
Definition noSlash (s : string) : Prop := FS.split_slash s = [s].

#[global] Instance noSlash_dec s : Decision (noSlash s).
Proof. unfold noSlash. apply _. Defined.

(** The directory [HandleClone] clones into when none is given. *)
Definition defaultDestination (url : string) : string :=
  Strings.TrimSuffix (lastPart url) ".git".

(** ** cmd_mgit.go: [HandleMGitLog] *)

(** How the command ends.  [LogPrinted printed]: the commits printed, in
    order, each with the hash it was loaded by. *)
Inductive logOutcome : Type :=
| LogRepoError                   (* getRepo: Error opening repository, os.Exit(1) *)
| LogHeadError (e : error)       (* Error getting HEAD commit, os.Exit(1) *)
| LogPanic                       (* nil pointer dereference *)
| LogPrinted (printed : list (string * MCommit.MCommitStruct)).

Section Log.
Context `{JSON}.

(** [printMGitCommitOneline] reads no pointer of the commit;
    [printMGitCommit] reads [commit.Author.Pubkey]. *)
Definition printsCommit (oneline : bool) (commit : MCommit.MCommitStruct) : bool :=
  oneline || bool_decide (is_Some (MCommit.Author commit)).

(** The loop [for len(queue) > 0 && count < maxCount].  [None]: more
    iterations than [fuel]. *)
Fixpoint logWalk (storage : MGitStorage) (fs : FS.t) (oneline : bool) (maxCount : Z)
    (fuel : nat) (queue : list string) (visited : gset string) (count : Z)
    (printed : list (string * MCommit.MCommitStruct))
    : option (outcome (list (string * MCommit.MCommitStruct))) :=
  match fuel with
  | O => None
  | S fuel' =>
      match queue with
      | [] => Some (Ok printed)
      | currentHash :: queue =>
          if decide (count < maxCount)%Z then
            if decide (currentHash ∈ visited) then
              logWalk storage fs oneline maxCount fuel' queue visited count printed
            else
              match GetCommit storage currentHash fs with
              | Err _ =>
                  (* Warning: Could not load commit; continue *)
                  logWalk storage fs oneline maxCount fuel' queue visited count printed
              | Panic => Some Panic
              | Ok commit =>
                  if printsCommit oneline commit then
                    let visited := {[ currentHash ]} ∪ visited in
                    let queue :=
                      (queue ++ filter (fun parent => parent ∉ visited)
                                       (MCommit.ParentHashes commit))%list in
                    logWalk storage fs oneline maxCount fuel' queue visited (count + 1)
                      (printed ++ [(currentHash, commit)])
                  else Some Panic
              end
          else Some (Ok printed)
      end
  end.

(** [HandleMGitLog] once the flags are read: [oneline], and [maxCount]
    with the value [-n] gave it or 10.  [--graph] and [--decorate] change
    the text of a line only, and the list that [--all] builds is not read
    again.  [opened] is what [git.PlainOpen(".")] returns. *)
Definition HandleMGitLog (fuel : nat) (oneline : bool) (maxCount : Z)
    (opened : option Repository) (fs : FS.t) : option logOutcome :=
  let storage := NewMGitStorage in
  match opened with
  | None => Some LogRepoError
  | Some _ =>
      match GetHeadCommit storage fs with
      | Err e => Some (LogHeadError e)
      | Panic => Some LogPanic
      | Ok headCommit =>
          if printsCommit oneline headCommit then
            match logWalk storage fs oneline maxCount fuel
                    (MCommit.ParentHashes headCommit)
                    {[ MCommit.MGitHash headCommit ]} 1
                    [(MCommit.MGitHash headCommit, headCommit)] with
            | None => None
            | Some (Ok printed) => Some (LogPrinted printed)
            | Some (Err _) | Some Panic => Some LogPanic
            end
          else Some LogPanic
      end
  end.

(** What holds of the state of the loop at each iteration, for the head
    record [head]. *)
Record logInv (storage : MGitStorage) (fs : FS.t) (maxCount : Z)
    (head : MCommit.MCommitStruct)
    (queue : list string) (visited : gset string) (count : Z)
    (printed : list (string * MCommit.MCommitStruct)) : Prop := mkLogInv {
  li_count : count = Z.of_nat (length printed);
  li_bound : (count <= Z.max 1 maxCount)%Z;
  li_head : exists rest, printed = (MCommit.MGitHash head, head) :: rest;
  li_keys : forall k, k ∈ visited <-> k ∈ printed.*1;
  li_nodup : NoDup printed.*1;
  li_loaded : forall k c,
    (k, c) ∈ printed ->
    (k, c) = (MCommit.MGitHash head, head)
    \/ GetCommit storage k fs = Ok c
       /\ exists p, p ∈ MCommit.ParentHashes head /\ reachable storage fs p k;
  li_queue : forall q,
    q ∈ queue -> exists p, p ∈ MCommit.ParentHashes head /\ reachable storage fs p q;
  li_closed : forall k c p,
    (k, c) ∈ printed -> p ∈ MCommit.ParentHashes c ->
    p ∈ visited \/ p ∈ queue \/ exists e, GetCommit storage p fs = Err e
}.

End Log.

#[global] Instance logOutcome_eq_dec : EqDecision logOutcome.
Proof. solve_decision. Defined.

(** ** Where the reconstruction writes *)

(** A path in the storage directory [.mgit] of the repository at
    [repoPath]. *)
Definition inStorage (repoPath q : FS.path) : Prop := (".mgit" :: repoPath) `suffix_of` q.

#[global] Instance inStorage_dec repoPath q : Decision (inStorage repoPath q).
Proof. unfold inStorage. apply _. Defined.

(** From [fs] to [fs'], nothing outside the storage directory changed
    but that [repoPath] or a directory above it was made. *)
Definition changesWithin (repoPath : FS.path) (fs fs' : FS.t) : Prop :=
  evolves (fun q _ => ~ inStorage repoPath q) fs fs'
  /\ comes_from (fun q => inStorage repoPath q \/ q `suffix_of` repoPath)
                (inStorage repoPath) fs fs'.

(** A table whose only record has an overlay hash that climbs out of the
    object store. *)
Definition exClimbingTable : list Mapping.NostrCommitMapping :=
  [Mapping.mk exRootGitHash "../../outside" exKey].

Definition exClimbingCodec : JSON :=
  tableCodec [("climb.json", reconstructedCommit exClimbingTable
                               (Mapping.mk exRootGitHash "../../outside" exKey) exRootGit)]
             [("table.json", exClimbingTable)].

(** ** Names the operating system takes

    [os.Stat], [os.MkdirAll], [os.ReadDir] and the calls that read or
    write a file refuse a path that holds a NUL byte ([EINVAL]), and a
    path with a component of more than 255 bytes or of more than 4095
    bytes in all ([ENAMETOOLONG]).  The file system of [FS] has no such
    answers, so a statement about what a call returns at a name that the
    caller chooses is made for the paths within the limits. *)
Definition no_nul (c : string) : Prop := "000"%char ∉ list_ascii_of_string c.

Definition os_name (c : string) : Prop := no_nul c /\ String.length c <= 255.

(** The bytes of the path as a C string: every component with the
    separator before the next one, or with the terminator. *)
Definition path_bytes (p : FS.path) : nat :=
  foldr (fun c n => String.length c + 1 + n) 0 p.

Definition os_path (p : FS.path) : Prop := Forall os_name p /\ path_bytes p <= 4096.

#[global] Instance no_nul_dec c : Decision (no_nul c).
Proof. unfold no_nul. apply _. Defined.
#[global] Instance os_name_dec c : Decision (os_name c).
Proof. unfold os_name. apply _. Defined.
#[global] Instance os_path_dec p : Decision (os_path p).
Proof. unfold os_path. apply _. Defined.

(** ** SHA-1 without a collision on two inputs *)
Definition sha1_distinguishes (a b : hasher.t) : Prop :=
  hasher.Sum a = hasher.Sum b -> a = b.

(** ** Examples for the verifier and the log *)

(** A Git repository that holds none of the commits. *)
Definition exBareRepo : Repository :=
  mkRepository (fun _ => None) (Some [exBranch]) (Some exBranch).

(** The record of the child commit with another overlay hash written
    into it, its codec, and the storage directory where the file under
    the child's hash holds this record. *)
Definition exTamperedHash : string := "ffffffffffffffffffffffffffffffffffffffff".

Definition exTamperedRecord : MCommit.MCommitStruct :=
  MCommit.mk (MCommit.Type_ exChildRecord) exTamperedHash
    (MCommit.GitHash exChildRecord) (MCommit.TreeHash exChildRecord)
    (MCommit.ParentHashes exChildRecord) (MCommit.Author exChildRecord)
    (MCommit.Committer exChildRecord) (MCommit.Message exChildRecord)
    (MCommit.Metadata exChildRecord).

Definition exTamperedCodec : JSON :=
  tableCodec [("tampered.json", exTamperedRecord)] [].

Definition exTamperedStore : FS.t :=
  <[ objectPath NewMGitStorage exChildHash := FS.File "tampered.json" ]> exDanglingStore.

(** The record of the child commit with its parent named twice, by the
    full hash and by an abbreviation of it, its codec, and the storage
    directory that holds it with the record of the root commit. *)
Definition exTwiceRecord : MCommit.MCommitStruct :=
  MCommit.mk (MCommit.Type_ exChildRecord) (MCommit.MGitHash exChildRecord)
    (MCommit.GitHash exChildRecord) (MCommit.TreeHash exChildRecord)
    [exRootHash; str_take 7 exRootHash] (MCommit.Author exChildRecord)
    (MCommit.Committer exChildRecord) (MCommit.Message exChildRecord)
    (MCommit.Metadata exChildRecord).

Definition exTwiceCodec : JSON :=
  tableCodec [("root.json", exRootRecord); ("twice.json", exTwiceRecord)] [].

Definition exTwiceStore : FS.t :=
  <[ objectPath NewMGitStorage exChildHash := FS.File "twice.json" ]> exFullStore.

(** * Properties *)

(** ** Strings *)

Lemma append_cons (x : ascii) (a b : string) :
  String x a +:+ b = String x (a +:+ b).
Proof. reflexivity. Qed.

Lemma append_nil_l (a : string) : "" +:+ a = a.
Proof. reflexivity. Qed.

Lemma append_assoc (a b c : string) : (a +:+ b) +:+ c = a +:+ (b +:+ c).
Proof.
  induction a as [|x a IH]; [done|]. rewrite !append_cons. by rewrite IH.
Qed.

Lemma append_nil_r (a : string) : a +:+ "" = a.
Proof. induction a as [|x a IH]; [done|]. rewrite append_cons. by rewrite IH. Qed.

Lemma length_append (a b : string) :
  String.length (a +:+ b) = String.length a + String.length b.
Proof.
  induction a as [|x a IH]; [done|]. rewrite append_cons. simpl. by rewrite IH.
Qed.

Lemma length_str_take (n : nat) (s : string) :
  String.length (str_take n s) = n `min` String.length s.
Proof.
  revert s. induction n as [|n IH]; intros [|c s]; simpl; try done.
  by rewrite IH.
Qed.

Lemma length_str_drop (n : nat) (s : string) :
  String.length (str_drop n s) = String.length s - n.
Proof. revert s. induction n as [|n IH]; intros [|c s]; simpl; try done. Qed.

Lemma str_take_drop (n : nat) (s : string) : str_take n s +:+ str_drop n s = s.
Proof.
  revert s. induction n as [|n IH]; intros [|c s]; simpl; try done.
  rewrite append_cons. by rewrite IH.
Qed.

Lemma append_inj_len (a b t t' : string) :
  String.length a = String.length b -> a +:+ t = b +:+ t' -> a = b /\ t = t'.
Proof.
  revert b. induction a as [|x a IH]; intros [|y b] Hlen Heq; simpl in *; try done.
  rewrite !append_cons in Heq. injection Heq as -> Heq.
  destruct (IH b) as [-> ->]; auto.
Qed.

(** Blocks of one length can be read back from their concatenation. *)
Lemma concat_blocks_inj (n : nat) (l l' : list string) :
  Forall (fun x => String.length x = n) l ->
  Forall (fun x => String.length x = n) l' ->
  length l = length l' ->
  forall t t', concat_str l +:+ t = concat_str l' +:+ t' -> l = l'.
Proof.
  intros Hl. revert l'.
  induction Hl as [|x l Hx Hl IH]; intros [|y l'] Hl' Hlen t t' Heq;
    simpl in *; try done.
  inversion Hl' as [|? ? Hy Hl'']; subst.
  rewrite !append_assoc in Heq.
  apply append_inj_len in Heq as [-> Heq]; [|congruence].
  f_equal. eapply IH; eauto.
Qed.

(** ** The external functions on known values *)

Example sha1_empty :
  Hex.EncodeToString (SHA1.Sum "") = "da39a3ee5e6b4b0d3255bfef95601890afd80709".
Proof. vm_compute. reflexivity. Qed.

Example sha1_abc :
  Hex.EncodeToString (SHA1.Sum "abc") = "a9993e364706816aba3e25717850c26c9cd0d89d".
Proof. vm_compute. reflexivity. Qed.

Example sha1_two_blocks :
  Hex.EncodeToString
    (SHA1.Sum "abcdbcdecdefdefgefghfghighijhijkijkljklmklmnlmnomnopnopq")
  = "84983e441c3bd26ebaae4aa1f95129e5e54670f1".
Proof. vm_compute. reflexivity. Qed.

Example hex_decode_stops_at_bad_byte :
  Hex.DecodeString "4142zz43" = "AB" /\ Hex.DecodeString "414" = "A".
Proof. split; reflexivity. Qed.

Example fmt_d_examples :
  fmt_d 0 = "0" /\ fmt_d 1700000000 = "1700000000" /\ fmt_d (-5) = "-5".
Proof. repeat split; reflexivity. Qed.

Example sprintf_extra_operand :
  Fmt.Sprintf "%s <%s> %d"
    [Fmt.ArgString "ann"; Fmt.ArgString "a@x"; Fmt.ArgInt64 7; Fmt.ArgString "npub1"]
  = "ann <a@x> 7%!(EXTRA string=npub1)".
Proof. reflexivity. Qed.

Example join_cleans :
  FS.Join [".mgit"] ["objects"; "ab"; "cdef"] = ["cdef"; "ab"; "objects"; ".mgit"]
  /\ FS.Join [".mgit"] ["refs/heads"] = ["heads"; "refs"; ".mgit"]
  /\ FS.Join [".mgit"] ["objects"; ".."; "HEAD"] = ["HEAD"; ".mgit"]
  /\ FS.Join [".mgit"] ["objects"; "ab"; ""] = ["ab"; "objects"; ".mgit"]
  /\ FS.Clean "/tmp/x/../repo" = ["repo"; "tmp"; "/"]
  /\ FS.Clean "../a/./b/" = ["b"; "a"; ".."].
Proof. repeat split; reflexivity. Qed.

Example mkdirall_then_readdir :
  let fs0 : FS.t := ∅ in
  let '(fs1, ok1) := FS.MkdirAll ["ab"; "objects"; ".mgit"] fs0 in
  let '(fs2, ok2) := FS.WriteFile ["zz"; "ab"; "objects"; ".mgit"] "2" fs1 in
  let '(fs3, ok3) := FS.WriteFile ["cd"; "ab"; "objects"; ".mgit"] "1" fs2 in
  ok1 = true /\ ok2 = true /\ ok3 = true
  /\ FS.ReadDir ["ab"; "objects"; ".mgit"] fs3 = Some ["cd"; "zz"]
  /\ FS.ReadDir [".mgit"] fs3 = Some ["objects"]
  /\ FS.Stat fs3 ["x"; "cd"; "ab"; "objects"; ".mgit"] = FS.ENOTDIR
  /\ FS.Stat fs3 ["x"; "ab"; "objects"; ".mgit"] = FS.ENOENT
  /\ snd (FS.MkdirAll ["x"; "cd"; "ab"; "objects"; ".mgit"] fs3) = false.
Proof. vm_compute. repeat split; reflexivity. Qed.

(** ** The hash engine *)

Lemma fold_left_Write (f : string -> string) (l : list string) (h : hasher.t) :
  fold_left (fun h x => hasher.Write h (f x)) l h = h +:+ concat_str (f <$> l).
Proof.
  revert h. induction l as [|x l IH]; intros h; simpl.
  - by rewrite append_nil_r.
  - rewrite IH. unfold hasher.Write. by rewrite append_assoc.
Qed.

Lemma Sprintf_author (name email : string) (unix : Z) (pubkey : string) :
  Fmt.Sprintf "%s <%s> %d %s"
    [Fmt.ArgString name; Fmt.ArgString email; Fmt.ArgInt64 unix; Fmt.ArgString pubkey]
  = name +:+ " <" +:+ email +:+ "> " +:+ fmt_d unix +:+ " " +:+ pubkey.
Proof. cbn. by rewrite append_nil_r. Qed.

Lemma Sprintf_committer (name email : string) (unix : Z) (pubkey : string) :
  Fmt.Sprintf "%s <%s> %d"
    [Fmt.ArgString name; Fmt.ArgString email; Fmt.ArgInt64 unix; Fmt.ArgString pubkey]
  = name +:+ " <" +:+ email +:+ "> " +:+ fmt_d unix
      +:+ "%!(EXTRA string=" +:+ pubkey +:+ ")".
Proof. reflexivity. Qed.

(** The bytes that reach SHA-1, in the order they are written. *)
Lemma computeMGitHash_writes_eq
    (commit : object.Commit) (parents : list string) (pubkey : string) :
  let author := object.Author commit in
  let committer := object.Committer commit in
  let committerStr :=
    object.Name committer +:+ " <" +:+ object.Email committer +:+ "> "
      +:+ fmt_d (time.Unix (object.When committer))
      +:+ "%!(EXTRA string=" +:+ pubkey +:+ ")" in
  computeMGitHash_writes commit parents pubkey
  = object.TreeHash commit
    +:+ concat_str (plumbing.NewHash <$> parents)
    +:+ (object.Name author +:+ " <" +:+ object.Email author +:+ "> "
         +:+ fmt_d (time.Unix (object.When author)) +:+ " " +:+ pubkey)
    +:+ committerStr +:+ committerStr.
Proof.
  unfold computeMGitHash_writes.
  rewrite fold_left_Write. unfold hasher.Write, hasher.New.
  rewrite Sprintf_author, Sprintf_committer.
  by rewrite append_nil_l, !append_assoc.
Qed.

(** C1. The digest is SHA-1 over the tree hash bytes, each parent overlay
    hash in order (as the 20 bytes [NewHash] decodes), the author string
    with name, email, Unix time and identity key, and the committer
    string twice; the result does not depend on the commit message. *)
Theorem computeMGitHash_digest_input
    (commit : object.Commit) (parents : list string) (pubkey : string) :
  let author := object.Author commit in
  let committer := object.Committer commit in
  let authorStr :=
    object.Name author +:+ " <" +:+ object.Email author +:+ "> "
      +:+ fmt_d (time.Unix (object.When author)) +:+ " " +:+ pubkey in
  let committerStr :=
    object.Name committer +:+ " <" +:+ object.Email committer +:+ "> "
      +:+ fmt_d (time.Unix (object.When committer))
      +:+ "%!(EXTRA string=" +:+ pubkey +:+ ")" in
  computeMGitHash commit parents pubkey
  = str_take 20
      (SHA1.Sum (object.TreeHash commit
                 +:+ concat_str (plumbing.NewHash <$> parents)
                 +:+ authorStr +:+ committerStr +:+ committerStr))
  /\ forall msg,
       computeMGitHash (setMessage msg commit) parents pubkey
       = computeMGitHash commit parents pubkey.
Proof.
  split; [|reflexivity].
  unfold computeMGitHash, hasher.Sum.
  by rewrite computeMGitHash_writes_eq.
Qed.

Lemma length_NewHash (s : string) : String.length (plumbing.NewHash s) = 20.
Proof.
  unfold plumbing.NewHash. rewrite length_str_take, length_append.
  change (String.length plumbing.ZeroHash) with 20. lia.
Qed.

(** C9, as stated, fails: two different parent entries that decode to the
    same 20 bytes can be exchanged without changing the hash. *)
Lemma parent_swap_same_hash :
  let c := exGitCommit "" [] "msg" in
  let parents := [exParentUpper; exParentLower] in
  swapEntries 0 1 parents <> parents
  /\ computeMGitHash c (swapEntries 0 1 parents) exKey
     = computeMGitHash c parents exKey.
Proof. vm_compute. split; [discriminate | reflexivity]. Qed.

(** Exchanging two parent entries whose 20-byte decodings differ changes
    the byte string that SHA-1 digests; exchanging two entries with one
    decoding leaves the hash as it was. *)
Lemma computeMGitHash_writes_parent_order
    (c : object.Commit) (parents : list string) (pubkey : string)
    (i j : nat) (pi pj : string) :
  parents !! i = Some pi ->
  parents !! j = Some pj ->
  (plumbing.NewHash pi <> plumbing.NewHash pj ->
     computeMGitHash_writes c (swapEntries i j parents) pubkey
     <> computeMGitHash_writes c parents pubkey)
  /\ (plumbing.NewHash pi = plumbing.NewHash pj ->
     computeMGitHash c (swapEntries i j parents) pubkey
     = computeMGitHash c parents pubkey).
Proof.
  intros Hi Hj. unfold swapEntries. rewrite Hi, Hj.
  assert (Hmap : plumbing.NewHash <$> <[i:=pj]> (<[j:=pi]> parents)
                 = <[i:=plumbing.NewHash pj]>
                     (<[j:=plumbing.NewHash pi]> (plumbing.NewHash <$> parents))).
  { by rewrite !list_fmap_insert. }
  split.
  - intros Hne Heq. pose proof (computeMGitHash_writes_eq c) as Hw.
    cbv zeta in Hw. rewrite !Hw in Heq. clear Hw.
    apply append_inj_len in Heq as [_ Heq]; [|reflexivity].
    apply concat_blocks_inj with (n := 20) in Heq.
    + rewrite Hmap in Heq.
      assert (Hl : (plumbing.NewHash <$> parents) !! i = Some (plumbing.NewHash pi)).
      { by rewrite list_lookup_fmap, Hi. }
      rewrite <- Heq in Hl.
      rewrite list_lookup_insert_eq in Hl.
      * injection Hl as Hl. congruence.
      * rewrite length_insert, length_fmap. by eapply lookup_lt_Some.
    + apply Forall_fmap, Forall_forall. intros x _. apply length_NewHash.
    + apply Forall_fmap, Forall_forall. intros x _. apply length_NewHash.
    + by rewrite !length_fmap, !length_insert.
  - intros Heq. unfold computeMGitHash. do 2 f_equal.
    pose proof (computeMGitHash_writes_eq c) as Hw. cbv zeta in Hw.
    rewrite !Hw. clear Hw. do 2 f_equal. rewrite Hmap, Heq.
    rewrite (list_insert_id _ j).
    + f_equal. apply list_insert_id. rewrite list_lookup_fmap, Hi. simpl. congruence.
    + by rewrite list_lookup_fmap, Hj.
Qed.

(** On such parents the hash itself changes. *)
Example parent_swap_changes_hash :
  computeMGitHash (exGitCommit "" [] "msg") [exParentOther; exParentLower] exKey
  <> computeMGitHash (exGitCommit "" [] "msg") [exParentLower; exParentOther] exKey.
Proof. vm_compute. discriminate. Qed.

(** ** Parents of a reconstructed commit *)

(** The rebuilt list holds one entry for each parent that has a mapping,
    and none for the others. *)
Lemma reconstructParents_length
    (mappings : list Mapping.NostrCommitMapping) (parents : list plumbing.Hash) :
  length (reconstructParents mappings parents)
  + length (filter (fun p => lookupMGitHash mappings (plumbing.String_ p) = None) parents)
  = length parents.
Proof.
  induction parents as [|p parents IH]; [done|]. simpl.
  rewrite filter_cons.
  destruct (lookupMGitHash mappings (plumbing.String_ p)) eqn:E.
  - rewrite decide_False by done. simpl. lia.
  - rewrite decide_True by done. simpl. lia.
Qed.

(** When no mapping file is read, [MGitCommit] keeps every parent, under
    its Git hash. *)
Lemma MGitCommit_parents_unmapped `{JSON} (s : MGitStorage)
    (parents : list plumbing.Hash) (fs : FS.t) :
  GetMappings s fs = Ok [] ->
  MGitCommit_parents s parents fs = Ok (plumbing.String_ <$> parents).
Proof.
  intros Hm. induction parents as [|p parents IH]; [done|].
  simpl. unfold GetMGitHashFromGit. rewrite Hm. simpl. by rewrite IH.
Qed.

(** C3: the code at a commit whose only parent has no mapping.
    [reconstructMGitObjects] rebuilds an empty parent list, where the
    commit path of [MGitCommit] keeps the parent under its Git hash. *)
Theorem reconstruct_drops_unmapped_parent :
  let child := Mapping.mk exParentOther "1111111111111111111111111111111111111111" exKey in
  let gitCommit := exGitCommit exParentOther [exParentLower] "child" in
  MCommit.ParentHashes (reconstructedCommit [child] child gitCommit) = []
  /\ length (object.ParentHashes gitCommit) = 1
  /\ forall (J : JSON),
       MGitCommit_parents NewMGitStorage (object.ParentHashes gitCommit) ∅
       = Ok [exParentLower].
Proof.
  split; [|split].
  - vm_compute. reflexivity.
  - reflexivity.
  - intros J. rewrite MGitCommit_parents_unmapped; [|reflexivity].
    vm_compute. reflexivity.
Qed.

(** ** The mapping table *)

Lemma addOrUpdate_shape
    (mappings : list Mapping.NostrCommitMapping) (new : Mapping.NostrCommitMapping) :
  let shares := sharesHash (Mapping.GitHash new) (Mapping.MGitHash new) in
  (exists l1 m l2,
      mappings = (l1 ++ m :: l2)%list /\ Forall (fun x => ~ shares x) l1 /\ shares m
      /\ addOrUpdate mappings new = (l1 ++ new :: l2)%list)
  \/ (Forall (fun x => ~ shares x) mappings
      /\ addOrUpdate mappings new = (mappings ++ [new])%list).
Proof.
  intros shares. unfold addOrUpdate. fold shares.
  destruct (list_find shares mappings) as [[i m]|] eqn:E.
  - left. apply list_find_Some in E as (Hi & Hm & Hbefore).
    exists (take i mappings), m, (drop (S i) mappings).
    split; [|split; [|split]].
    + by rewrite take_drop_middle.
    + apply Forall_forall. intros x Hx.
      apply list_elem_of_lookup in Hx as [k Hk].
      apply lookup_take_Some in Hk as [Hk Hlt]. eauto.
    + done.
    + rewrite <- (take_drop_middle mappings i m) at 1 by done.
      rewrite insert_app_r_alt by (rewrite length_take; lia).
      rewrite length_take.
      replace (i - i `min` length mappings) with 0.
      * done.
      * apply lookup_lt_Some in Hi. lia.
  - right. split; [|done].
    apply list_find_None in E. done.
Qed.

Lemma lookupMGitHash_skip (l1 l2 : list Mapping.NostrCommitMapping) (g : string) :
  Forall (fun x => Mapping.GitHash x <> g) l1 ->
  lookupMGitHash (l1 ++ l2) g = lookupMGitHash l2 g.
Proof.
  induction 1 as [|x l1 Hx _ IH]; [done|]. simpl. by rewrite decide_False.
Qed.

Lemma lookupGitHash_skip (l1 l2 : list Mapping.NostrCommitMapping) (h : string) :
  Forall (fun x => Mapping.MGitHash x <> h) l1 ->
  lookupGitHash (l1 ++ l2) h = lookupGitHash l2 h.
Proof.
  induction 1 as [|x l1 Hx _ IH]; [done|]. simpl. by rewrite decide_False.
Qed.

Lemma lookupPubkey_skip (l1 l2 : list Mapping.NostrCommitMapping) (h : string) :
  Forall (fun x => ~ (Mapping.GitHash x = h \/ Mapping.MGitHash x = h)) l1 ->
  lookupPubkey (l1 ++ l2) h = lookupPubkey l2 h.
Proof.
  induction 1 as [|x l1 Hx _ IH]; [done|]. simpl. by rewrite decide_False.
Qed.

Lemma filter_none {A} (P : A -> Prop) `{forall x, Decision (P x)} (l : list A) :
  Forall (fun x => ~ P x) l -> filter P l = [].
Proof.
  induction 1 as [|x l Hx _ IH]; [done|].
  rewrite filter_cons, decide_False by done. done.
Qed.

(** C7, as stated, fails: the record that shares the source hash is
    overwritten, and a later record with the same overlay hash stays. *)
Lemma addOrUpdate_leaves_duplicate :
  let table := [Mapping.mk "g1" "h1" "k1"; Mapping.mk "g2" "h2" "k2"] in
  let table' := addOrUpdate table (Mapping.mk "g1" "h2" "k3") in
  table' = [Mapping.mk "g1" "h2" "k3"; Mapping.mk "g2" "h2" "k2"]
  /\ length (filter (fun m => Mapping.MGitHash m = "h2") table') = 2.
Proof. split; reflexivity. Qed.

(** C7, amended.  An append overwrites in place the first record, in table
    order, that shares either hash with the new one, and appends when no
    record does.  Afterwards the first record found for the new source
    hash, and for the new overlay hash, is the new one, so the lookups in
    both directions return it; the number of records sharing a hash with
    it is the number before, or one if there was none.  Other records
    with one of its hashes stay in the table behind it. *)
Theorem addOrUpdate_first_match
    (mappings : list Mapping.NostrCommitMapping) (new : Mapping.NostrCommitMapping) :
  let g := Mapping.GitHash new in
  let h := Mapping.MGitHash new in
  let shares := sharesHash g h in
  let mappings' := addOrUpdate mappings new in
  ((exists l1 m l2,
       mappings = (l1 ++ m :: l2)%list /\ Forall (fun x => ~ shares x) l1 /\ shares m
       /\ mappings' = (l1 ++ new :: l2)%list)
   \/ (Forall (fun x => ~ shares x) mappings /\ mappings' = (mappings ++ [new])%list))
  /\ length (filter shares mappings') = 1 `max` length (filter shares mappings)
  /\ lookupMGitHash mappings' g = Some h
  /\ lookupGitHash mappings' h = Some g.
Proof.
  intros g h shares mappings'.
  pose proof (addOrUpdate_shape mappings new) as Hshape. cbv zeta in Hshape.
  fold g h shares mappings' in Hshape.
  split; [exact Hshape|].
  assert (Hnew : shares new) by (by left).
  assert (Hg : forall l, Forall (fun x => ~ shares x) l ->
                         Forall (fun x => Mapping.GitHash x <> g) l).
  { intros l Hl. eapply Forall_impl; [exact Hl|]. intros x Hx Hx'. apply Hx. by left. }
  assert (Hh : forall l, Forall (fun x => ~ shares x) l ->
                         Forall (fun x => Mapping.MGitHash x <> h) l).
  { intros l Hl. eapply Forall_impl; [exact Hl|]. intros x Hx Hx'. apply Hx. by right. }
  destruct Hshape as [(l1 & m & l2 & -> & Hl1 & Hm & ->)|[Hall ->]].
  - split; [|split].
    + rewrite !filter_app, !filter_cons, !(filter_none _ l1) by done.
      rewrite !decide_True by done. simpl. lia.
    + rewrite lookupMGitHash_skip by auto. simpl. by rewrite decide_True.
    + rewrite lookupGitHash_skip by auto. simpl. by rewrite decide_True.
  - split; [|split].
    + rewrite !filter_app, !(filter_none _ mappings) by done.
      rewrite filter_cons, decide_True by done. done.
    + rewrite lookupMGitHash_skip by auto. simpl. by rewrite decide_True.
    + rewrite lookupGitHash_skip by auto. simpl. by rewrite decide_True.
Qed.

(** ** [StoreCommit] on a one-character hash *)

(** C10.  A record whose overlay hash has one character is not refused as
    empty; taking the two-character directory name panics, and nothing is
    written. *)
Theorem StoreCommit_short_hash_panics `{JSON} (s : MGitStorage)
    (commit : MCommit.MCommitStruct) (fs : FS.t) :
  String.length (MCommit.MGitHash commit) = 1 ->
  MCommit.MGitHash commit <> ""
  /\ StoreCommit s commit fs = (fs, Panic)
  /\ StoreCommit s commit fs <> (fs, Err ErrEmptyHash).
Proof.
  intros Hlen.
  assert (Hne : MCommit.MGitHash commit <> "").
  { intros E. rewrite E in Hlen. done. }
  assert (Hp : StoreCommit s commit fs = (fs, Panic)).
  { unfold StoreCommit. rewrite decide_False by done.
    unfold slice_to, slice_from. simpl. rewrite Hlen. done. }
  split; [done|]. split; [done|]. rewrite Hp. congruence.
Qed.

Lemma StoreCommit_short_hash_panics_witness :
  String.length (MCommit.MGitHash exShortRecord) = 1
  /\ StoreCommit (H := tableCodec [] []) NewMGitStorage exShortRecord ∅ = (∅, Panic).
Proof.
  split; [reflexivity|].
  apply (StoreCommit_short_hash_panics (H := tableCodec [] [])
           NewMGitStorage exShortRecord ∅).
  reflexivity.
Defined.

(** ** Paths *)

Lemma Join_app (p : FS.path) (l1 l2 : list string) :
  FS.Join p (l1 ++ l2) = FS.Join (FS.Join p l1) l2.
Proof. unfold FS.Join. by rewrite flat_map_app, fold_left_app. Qed.

Lemma Join_plain (p : FS.path) (c : string) : plain c -> FS.Join p [c] = c :: p.
Proof.
  intros (Hs & H1 & H2 & H3). unfold FS.Join. simpl. rewrite app_nil_r, Hs. simpl.
  unfold FS.push. rewrite decide_False by tauto. by rewrite decide_False.
Qed.

Lemma Join_cons_plain (p : FS.path) (c : string) (l : list string) :
  plain c -> FS.Join p (c :: l) = FS.Join (c :: p) l.
Proof. intros Hc. change (c :: l) with ([c] ++ l). by rewrite Join_app, Join_plain. Qed.

Lemma plain_not_slash (c : string) : plain c -> c <> "/".
Proof. intros (Hs & _) ->. done. Qed.

Lemma implicit_dir_plain (c : string) (p : FS.path) :
  plain c -> FS.implicit_dir (c :: p) = false.
Proof.
  intros Hc. simpl. apply andb_false_iff. left.
  apply bool_decide_eq_false. intros [->| ->].
  - by destruct Hc as (_ & _ & _ & ?).
  - by apply plain_not_slash in Hc.
Qed.

Lemma node_at_plain (fs : FS.t) (c : string) (p : FS.path) :
  plain c -> FS.node_at fs (c :: p) = fs !! (c :: p).
Proof. intros Hc. unfold FS.node_at. by rewrite implicit_dir_plain. Qed.

Lemma plain_objects : plain "objects".
Proof. by vm_compute. Qed.

Lemma Join_object (s : MGitStorage) (h : string) :
  good_hash h ->
  FS.Join (RootDir s) ["objects"; str_take 2 h; str_drop 2 h] = objectPath s h.
Proof.
  intros [Hd Hn].
  rewrite !Join_cons_plain by auto using plain_objects. done.
Qed.

Lemma Join_shard (s : MGitStorage) (d : string) :
  plain d -> FS.Join (RootDir s) ["objects"; d] = d :: objectsDir s.
Proof. intros Hd. rewrite !Join_cons_plain by auto using plain_objects. done. Qed.

(** ** Directory listings *)

Lemma NoDup_omap {A B} (f : A -> option B) (l : list A) :
  (forall x y z, f x = Some z -> f y = Some z -> x = y) ->
  NoDup l -> NoDup (omap f l).
Proof.
  intros Hinj. induction 1 as [|x l Hx Hl IH]; simpl; [constructor|].
  destruct (f x) as [z|] eqn:E; [|done].
  constructor; [|done].
  intros Hz. apply list_elem_of_omap in Hz as (y & Hy & Hfy).
  assert (x = y) by eauto. by subst.
Qed.

Lemma elem_of_ReadDir (dir : FS.path) (fs : FS.t) (files : list string) (n : string) :
  FS.ReadDir dir fs = Some files ->
  n ∈ files <-> is_Some (fs !! (n :: dir)) /\ n <> "/" /\ n <> "..".
Proof.
  unfold FS.ReadDir. destruct (FS.node_at fs dir) as [[|]|]; try done.
  intros [= <-]. rewrite merge_sort_Permutation.
  rewrite list_elem_of_omap. split.
  - intros (k & Hk & Hc). apply list_elem_of_fmap in Hk as ([k' node] & -> & Hk).
    apply elem_of_map_to_list in Hk. simpl in Hc.
    destruct k' as [|n' q]; [done|]. simpl in Hc.
    case_decide as Hd; [|done]. destruct Hd as (-> & ? & ?).
    injection Hc as ->. eauto.
  - intros ([node Hn] & H1 & H2). exists (n :: dir). split.
    + apply list_elem_of_fmap. exists (n :: dir, node). split; [done|].
      by apply elem_of_map_to_list.
    + simpl. by rewrite decide_True.
Qed.

Lemma NoDup_ReadDir (dir : FS.path) (fs : FS.t) (files : list string) :
  FS.ReadDir dir fs = Some files -> NoDup files.
Proof.
  unfold FS.ReadDir. destruct (FS.node_at fs dir) as [[|]|]; try done.
  intros [= <-]. rewrite merge_sort_Permutation.
  apply NoDup_omap; [|apply NoDup_fst_map_to_list].
  intros [|x p] [|y q] z Hx Hy; simpl in *; try done.
  destruct (decide _) as [(-> & _ & _)|]; [|done].
  destruct (decide _) as [(-> & _ & _)|]; [|done]. congruence.
Qed.

(** ** Prefixes *)

Lemma HasPrefix_iff (s p : string) : HasPrefix s p = true <-> exists r, s = p +:+ r.
Proof.
  unfold HasPrefix. revert s. induction p as [|a p IH]; intros s.
  - destruct s; simpl; (split; [intros _; eexists; reflexivity|done]).
  - destruct s as [|b s]; simpl.
    + split; [done|]. intros [r Hr]. rewrite append_cons in Hr. done.
    + destruct (ascii_dec a b) as [->|Hne].
      * rewrite IH. split; intros [r Hr]; exists r.
        -- by rewrite append_cons, Hr.
        -- rewrite append_cons in Hr. by injection Hr.
      * split; [done|]. intros [r Hr]. rewrite append_cons in Hr.
        injection Hr as -> _. done.
Qed.

Lemma str_take_app (a b : string) : str_take (String.length a) (a +:+ b) = a.
Proof. induction a as [|x a IH]; simpl; [by destruct b|]. by rewrite IH. Qed.

Lemma str_drop_app (a b : string) : str_drop (String.length a) (a +:+ b) = b.
Proof. induction a as [|x a IH]; simpl; [by destruct b|]. done. Qed.

Lemma plain_nonempty (c : string) : plain c -> 0 < String.length c.
Proof. intros (_ & Hne & _). destruct c; [done|simpl; lia]. Qed.

Lemma good_hash_length (h : string) : good_hash h -> 2 < String.length h.
Proof.
  intros [_ Hn]. apply plain_nonempty in Hn. rewrite length_str_drop in Hn. lia.
Qed.

Lemma length_take2 (h : string) :
  2 <= String.length h -> String.length (str_take 2 h) = 2.
Proof. intros. rewrite length_str_take. lia. Qed.

(** With directory names of two characters, a hash extends a prefix when
    the directory names agree and the entry name extends the rest. *)
Lemma HasPrefix_split (h p : string) :
  2 <= String.length h -> 2 <= String.length p ->
  HasPrefix h p = true
  <-> str_take 2 h = str_take 2 p /\ HasPrefix (str_drop 2 h) (str_drop 2 p) = true.
Proof.
  intros Hh Hp. rewrite !HasPrefix_iff. split.
  - intros [r Hr].
    rewrite <- (str_take_drop 2 h), <- (str_take_drop 2 p), append_assoc in Hr.
    apply append_inj_len in Hr as [? ?]; [eauto|].
    by rewrite !length_take2.
  - intros [Ht [r Hr]]. exists r.
    by rewrite <- (str_take_drop 2 h), <- (str_take_drop 2 p), append_assoc, Ht, Hr.
Qed.

Lemma slice_to_Some (n : nat) (s : string) :
  n <= String.length s -> slice_to n s = Some (str_take n s).
Proof. intros. unfold slice_to. by rewrite (proj2 (Nat.leb_le _ _)). Qed.

Lemma slice_from_Some (n : nat) (s : string) :
  n <= String.length s -> slice_from n s = Some (str_drop n s).
Proof. intros. unfold slice_from. by rewrite (proj2 (Nat.leb_le _ _)). Qed.

(** ** The object store *)

Lemma Stat_eq (fs : FS.t) (p : FS.path) :
  FS.Stat fs p =
  match FS.node_at fs p with
  | Some n => FS.StatOk n
  | None =>
      match p with
      | [] => FS.StatOk FS.Dir
      | _ :: q =>
          match FS.Stat fs q with
          | FS.StatOk FS.Dir => FS.ENOENT
          | FS.StatOk (FS.File _) => FS.ENOTDIR
          | e => e
          end
      end
  end.
Proof. by destruct p. Qed.

Lemma MkdirAll_eq (p : FS.path) (fs : FS.t) :
  FS.MkdirAll p fs =
  match FS.node_at fs p with
  | Some FS.Dir => (fs, true)
  | Some (FS.File _) => (fs, false)
  | None =>
      match p with
      | [] => (fs, true)
      | _ :: q =>
          let '(fs', ok) := FS.MkdirAll q fs in
          if ok then (<[p := FS.Dir]> fs', true) else (fs', false)
      end
  end.
Proof. by destruct p. Qed.

Lemma Stat_node_at (fs : FS.t) (p : FS.path) (n : FS.node) :
  FS.node_at fs p = Some n -> FS.Stat fs p = FS.StatOk n.
Proof. intros Hn. by rewrite Stat_eq, Hn. Qed.

Lemma Stat_missing_child (fs : FS.t) (c : string) (p : FS.path) :
  FS.node_at fs (c :: p) = None -> FS.node_at fs p = Some FS.Dir ->
  FS.Stat fs (c :: p) = FS.ENOENT.
Proof. intros Hc Hp. rewrite Stat_eq, Hc. by rewrite (Stat_node_at _ _ _ Hp). Qed.

Section StoreProofs.
Context `{JSON}.
Variable s : MGitStorage.

Lemma node_at_objectsDir (fs : FS.t) : FS.node_at fs (objectsDir s) = fs !! objectsDir s.
Proof. apply node_at_plain, plain_objects. Qed.

Lemma read_object (fs : FS.t) (h data : string) (c : MCommit.MCommitStruct) :
  good_hash h ->
  fs !! objectPath s h = Some (FS.File data) ->
  UnmarshalCommit data = Some c ->
  match slice_to 2 h, slice_from 2 h with
  | Some prefix, Some suffix =>
      let objPath := FS.Join (RootDir s) ["objects"; prefix; suffix] in
      if FS.IsNotExist (FS.Stat fs objPath) then Err (ErrCommitNotFound h)
      else
        match FS.ReadFile objPath fs with
        | None => Err ErrReadObject
        | Some data =>
            match UnmarshalCommit data with
            | None => Err ErrUnmarshalCommit
            | Some commit => Ok commit
            end
        end
  | _, _ => Panic
  end = Ok c.
Proof.
  intros Hg Hf Hu. pose proof (good_hash_length h Hg) as Hlen.
  rewrite slice_to_Some, slice_from_Some by lia. cbv zeta.
  rewrite Join_object by done.
  assert (Hn : FS.node_at fs (objectPath s h) = Some (FS.File data)).
  { unfold objectPath. rewrite node_at_plain; [done|apply Hg]. }
  rewrite (Stat_node_at _ _ _ Hn). simpl.
  unfold FS.ReadFile. rewrite Hn. by rewrite Hu.
Qed.

Lemma findObjectByPrefix_rep (fs : FS.t) (m : gmap string MCommit.MCommitStruct)
    (p : string) :
  store_rep s fs m ->
  2 < String.length p -> plain (str_take 2 p) ->
  exists matches,
    findObjectByPrefix s p fs = Ok matches
    /\ NoDup matches
    /\ forall x, x ∈ matches <-> x ∈ extending m p.
Proof.
  intros Hrep Hlen Hd. unfold findObjectByPrefix.
  rewrite (proj2 (Nat.leb_gt _ _)) by lia.
  rewrite slice_to_Some, slice_from_Some by lia.
  set (d := str_take 2 p) in *. set (fp := str_drop 2 p).
  assert (Hd2 : String.length d = 2) by (apply length_take2; lia).
  rewrite Join_shard by done.
  assert (Hext : forall x, x ∈ extending m p <->
            exists c, m !! x = Some c /\ HasPrefix x p = true).
  { intros x. unfold extending. rewrite elem_of_filter, elem_of_dom.
    unfold is_Some. split.
    - intros [Hp [c Hc]]. eauto.
    - intros (c & Hc & Hp). eauto. }
  destruct (rep_shard s fs m Hrep d Hd Hd2) as [Hnone|Hdir].
  - rewrite Stat_missing_child; cycle 1.
    { by rewrite node_at_plain. }
    { rewrite node_at_objectsDir. apply Hrep. }
    simpl. exists []. split; [done|]. split; [constructor|].
    intros x. split; [by intros ?%elem_of_nil|].
    rewrite Hext. intros (c & Hc & Hp).
    destruct (rep_record s fs m Hrep x c Hc) as (Hg & Hsh & _).
    apply good_hash_length in Hg.
    apply HasPrefix_split in Hp as [Ht _]; [|lia..].
    fold d in Ht. rewrite Ht in Hsh. congruence.
  - assert (Hn : FS.node_at fs (d :: objectsDir s) = Some FS.Dir).
    { by rewrite node_at_plain. }
    rewrite (Stat_node_at _ _ _ Hn). simpl.
    destruct (FS.ReadDir (d :: objectsDir s) fs) as [files|] eqn:Hfiles; cycle 1.
    { unfold FS.ReadDir in Hfiles. by rewrite Hn in Hfiles. }
    eexists. split; [done|]. split.
    + apply NoDup_fmap_2; [apply String.app_inj|].
      apply NoDup_filter. by eapply NoDup_ReadDir.
    + intros x. rewrite Hext, list_elem_of_fmap. split.
      * intros (n & -> & Hn'). apply list_elem_of_filter in Hn' as [Hp Hn'].
        apply (elem_of_ReadDir _ _ _ n Hfiles) in Hn' as ([node Hnode] & _ & _).
        destruct (rep_entry s fs m Hrep d n node Hd Hd2 Hnode)
          as (c & data & Hg & Hm & _ & _).
        exists c. split; [done|].
        pose proof (good_hash_length _ Hg).
        apply HasPrefix_split; [lia..|].
        rewrite <- Hd2 at 1 3. rewrite str_take_app, str_drop_app. done.
      * intros (c & Hc & Hp).
        destruct (rep_record s fs m Hrep x c Hc) as (Hg & _ & data & Hf & _).
        pose proof (good_hash_length _ Hg).
        apply HasPrefix_split in Hp as [Ht Hp]; [|lia..]. fold d in Ht.
        exists (str_drop 2 x). split.
        { by rewrite <- Ht, str_take_drop. }
        apply list_elem_of_filter. split; [done|].
        apply (elem_of_ReadDir _ _ _ _ Hfiles).
        unfold objectPath in Hf. rewrite Ht in Hf.
        destruct Hg as [_ Hg].
        split; [eauto|]. split.
        -- by apply plain_not_slash.
        -- by destruct Hg as (_ & _ & _ & ?).
Qed.

End StoreProofs.

(** Two paths of different lengths. *)
Ltac diff_len :=
  let E := fresh in intros E; apply (f_equal length) in E; simpl in E; lia.

Section StoreTheorems.
Context `{JSON}.
Variable s : MGitStorage.

(** C6, amended.  In a store that holds the records of [m], a query of 4
    to 39 characters whose first two characters form a plain directory
    name (as every hexadecimal prefix does), where the directory of that
    name is a path that the operating system takes (no NUL byte, no name
    or path too long), fails with "no object found" when no stored hash
    extends it, returns the record of the one stored hash that does, and
    fails with "ambiguous" when two or more do; a query of fewer than 4
    characters is rejected in any store. *)
Theorem GetCommit_prefix (fs : FS.t) (m : gmap string MCommit.MCommitStruct)
    (p : string) :
  store_rep s fs m ->
  4 <= String.length p -> String.length p < 40 -> plain (str_take 2 p) ->
  os_path (str_take 2 p :: objectsDir s) ->
  (extending m p = ∅ -> GetCommit s p fs = Err (ErrNoObjectWithPrefix p))
  /\ (forall h, extending m p = {[ h ]} ->
        exists c, m !! h = Some c /\ GetCommit s p fs = Ok c)
  /\ (2 <= size (extending m p) -> GetCommit s p fs = Err (ErrAmbiguousPrefix p))
  /\ (forall q fs', String.length q < 4 -> GetCommit s q fs' = Err ErrHashTooShort).
Proof.
  intros Hrep H4 H40 Hd _.
  destruct (findObjectByPrefix_rep s fs m p Hrep ltac:(lia) Hd)
    as (matches & Hfind & Hnd & Hin).
  assert (Hperm : matches ≡ₚ elements (extending m p)).
  { apply NoDup_Permutation; [done|apply NoDup_elements|].
    intros x. by rewrite Hin, elem_of_elements. }
  assert (Hres : resolveHash s p fs =
                 match matches with
                 | [] => Err (ErrNoObjectWithPrefix p)
                 | [x] => Ok x
                 | _ => Err (ErrAmbiguousPrefix p)
                 end).
  { unfold resolveHash. rewrite (proj2 (Nat.ltb_ge _ _)) by lia.
    rewrite (proj2 (Nat.ltb_lt _ _)) by lia. by rewrite Hfind. }
  split; [|split; [|split]].
  - intros HE. rewrite HE, elements_empty in Hperm.
    apply Permutation_nil_r in Hperm. subst.
    unfold GetCommit. by rewrite Hres.
  - intros h HE. rewrite HE, elements_singleton in Hperm.
    apply Permutation_singleton_r in Hperm. subst.
    assert (Hh : h ∈ extending m p) by (rewrite HE; set_solver).
    unfold extending in Hh. apply elem_of_filter in Hh as [_ Hh].
    apply elem_of_dom in Hh as [c Hc]. exists c. split; [done|].
    destruct (rep_record s fs m Hrep h c Hc) as (Hg & _ & data & Hf & Hu).
    unfold GetCommit. rewrite Hres. by eapply read_object.
  - intros Hsize. unfold size, set_size in Hsize. simpl in Hsize.
    rewrite <- Hperm in Hsize.
    unfold GetCommit. rewrite Hres.
    destruct matches as [|? [|? ?]]; simpl in *; try lia. done.
  - intros q fs' Hq. unfold GetCommit, resolveHash.
    by rewrite (proj2 (Nat.ltb_lt _ _)) by lia.
Qed.

(** [put] in a store that holds the records of [m]. *)
Lemma StoreCommit_store_rep (fs : FS.t) (m : gmap string MCommit.MCommitStruct)
    (commit : MCommit.MCommitStruct) (data : string) :
  let stored := MCommit.setType MGitCommitObject commit in
  store_rep s fs m ->
  good_hash (MCommit.MGitHash commit) ->
  40 <= String.length (MCommit.MGitHash commit) ->
  MarshalCommit stored = Some data ->
  UnmarshalCommit data = Some stored ->
  exists fs',
    StoreCommit s commit fs = (fs', Ok tt)
    /\ GetCommit s (MCommit.MGitHash commit) fs' = Ok stored
    /\ store_rep s fs' (<[MCommit.MGitHash commit := stored]> m).
Proof.
  intros stored Hrep Hg H40 Hmar Hun.
  set (h := MCommit.MGitHash commit) in *.
  set (d := str_take 2 h). set (n := str_drop 2 h).
  destruct Hg as [Hd Hn]. fold d in Hd. fold n in Hn.
  assert (Hd2 : String.length d = 2) by (apply length_take2; lia).
  assert (Hhdn : h = d +:+ n) by (by unfold d, n; rewrite str_take_drop).
  (* the directory of the hash *)
  set (fs1 := <[d :: objectsDir s := FS.Dir]> fs).
  assert (Hmk : FS.MkdirAll (d :: objectsDir s) fs = (fs1, true)).
  { rewrite MkdirAll_eq, node_at_plain by done.
    destruct (rep_shard s fs m Hrep d Hd Hd2) as [E|E]; rewrite E.
    - rewrite MkdirAll_eq, node_at_objectsDir, (rep_objects s fs m Hrep). done.
    - unfold fs1. by rewrite insert_id. }
  set (fs2 := <[n :: d :: objectsDir s := FS.File data]> fs1).
  assert (Hwr : FS.WriteFile (n :: d :: objectsDir s) data fs1 = (fs2, true)).
  { unfold FS.WriteFile. rewrite node_at_plain by done.
    unfold fs1 at 1. rewrite lookup_insert_ne by diff_len.
    destruct (fs !! (n :: d :: objectsDir s)) as [node|] eqn:E.
    - destruct (rep_entry s fs m Hrep d n node Hd Hd2 E) as (? & ? & _ & _ & -> & _).
      done.
    - rewrite node_at_plain by done. unfold fs1 at 1. by rewrite lookup_insert_eq. }
  exists fs2. split; [|split].
  - unfold StoreCommit. rewrite decide_False; cycle 1.
    { intros E. fold h in E. rewrite E in H40. simpl in H40. lia. }
    change (MCommit.MGitHash (MCommit.setType MGitCommitObject commit)) with h.
    rewrite slice_to_Some, slice_from_Some by lia. fold d n. fold stored.
    rewrite Join_shard, Join_plain by done. rewrite Hmar.
    unfold bind, mkdirAll, writeFile. rewrite Hmk. by rewrite Hwr.
  - unfold GetCommit, resolveHash.
    rewrite (proj2 (Nat.ltb_ge _ _)) by lia.
    rewrite (proj2 (Nat.ltb_ge _ _)) by lia.
    eapply read_object; [done| |done].
    unfold objectPath. fold d n. unfold fs2. by rewrite lookup_insert_eq.
  - constructor.
    + unfold fs2, fs1.
      rewrite !lookup_insert_ne by diff_len.
      apply Hrep.
    + intros d' Hd' Hd2'. unfold fs2.
      rewrite lookup_insert_ne by diff_len.
      unfold fs1. destruct (decide (d' = d)) as [->|Hne].
      * right. by rewrite lookup_insert_eq.
      * rewrite lookup_insert_ne by congruence. by apply Hrep.
    + intros d' n' node Hd' Hd2' Hnode. unfold fs2 in Hnode.
      destruct (decide (n' :: d' :: objectsDir s = n :: d :: objectsDir s)) as [E|Hne].
      * injection E as -> ->. rewrite lookup_insert_eq in Hnode.
        injection Hnode as <-. exists stored, data. rewrite <- Hhdn.
        rewrite lookup_insert_eq. done.
      * rewrite lookup_insert_ne in Hnode by done. unfold fs1 in Hnode.
        rewrite lookup_insert_ne in Hnode by diff_len.
        destruct (rep_entry s fs m Hrep d' n' node Hd' Hd2' Hnode)
          as (c & data' & Hg' & Hm' & -> & Hu').
        exists c, data'. split; [done|]. split; [|done].
        rewrite lookup_insert_ne; [done|].
        intros E. apply Hne. rewrite Hhdn in E.
        apply append_inj_len in E as [-> ->]; [done|congruence].
    + intros h' c Hc. destruct (decide (h' = h)) as [->|Hne].
      * rewrite lookup_insert_eq in Hc. injection Hc as <-.
        split; [done|]. fold d. split.
        -- unfold fs2, fs1.
           rewrite lookup_insert_ne by diff_len.
           by rewrite lookup_insert_eq.
        -- exists data. unfold objectPath. fold d n. unfold fs2.
           by rewrite lookup_insert_eq.
      * rewrite lookup_insert_ne in Hc by done.
        destruct (rep_record s fs m Hrep h' c Hc) as (Hg' & Hsh & data' & Hf & Hu).
        split; [done|]. split.
        -- unfold fs2, fs1.
           rewrite lookup_insert_ne by diff_len.
           destruct (decide (str_take 2 h' = d)) as [->|Hne'].
           ++ by rewrite lookup_insert_eq.
           ++ rewrite lookup_insert_ne by congruence. done.
        -- exists data'. split; [|done]. unfold fs2, fs1.
           rewrite lookup_insert_ne.
           ++ by rewrite lookup_insert_ne by diff_len.
           ++ unfold objectPath. intros E. apply Hne.
              assert (E1 : str_drop 2 h' = n) by congruence.
              assert (E2 : str_take 2 h' = d) by congruence.
              rewrite <- (str_take_drop 2 h'), E1, E2. apply str_take_drop.
Qed.

(** C4, amended.  In a store that holds the records of [m], putting a
    record whose overlay hash has 40 or more characters and splits into
    a plain directory name and a plain entry name, whose object path the
    operating system takes (no NUL byte, no name or path too long), and
    which the codec writes and reads back, succeeds; a get with the full
    overlay hash then returns the record with its type set to [commit],
    as [put] sets it, and the store holds the records of [m] with this
    one. *)
Theorem StoreCommit_then_GetCommit (fs : FS.t) (m : gmap string MCommit.MCommitStruct)
    (commit : MCommit.MCommitStruct) (data : string) :
  let stored := MCommit.setType MGitCommitObject commit in
  store_rep s fs m ->
  good_hash (MCommit.MGitHash commit) ->
  40 <= String.length (MCommit.MGitHash commit) ->
  os_path (objectPath s (MCommit.MGitHash commit)) ->
  MarshalCommit stored = Some data ->
  UnmarshalCommit data = Some stored ->
  (MCommit.Type_ commit = MGitCommitObject -> stored = commit)
  /\ exists fs',
       StoreCommit s commit fs = (fs', Ok tt)
       /\ GetCommit s (MCommit.MGitHash commit) fs' = Ok stored
       /\ store_rep s fs' (<[MCommit.MGitHash commit := stored]> m).
Proof.
  intros stored Hrep Hg H40 _ Hmar Hun. split.
  - intros Ht. unfold stored. destruct commit; simpl in *. by subst.
  - by eapply StoreCommit_store_rep.
Qed.

End StoreTheorems.

(** ** The example store *)

(** Closed statements are decided by evaluation. *)
Ltac by_evaluation := apply (bool_decide_unpack _); vm_compute; exact I.

Lemma Initialize_empty : Initialize NewMGitStorage ∅ = (exEmptyStore, Ok tt).
Proof. by_evaluation. Qed.

Lemma store_rep_exEmptyStore `{JSON} : store_rep NewMGitStorage exEmptyStore ∅.
Proof.
  constructor.
  - done.
  - intros d Hd Hlen. left. unfold objectsDir. simpl. unfold exEmptyStore.
    assert (d <> "tags" /\ d <> "heads") as [? ?].
    { split; intros ->; done. }
    rewrite !lookup_insert_ne by (congruence || diff_len). done.
  - intros d n node Hd Hlen Hnode. exfalso. unfold objectsDir in Hnode. simpl in Hnode.
    unfold exEmptyStore in Hnode.
    rewrite !lookup_insert_ne in Hnode by diff_len. done.
  - intros h c Hc. done.
Qed.

Lemma StoreCommit_exRootRecord :
  StoreCommit (H := exCodec) NewMGitStorage exRootRecord exEmptyStore
  = (exRootStore, Ok tt).
Proof. by_evaluation. Qed.

Lemma store_rep_exRootStore :
  store_rep (H := exCodec) NewMGitStorage exRootStore {[ exRootHash := exRootRecord ]}.
Proof.
  destruct (StoreCommit_store_rep (H := exCodec) NewMGitStorage exEmptyStore ∅
              exRootRecord "root.json") as (fs' & Hst & _ & Hrep).
  - apply store_rep_exEmptyStore.
  - by_evaluation.
  - vm_compute. lia.
  - reflexivity.
  - reflexivity.
  - rewrite StoreCommit_exRootRecord in Hst. injection Hst as <-. exact Hrep.
Qed.

Lemma StoreCommit_then_GetCommit_witness :
  exists fs',
    StoreCommit (H := exCodec) NewMGitStorage exRootRecord exEmptyStore = (fs', Ok tt)
    /\ GetCommit (H := exCodec) NewMGitStorage exRootHash fs' = Ok exRootRecord
    /\ store_rep (H := exCodec) NewMGitStorage fs' {[ exRootHash := exRootRecord ]}.
Proof.
  refine (proj2 (StoreCommit_then_GetCommit (H := exCodec) NewMGitStorage
                   exEmptyStore ∅ exRootRecord "root.json" _ _ _ _ _ _)).
  - apply store_rep_exEmptyStore.
  - by_evaluation.
  - vm_compute. lia.
  - by_evaluation.
  - reflexivity.
  - reflexivity.
Defined.

(** C4, as stated, fails: a record with an overlay hash of three
    characters can be put, and no get by that hash returns a record. *)
Lemma get_after_put_three_char_hash :
  MCommit.MGitHash exThreeCharRecord <> ""
  /\ snd (StoreCommit (H := tableCodec [("abc.json", exThreeCharRecord)] [])
            NewMGitStorage exThreeCharRecord exEmptyStore) = Ok tt
  /\ ~ exists (J : JSON) (fs : FS.t) (c : MCommit.MCommitStruct),
         GetCommit (H := J) NewMGitStorage (MCommit.MGitHash exThreeCharRecord) fs = Ok c.
Proof.
  split; [done|]. split.
  - by_evaluation.
  - intros (J & fs & c & Hget). unfold GetCommit, resolveHash in Hget.
    simpl in Hget. discriminate.
Qed.

Lemma GetCommit_prefix_witness :
  exists c,
    ({[ exRootHash := exRootRecord ]} : gmap string MCommit.MCommitStruct) !! exRootHash
      = Some c
    /\ GetCommit (H := exCodec) NewMGitStorage (str_take 7 exRootHash) exRootStore = Ok c.
Proof.
  refine (proj1 (proj2 (GetCommit_prefix (H := exCodec) NewMGitStorage exRootStore
                          {[ exRootHash := exRootRecord ]} (str_take 7 exRootHash)
                          _ _ _ _ _)) exRootHash _).
  - apply store_rep_exRootStore.
  - vm_compute. lia.
  - vm_compute. lia.
  - by_evaluation.
  - by_evaluation.
  - by_evaluation.
Defined.

(** C6, as stated, fails.  In a freshly initialized store, which holds no
    record, the query [..HEAD] lists the storage root, finds the file
    [HEAD] and reads it as an object: under no codec is the answer "no
    object found". *)
Lemma GetCommit_prefix_outside_objects :
  extending (∅ : gmap string MCommit.MCommitStruct) "..HEAD" = ∅
  /\ ~ exists (J : JSON),
         store_rep (H := J) NewMGitStorage exEmptyStore ∅
         /\ GetCommit (H := J) NewMGitStorage "..HEAD" exEmptyStore
            = Err (ErrNoObjectWithPrefix "..HEAD").
Proof.
  split; [done|].
  intros ([mc uc mm um] & _ & Hget). vm_compute in Hget.
  destruct (uc _); discriminate.
Qed.

(** Names that the operating system refuses, in hashes that are within
    the other premises of the two theorems: a directory name with a NUL
    byte, and an entry name of 256 bytes. *)
Example os_path_refuses_names :
  let nul := String "a" (String "000" "bc") in
  let long := "ab" +:+ string_of_list_ascii (replicate 256 "c"%char) in
  (plain (str_take 2 nul) /\ String.length nul = 4
   /\ ~ os_path (str_take 2 nul :: objectsDir NewMGitStorage))
  /\ (good_hash long /\ 40 <= String.length long
      /\ ~ os_path (objectPath NewMGitStorage long)).
Proof.
  cbv zeta. split; (split; [|split]); by_evaluation.
Qed.

(** ** Sequencing *)

Lemma bind_Ok {A B} (m : M A) (k : A -> M B) (fs fs' : FS.t) (b : B) :
  bind m k fs = (fs', Ok b) ->
  exists fs1 a, m fs = (fs1, Ok a) /\ k a fs1 = (fs', Ok b).
Proof.
  unfold bind. destruct (m fs) as [fs1 [a|e|]]; intros E; try done. eauto.
Qed.

Lemma bind_eq {A B} (m : M A) (k : A -> M B) (fs fs1 : FS.t) (a : A) :
  m fs = (fs1, Ok a) -> bind m k fs = k a fs1.
Proof. intros E. unfold bind. by rewrite E. Qed.

(** ** Directories and files under [MkdirAll] and [WriteFile] *)

Lemma node_at_insert_ne (fs : FS.t) (p q : FS.path) (n : FS.node) :
  p <> q -> FS.node_at (<[p := n]> fs) q = FS.node_at fs q.
Proof. intros Hne. unfold FS.node_at. by rewrite lookup_insert_ne. Qed.

Lemma node_at_insert_eq (fs : FS.t) (p : FS.path) (n : FS.node) :
  FS.implicit_dir p = false -> FS.node_at (<[p := n]> fs) p = Some n.
Proof. intros Hi. unfold FS.node_at. by rewrite Hi, lookup_insert_eq. Qed.

Lemma node_at_None (fs : FS.t) (p : FS.path) :
  FS.node_at fs p = None -> FS.implicit_dir p = false /\ fs !! p = None.
Proof. unfold FS.node_at. by destruct (FS.implicit_dir p). Qed.

Lemma node_at_File (fs : FS.t) (p : FS.path) (d : string) :
  FS.node_at fs p = Some (FS.File d) ->
  FS.implicit_dir p = false /\ fs !! p = Some (FS.File d).
Proof. unfold FS.node_at. by destruct (FS.implicit_dir p). Qed.

(** [MkdirAll] leaves every existing node as it is. *)
Lemma MkdirAll_node_at (p q : FS.path) (fs : FS.t) (n : FS.node) :
  FS.node_at fs q = Some n -> FS.node_at (FS.MkdirAll p fs).1 q = Some n.
Proof.
  intros Hq. induction p as [|c p IH]; rewrite MkdirAll_eq.
  - by destruct (FS.node_at fs []) as [[|]|].
  - destruct (FS.node_at fs (c :: p)) as [[|]|] eqn:E; try done.
    destruct (FS.MkdirAll p fs) as [fs' [|]]; simpl in *; [|done].
    rewrite node_at_insert_ne; [done|]. intros <-. congruence.
Qed.

Lemma MkdirAll_false (p : FS.path) (fs : FS.t) :
  (FS.MkdirAll p fs).2 = false -> (FS.MkdirAll p fs).1 = fs.
Proof.
  induction p as [|c p IH]; rewrite MkdirAll_eq.
  - by destruct (FS.node_at fs []) as [[|]|].
  - destruct (FS.node_at fs (c :: p)) as [[|]|] eqn:E; try done.
    destruct (FS.MkdirAll p fs) as [fs' [|]]; simpl in *.
    + intros [=].
    + auto.
Qed.

Lemma MkdirAll_true (p : FS.path) (fs : FS.t) :
  (FS.MkdirAll p fs).2 = true -> FS.node_at (FS.MkdirAll p fs).1 p = Some FS.Dir.
Proof.
  destruct p as [|c p]; rewrite MkdirAll_eq.
  - done.
  - destruct (FS.node_at fs (c :: p)) as [[d|]|] eqn:E.
    + intros [=].
    + done.
    + destruct (FS.MkdirAll p fs) as [fs' [|]]; simpl. 2:{ intros [=]. }
      intros _. apply node_at_insert_eq. by apply node_at_None in E as [? _].
Qed.

Lemma MkdirAll_dir (p : FS.path) (fs : FS.t) :
  FS.node_at fs p = Some FS.Dir -> FS.MkdirAll p fs = (fs, true).
Proof. intros E. by rewrite MkdirAll_eq, E. Qed.

Lemma mkdirAll_node_at (p q : FS.path) (e : error) (fs : FS.t) (n : FS.node) :
  FS.node_at fs q = Some n -> FS.node_at (mkdirAll p e fs).1 q = Some n.
Proof.
  intros Hq. unfold mkdirAll.
  pose proof (MkdirAll_node_at p q fs n Hq). by destruct (FS.MkdirAll p fs).
Qed.

Lemma forEach_mkdirAll_node_at (dirs : list FS.path) (e : FS.path -> error)
    (q : FS.path) (fs : FS.t) (n : FS.node) :
  FS.node_at fs q = Some n ->
  FS.node_at (forEach dirs (fun dir => mkdirAll dir (e dir)) fs).1 q = Some n.
Proof.
  revert fs. induction dirs as [|dir dirs IH]; intros fs Hq; [done|].
  simpl. unfold bind.
  pose proof (mkdirAll_node_at dir q (e dir) fs n Hq) as Hq'.
  destruct (mkdirAll dir (e dir) fs) as [fs1 [[]|?|]]; simpl in *; auto.
Qed.

Lemma WriteFile_true (p : FS.path) (data : string) (fs fs' : FS.t) :
  FS.WriteFile p data fs = (fs', true) ->
  FS.ReadFile p fs' = Some data /\ fs' = <[p := FS.File data]> fs.
Proof.
  unfold FS.WriteFile, FS.ReadFile.
  destruct (FS.node_at fs p) as [[|]|] eqn:E.
  - intros [= <-]. apply node_at_File in E as [Hi _].
    by rewrite node_at_insert_eq.
  - done.
  - destruct p as [|c q]; [done|].
    destruct (FS.node_at fs q) as [[|]|]; try done.
    intros [= <-]. apply node_at_None in E as [Hi _].
    by rewrite node_at_insert_eq.
Qed.

Lemma WriteFile_false (p : FS.path) (data : string) (fs fs' : FS.t) :
  FS.WriteFile p data fs = (fs', false) -> fs' = fs.
Proof.
  unfold FS.WriteFile.
  destruct (FS.node_at fs p) as [[|]|]; try (by intros [= <-]).
  destruct p as [|c q]; [by intros [= <-]|].
  by destruct (FS.node_at fs q) as [[|]|]; intros [= <-].
Qed.

Lemma ReadFile_node_at (p : FS.path) (fs : FS.t) (data : string) :
  FS.ReadFile p fs = Some data <-> FS.node_at fs p = Some (FS.File data).
Proof.
  unfold FS.ReadFile. destruct (FS.node_at fs p) as [[|]|]; naive_solver.
Qed.

(** ** [reconstructMGitObjects]: the steps and their results *)

Lemma mkdirAll_eq (p : FS.path) (e : error) (fs : FS.t) :
  mkdirAll p e fs
  = ((FS.MkdirAll p fs).1, if (FS.MkdirAll p fs).2 then Ok tt else Err e).
Proof. unfold mkdirAll. by destruct (FS.MkdirAll p fs). Qed.

Lemma writeFile_eq (p : FS.path) (data : string) (e : error) (fs : FS.t) :
  writeFile p data e fs
  = ((FS.WriteFile p data fs).1, if (FS.WriteFile p data fs).2 then Ok tt else Err e).
Proof. unfold writeFile. by destruct (FS.WriteFile p data fs). Qed.

Lemma forEach_mkdirAll_result (dirs : list FS.path) (e : error) (fs : FS.t) :
  (forEach dirs (fun dir => mkdirAll dir e) fs).2 = Ok tt
  \/ (forEach dirs (fun dir => mkdirAll dir e) fs).2 = Err e.
Proof.
  revert fs. induction dirs as [|dir dirs IH]; intros fs; [by left|].
  simpl. unfold bind. rewrite mkdirAll_eq.
  destruct (FS.MkdirAll dir fs).2; [apply IH|by right].
Qed.

Section ReconstructSteps.
Context `{JSON}.

Lemma printShort_result (h : string) (fs : FS.t) :
  printShort h fs = (fs, if (7 <=? String.length h)%nat then Ok tt else Panic).
Proof. unfold printShort, slice_to. by destruct (7 <=? String.length h)%nat. Qed.

Lemma reconstructMapping_no_error (storage : MGitStorage) (repo : Repository)
    (mappings : list Mapping.NostrCommitMapping) (mapping : Mapping.NostrCommitMapping)
    (fs : FS.t) (e : error) :
  (reconstructMapping storage repo mappings mapping fs).2 <> Err e.
Proof.
  unfold reconstructMapping.
  destruct (GetCommit storage (Mapping.MGitHash mapping) fs); try done.
  destruct (CommitObject repo _); [|done].
  destruct (StoreCommit storage _ fs) as [fs1 [[]|?|]]; try done.
  rewrite printShort_result. by destruct (7 <=? _)%nat.
Qed.

Lemma reconstructRef_no_error (storage : MGitStorage)
    (mappings : list Mapping.NostrCommitMapping) (ref : plumbing.Reference)
    (fs : FS.t) (e : error) :
  (reconstructRef storage mappings ref fs).2 <> Err e.
Proof.
  unfold reconstructRef. destruct (plumbing.IsBranch ref); [|done].
  destruct (lookupMGitHash mappings _); [|done].
  destruct (UpdateRef storage _ _ fs) as [fs1 [[]|?|]]; try done.
  rewrite printShort_result. by destruct (7 <=? _)%nat.
Qed.

Lemma forEach_no_error {A} (l : list A) (body : A -> M unit) (fs : FS.t) (e : error) :
  (forall x fs0 e0, (body x fs0).2 <> Err e0) ->
  (forEach l body fs).2 <> Err e.
Proof.
  intros Hbody. revert fs. induction l as [|x l IH]; intros fs; [done|].
  simpl. unfold bind. pose proof (Hbody x fs) as Hx.
  destruct (body x fs) as [fs1 [[]|e1|]]; simpl in *; [apply IH| |done].
  by destruct (Hx e1).
Qed.

(** The "Update HEAD" step on a detached [HEAD]. *)
Lemma reconstructHEAD_detached (repoPath : FS.path)
    (mappings : list Mapping.NostrCommitMapping) (head : plumbing.Reference)
    (fs : FS.t) :
  plumbing.IsBranch head = false ->
  let g := plumbing.String_ (plumbing.RefHash head) in
  let headPath := FS.Join repoPath [".mgit"; "HEAD"] in
  match lookupMGitHash mappings g with
  | Some o =>
      if decide (o = "") then
        reconstructHEAD repoPath mappings head fs = (fs, Err (ErrRcDetachedHEAD g))
      else
        match FS.WriteFile headPath o fs with
        | (fs', true) =>
            FS.ReadFile headPath fs' = Some o
            /\ reconstructHEAD repoPath mappings head fs
               = (fs', if (7 <=? String.length o)%nat then Ok tt else Panic)
        | (fs', false) =>
            fs' = fs
            /\ reconstructHEAD repoPath mappings head fs = (fs, Err ErrRcWriteHEAD)
        end
  | None => reconstructHEAD repoPath mappings head fs = (fs, Err (ErrRcDetachedHEAD g))
  end.
Proof.
  intros Hb g headPath. unfold reconstructHEAD. rewrite Hb. fold g headPath.
  destruct (lookupMGitHash mappings g) as [o|]; simpl; [|done].
  destruct (decide (o = "")) as [->|Hne]; [done|].
  unfold bind, writeFile.
  destruct (FS.WriteFile headPath o fs) as [fs' [|]] eqn:Hw.
  - apply WriteFile_true in Hw as [Hr _]. split; [done|]. apply printShort_result.
  - apply WriteFile_false in Hw as ->. done.
Qed.

(** A run that ends well, or with the error of a detached [HEAD], ends in
    the "Update HEAD" step, run on the table the mapping file held. *)
Lemma reconstruct_ends_in_HEAD (repo : Repository) (repoPath : FS.path)
    (fs fs' : FS.t) (r : outcome unit) (data : string)
    (mappings : list Mapping.NostrCommitMapping) (head : plumbing.Reference) :
  FS.ReadFile (FS.Join repoPath [".mgit"; "mappings"; "hash_mappings.json"]) fs
    = Some data ->
  UnmarshalMappings data = Some mappings ->
  Head repo = Some head ->
  reconstructMGitObjects (Some repo) repoPath fs = (fs', r) ->
  (r = Ok tt \/ exists g, r = Err (ErrRcDetachedHEAD g)) ->
  exists fs0, reconstructHEAD repoPath mappings head fs0 = (fs', r).
Proof.
  intros Hfile Hparse Hhead Hrun Hr.
  assert (Hnot : forall e, r = Err e -> (exists g, e = ErrRcDetachedHEAD g)).
  { intros e ->. destruct Hr as [|[g [= ->]]]; [done|eauto]. }
  assert (Hnp : r <> Panic) by (destruct Hr as [->|[g ->]]; done).
  unfold reconstructMGitObjects in Hrun. unfold bind at 1 in Hrun.
  set (dirs := [_; _; _; _]) in Hrun.
  pose proof (forEach_mkdirAll_node_at dirs (fun _ => ErrRcMkdir) _ fs _
                (proj1 (ReadFile_node_at _ _ _) Hfile)) as Hfile1.
  pose proof (forEach_mkdirAll_result dirs ErrRcMkdir fs) as Hres.
  destruct (forEach dirs _ fs) as [fs1 r1]; simpl in Hfile1, Hres.
  destruct Hres as [-> | ->]; cycle 1.
  { injection Hrun as <- <-. by destruct (Hnot _ eq_refl). }
  unfold bind at 1, look in Hrun.
  rewrite (Stat_node_at _ _ _ Hfile1) in Hrun. simpl in Hrun.
  rewrite (proj2 (ReadFile_node_at _ _ _) Hfile1), Hparse in Hrun.
  unfold bind at 1 in Hrun.
  destruct (Initialize _ fs1) as [fs2 [[]|e|]]; cycle 1.
  { injection Hrun as <- <-. by destruct (Hnot _ eq_refl). }
  { by injection Hrun as <- <-. }
  unfold bind at 1 in Hrun.
  pose proof (forEach_no_error mappings
                (reconstructMapping {| RootDir := FS.Join repoPath [".mgit"] |} repo mappings)
                fs2) as Hloop.
  destruct (forEach mappings _ fs2) as [fs3 [[]|e|]]; cycle 1.
  { exfalso. eapply Hloop; [|done]. intros. apply reconstructMapping_no_error. }
  { by injection Hrun as <- <-. }
  clear Hloop.
  destruct (References repo) as [refs|]; cycle 1.
  { injection Hrun as <- <-. by destruct (Hnot _ eq_refl). }
  unfold bind at 1 in Hrun.
  pose proof (forEach_no_error refs
                (reconstructRef {| RootDir := FS.Join repoPath [".mgit"] |} mappings)
                fs3) as Hloop.
  destruct (forEach refs _ fs3) as [fs4 [[]|e|]]; cycle 1.
  { exfalso. eapply Hloop; [|done]. intros. apply reconstructRef_no_error. }
  { by injection Hrun as <- <-. }
  rewrite Hhead in Hrun. eauto.
Qed.

End ReconstructSteps.

Section ReconstructHEAD.
Context `{JSON}.

(** C8, amended.  Let the mapping file hold [mappings] and let the
    underlying [HEAD] be detached at the source hash [g].  When the first
    record of the table with source hash [g] carries a non-empty overlay
    hash [o], a run that returns without error has written exactly [o] to
    the overlay [HEAD] file, the run never ends with the detached-HEAD
    error, and the "Update HEAD" step leaves [o] in the file whenever the
    file can be written.  When the table has no record for [g], or the
    first one carries the empty overlay hash, the run does not succeed,
    and the "Update HEAD" step returns the detached-HEAD error and writes
    nothing. *)
Theorem reconstruct_detached_HEAD (repo : Repository) (repoPath : FS.path)
    (fs fs' : FS.t) (r : outcome unit) (data : string)
    (mappings : list Mapping.NostrCommitMapping) (head : plumbing.Reference) :
  FS.ReadFile (FS.Join repoPath [".mgit"; "mappings"; "hash_mappings.json"]) fs
    = Some data ->
  UnmarshalMappings data = Some mappings ->
  Head repo = Some head ->
  plumbing.IsBranch head = false ->
  reconstructMGitObjects (Some repo) repoPath fs = (fs', r) ->
  let g := plumbing.String_ (plumbing.RefHash head) in
  let headPath := FS.Join repoPath [".mgit"; "HEAD"] in
  match lookupMGitHash mappings g with
  | Some o =>
      if decide (o = "") then r <> Ok tt
      else
        r <> Err (ErrRcDetachedHEAD g)
        /\ (r = Ok tt -> FS.ReadFile headPath fs' = Some o)
        /\ (forall fs0,
              (FS.WriteFile headPath o fs0).2 = true ->
              FS.ReadFile headPath (reconstructHEAD repoPath mappings head fs0).1
              = Some o)
  | None => r <> Ok tt
  end
  /\ forall fs0,
       lookupMGitHash mappings g = None \/ lookupMGitHash mappings g = Some "" ->
       reconstructHEAD repoPath mappings head fs0 = (fs0, Err (ErrRcDetachedHEAD g)).
Proof.
  intros Hfile Hparse Hhead Hb Hrun g headPath.
  pose proof (fun Hr => reconstruct_ends_in_HEAD repo repoPath fs fs' r data mappings
                          head Hfile Hparse Hhead Hrun Hr) as Hend.
  pose proof (fun fs0 => reconstructHEAD_detached repoPath mappings head fs0 Hb) as Hstep.
  cbv zeta in Hstep. fold g headPath in Hstep.
  split.
  - destruct (lookupMGitHash mappings g) as [o|] eqn:Hlook.
    + destruct (decide (o = "")) as [->|Hne].
      * intros ->. destruct Hend as [fs0 E]; [by left|].
        rewrite (Hstep fs0) in E. done.
      * split; [|split].
        -- intros ->. destruct Hend as [fs0 E]; [right; eauto|].
           specialize (Hstep fs0).
           destruct (FS.WriteFile headPath o fs0) as [fs1 [|]].
           ++ destruct Hstep as [_ Hs]. rewrite Hs in E.
              by destruct (7 <=? String.length o)%nat.
           ++ destruct Hstep as [_ Hs]. rewrite Hs in E. done.
        -- intros ->. destruct Hend as [fs0 E]; [by left|].
           specialize (Hstep fs0).
           destruct (FS.WriteFile headPath o fs0) as [fs1 [|]].
           ++ destruct Hstep as [Hread Hs]. rewrite Hs in E. by injection E as <- _.
           ++ destruct Hstep as [_ Hs]. rewrite Hs in E. done.
        -- intros fs0 Hw. specialize (Hstep fs0).
           destruct (FS.WriteFile headPath o fs0) as [fs1 [|]]; [|done].
           destruct Hstep as [Hread Hs]. by rewrite Hs.
    + intros ->. destruct Hend as [fs0 E]; [by left|].
      rewrite (Hstep fs0) in E. done.
  - intros fs0 [Hl|Hl]; specialize (Hstep fs0); rewrite Hl in Hstep; done.
Qed.

End ReconstructHEAD.

Lemma reconstruct_detached_HEAD_witness :
  FS.ReadFile ["HEAD"; ".mgit"]
    (reconstructMGitObjects (H := exCodec) (Some (exRepo (exDetached exChildGitHash)))
       [] exTableStore).1
  = Some exChildHash.
Proof.
  refine (proj1 (proj2 (proj1
    (reconstruct_detached_HEAD (H := exCodec) (exRepo (exDetached exChildGitHash)) []
       exTableStore _ (Ok tt) "table.json" exMappings (exDetached exChildGitHash)
       _ _ _ _ _))) _).
  - by_evaluation.
  - reflexivity.
  - reflexivity.
  - reflexivity.
  - apply (bool_decide_unpack _). vm_compute. exact I.
  - reflexivity.
Defined.

(** C8, as stated, fails: the table has a record for the source hash of
    the detached [HEAD], its overlay hash is the empty string, and the
    run ends with the error of a [HEAD] without mapping. *)
Lemma detached_HEAD_empty_overlay_hash :
  lookupMGitHash exEmptyHashTable exRootGitHash = Some ""
  /\ (reconstructMGitObjects (H := exEmptyHashCodec)
        (Some (exRepo (exDetached exRootGitHash))) [] exTableStore).2
     = Err (ErrRcDetachedHEAD exRootGitHash).
Proof. split; [reflexivity|by_evaluation]. Qed.

(** * The verifier *)

#[local] Set Warnings "-clear-no-such-hyp".

(** ** [GetCommit] as the loader of the verifier *)

Section Loader.
Context `{JSON}.
Variable s : MGitStorage.

Lemma findObjectByPrefix_lengths (p : string) (fs : FS.t) (matches : list string) :
  2 < String.length p ->
  findObjectByPrefix s p fs = Ok matches ->
  Forall (fun m => 2 <= String.length m) matches.
Proof.
  intros Hlen. unfold findObjectByPrefix.
  rewrite (proj2 (Nat.leb_gt _ _)) by lia.
  rewrite slice_to_Some, slice_from_Some by lia.
  destruct (FS.IsNotExist _); [by intros [= <-]|].
  destruct (FS.ReadDir _ fs); [|done]. intros [= <-].
  apply Forall_fmap, Forall_forall. intros n _. unfold compose.
  rewrite length_append. change (2 <= String.length (str_take 2 p) + String.length n).
  rewrite length_take2 by lia. lia.
Qed.

Lemma findObjectByPrefix_no_panic (p : string) (fs : FS.t) :
  2 < String.length p -> findObjectByPrefix s p fs <> Panic.
Proof.
  intros Hlen. unfold findObjectByPrefix.
  rewrite (proj2 (Nat.leb_gt _ _)) by lia.
  rewrite slice_to_Some, slice_from_Some by lia.
  destruct (FS.IsNotExist _); [done|]. by destruct (FS.ReadDir _ fs).
Qed.

Lemma resolveHash_length (k : string) (fs : FS.t) (h : string) :
  resolveHash s k fs = Ok h -> 2 <= String.length h.
Proof.
  unfold resolveHash.
  destruct (String.length k <? 4)%nat eqn:E4; [done|].
  apply Nat.ltb_ge in E4.
  destruct (String.length k <? 40)%nat eqn:E40.
  - destruct (findObjectByPrefix s k fs) as [matches| |] eqn:Ef; try done.
    apply findObjectByPrefix_lengths in Ef; [|lia].
    destruct matches as [|m [|]]; try done. intros [= <-].
    by inversion Ef.
  - intros [= <-]. lia.
Qed.

Lemma resolveHash_no_panic (k : string) (fs : FS.t) : resolveHash s k fs <> Panic.
Proof.
  unfold resolveHash.
  destruct (String.length k <? 4)%nat eqn:E4; [done|].
  apply Nat.ltb_ge in E4.
  destruct (String.length k <? 40)%nat; [|done].
  pose proof (findObjectByPrefix_no_panic k fs ltac:(lia)).
  destruct (findObjectByPrefix s k fs) as [[|m [|]]| |]; done.
Qed.

Lemma GetCommit_no_panic (k : string) (fs : FS.t) : GetCommit s k fs <> Panic.
Proof.
  unfold GetCommit.
  pose proof (resolveHash_no_panic k fs) as Hnp.
  pose proof (resolveHash_length k fs) as Hlen.
  destruct (resolveHash s k fs) as [h| |]; try done.
  specialize (Hlen h eq_refl).
  rewrite slice_to_Some, slice_from_Some by lia. cbv zeta.
  destruct (FS.IsNotExist _); [done|].
  destruct (FS.ReadFile _ fs); [|done]. by destruct (UnmarshalCommit _).
Qed.

(** A record that loads is the content of one of the files. *)
Lemma GetCommit_stored (k : string) (fs : FS.t) (c : MCommit.MCommitStruct) :
  GetCommit s k fs = Ok c -> c ∈ storedRecords fs.
Proof.
  unfold GetCommit.
  destruct (resolveHash s k fs) as [h| |]; try done.
  destruct (slice_to 2 h), (slice_from 2 h); try done. cbv zeta.
  destruct (FS.IsNotExist _); [done|].
  destruct (FS.ReadFile _ fs) as [data|] eqn:Hr; [|done].
  destruct (UnmarshalCommit data) as [c'|] eqn:Hu; [|done]. intros [= <-].
  apply ReadFile_node_at, node_at_File in Hr as [_ Hr].
  unfold storedRecords. apply list_elem_of_omap.
  eexists (_, FS.File data). split; [by apply elem_of_map_to_list|done].
Qed.

Lemma GetCommit_parents (k : string) (fs : FS.t) (c : MCommit.MCommitStruct) :
  GetCommit s k fs = Ok c ->
  MCommit.ParentHashes c ⊆ storedParents fs
  /\ length (MCommit.ParentHashes c) <= length (storedParents fs).
Proof.
  intros Hc%GetCommit_stored. unfold storedParents.
  apply list_elem_of_split in Hc as (l1 & l2 & ->).
  rewrite flat_map_app. simpl. split.
  - intros p Hp. rewrite !elem_of_app. auto.
  - rewrite !length_app. lia.
Qed.

End Loader.

(** ** The first loop of the verifier *)

Section Graph.
Context `{JSON}.
Variable s : MGitStorage.
Variable fs : FS.t.
Variable start : string.

Lemma size_difference_visit (visited : gset string) (current : string) :
  current ∈ graphNodes fs start -> current ∉ visited ->
  size (graphNodes fs start ∖ visited) = S (size (graphNodes fs start ∖ ({[ current ]} ∪ visited))).
Proof.
  intros Hin Hnot.
  assert (E : graphNodes fs start ∖ visited = {[ current ]} ∪ graphNodes fs start ∖ ({[ current ]} ∪ visited)).
  { apply set_eq. intros x. destruct (decide (x = current)); set_solver. }
  rewrite E, size_union by set_solver. by rewrite size_singleton.
Qed.

(** The loop ends within the fuel its measure gives. *)
Lemma buildGraph_total (fuel : nat) (queue : list string) (visited : gset string)
    (commits : list (string * MCommit.MCommitStruct)) (loadErrors : list string) :
  (forall q, q ∈ queue -> q ∈ graphNodes fs start) ->
  length queue + (1 + length (storedParents fs)) * size (graphNodes fs start ∖ visited) < fuel ->
  exists res, buildGraph s fs fuel queue visited commits loadErrors = Some (Ok res).
Proof.
  revert queue visited commits loadErrors.
  induction fuel as [|fuel IH]; intros queue visited commits loadErrors Hq Hm; [lia|].
  destruct queue as [|current queue]; simpl; [eauto|].
  assert (Hq' : forall q, q ∈ queue -> q ∈ graphNodes fs start).
  { intros q Hin. apply Hq. by right. }
  simpl in Hm.
  destruct (decide (current ∈ visited)) as [Hv|Hv].
  { apply IH; [done|lia]. }
  pose proof (GetCommit_no_panic s current fs) as Hnp.
  destruct (GetCommit s current fs) as [c|e|] eqn:Hget; [|apply IH; [done|lia]|done].
  destruct (GetCommit_parents s current fs c Hget) as [Hsub Hlen].
  apply IH.
  - intros q [Hin|Hin]%elem_of_app; [auto|].
    apply list_elem_of_filter in Hin as [_ Hin]. apply Hsub in Hin.
    unfold graphNodes. apply elem_of_union_r, elem_of_list_to_set. done.
  - rewrite length_app.
    pose proof (length_filter (fun parent => parent ∉ {[ current ]} ∪ visited)
                  (MCommit.ParentHashes c)) as Hf.
    rewrite (size_difference_visit visited current) in Hm; [|apply Hq; by left|done].
    nia.
Qed.

(** Every iteration keeps the invariant. *)
Lemma buildGraph_inv (fuel : nat) (queue : list string) (visited : gset string)
    (commits : list (string * MCommit.MCommitStruct)) (loadErrors : list string)
    (res : list (string * MCommit.MCommitStruct) * list string) :
  buildGraph s fs fuel queue visited commits loadErrors = Some (Ok res) ->
  graphInv s fs start queue visited commits loadErrors ->
  exists visited', graphInv s fs start [] visited' res.1 res.2.
Proof.
  revert queue visited commits loadErrors.
  induction fuel as [|fuel IH]; intros queue visited commits loadErrors Hrun Hinv; [done|].
  destruct queue as [|current queue]; simpl in Hrun.
  { injection Hrun as <-. eauto. }
  destruct Hinv as [Hc Hv Hq He Hs Hcl].
  assert (Hcur : reachable s fs start current) by (apply Hq; by left).
  destruct (decide (current ∈ visited)) as [Hin|Hnin].
  { eapply IH; [exact Hrun|]. constructor; auto.
    - intros q Hq'. apply Hq. by right.
    - destruct Hs as [?|[[->|?]%elem_of_cons|?]]; auto.
    - intros k c p Hk Hp.
      destruct (Hcl k c p Hk Hp) as [?|[[->|?]%elem_of_cons|?]]; auto. }
  destruct (GetCommit s current fs) as [c|e|] eqn:Hget; [| |done].
  - eapply IH; [exact Hrun|]. constructor.
    + intros k c' [Hk|Hk]%elem_of_app.
      * destruct (Hc k c' Hk) as (? & ? & ?). split; [done|]. split; [set_solver|done].
      * apply list_elem_of_singleton in Hk. injection Hk as -> ->.
        split; [done|]. split; [set_solver|done].
    + intros k [Hk|Hk]%elem_of_union.
      * apply elem_of_singleton in Hk as ->. exists c. set_solver.
      * destruct (Hv k Hk) as [c' ?]. exists c'. set_solver.
    + intros q [Hq'|Hq']%elem_of_app.
      * apply Hq. by right.
      * apply list_elem_of_filter in Hq' as [_ Hq']. by eapply reach_parent.
    + done.
    + destruct Hs as [?|[[->|?]%elem_of_cons|?]]; [set_solver|set_solver| |auto].
      right. left. set_solver.
    + intros k c' p [Hk|Hk]%elem_of_app Hp.
      * destruct (Hcl k c' p Hk Hp) as [?|[[->|?]%elem_of_cons|?]];
          [set_solver|set_solver| |auto].
        right. left. set_solver.
      * apply list_elem_of_singleton in Hk. injection Hk as -> ->.
        destruct (decide (p ∈ {[ current ]} ∪ visited)) as [?|Hn]; [by left|].
        right. left. apply elem_of_app. right.
        apply list_elem_of_filter. done.
  - eapply IH; [exact Hrun|]. constructor; auto.
    + intros q Hq'. apply Hq. by right.
    + intros k [Hk|Hk]%elem_of_app; [auto|].
      apply list_elem_of_singleton in Hk as ->. eauto.
    + destruct Hs as [?|[[->|?]%elem_of_cons|?]]; auto.
      * right. right. set_solver.
      * right. right. set_solver.
    + intros k c p Hk Hp.
      destruct (Hcl k c p Hk Hp) as [?|[[->|?]%elem_of_cons|?]]; auto.
      * right. right. set_solver.
      * right. right. set_solver.
Qed.

(** When the queue is empty, every reachable hash was loaded or reported. *)
Lemma graphInv_final (visited : gset string)
    (commits : list (string * MCommit.MCommitStruct)) (loadErrors : list string)
    (k : string) :
  graphInv s fs start [] visited commits loadErrors ->
  reachable s fs start k ->
  k ∈ visited \/ k ∈ loadErrors.
Proof.
  intros [Hc Hv Hq He Hs Hcl]. induction 1 as [|k c p Hk IH Hget Hp].
  - destruct Hs as [?|[[]%elem_of_nil|?]]; auto.
  - destruct IH as [Hin|Hin].
    + destruct (Hv k Hin) as [c' Hc'].
      destruct (Hc k c' Hc') as (Hget' & _ & _).
      assert (c' = c) as -> by congruence.
      destruct (Hcl k c p Hc' Hp) as [?|[[]%elem_of_nil|?]]; auto.
    + destruct (He k Hin) as (_ & e & Hget'). congruence.
Qed.

End Graph.

(** ** The second loop of the verifier *)

Section Check.
Variable repo : Repository.

Lemma verifyCommit_passes (k : string) (c : MCommit.MCommitStruct) :
  verifyCommit repo k c = Ok None <-> nodeOK repo k c.
Proof.
  unfold verifyCommit, nodeOK. split.
  - destruct (CommitObject repo _) as [g|]; [|done].
    destruct (MCommit.Author c) as [a|]; [|done].
    destruct (decide _) as [|Heq]; [done|]. intros _.
    exists g, a. repeat split. by apply dec_stable.
  - intros (g & a & -> & -> & Hk).
    destruct (decide _) as [Hne|]; [by destruct Hne|done].
Qed.

Lemma verifyCommit_failure (k : string) (c : MCommit.MCommitStruct) (f : verifyFailure) :
  verifyCommit repo k c = Ok (Some f) -> failureHash f = k.
Proof.
  unfold verifyCommit.
  destruct (CommitObject repo _); [|by intros [= <-]].
  destruct (MCommit.Author c); [|done].
  destruct (decide _); [by intros [= <-]|done].
Qed.

Lemma verifyCommit_panic (k : string) (c : MCommit.MCommitStruct) :
  verifyCommit repo k c = Panic ->
  MCommit.Author c = None
  /\ CommitObject repo (plumbing.NewHash (MCommit.GitHash c)) <> None.
Proof.
  unfold verifyCommit.
  destruct (CommitObject repo _); [|done].
  destruct (MCommit.Author c); [|done].
  by destruct (decide _).
Qed.

Lemma verifyCommit_no_error (k : string) (c : MCommit.MCommitStruct) (e : error) :
  verifyCommit repo k c <> Err e.
Proof.
  unfold verifyCommit.
  destruct (CommitObject repo _); [|done].
  destruct (MCommit.Author c); [|done].
  by destruct (decide _).
Qed.

(** The loop goes through all the entries unless one of them has no
    author; it appends one failure for each entry that does not pass. *)
Lemma verifyCommits_spec (commits : list (string * MCommit.MCommitStruct))
    (failures : list verifyFailure) :
  (exists new,
      verifyCommits (Some repo) commits failures = Some (Ok (failures ++ new))
      /\ (new = [] <-> forall k c, (k, c) ∈ commits -> nodeOK repo k c)
      /\ (forall k c, (k, c) ∈ commits -> ~ nodeOK repo k c ->
            exists f, f ∈ new /\ failureHash f = k)
      /\ (forall f, f ∈ new ->
            exists c, (failureHash f, c) ∈ commits /\ ~ nodeOK repo (failureHash f) c))
  \/ (verifyCommits (Some repo) commits failures = Some Panic
      /\ exists k c, (k, c) ∈ commits /\ MCommit.Author c = None
           /\ CommitObject repo (plumbing.NewHash (MCommit.GitHash c)) <> None).
Proof.
  revert failures. induction commits as [|[k c] rest IH]; intros failures; simpl.
  { left. exists []. rewrite app_nil_r. split; [done|]. split; [|split].
    - split; [|done]. by intros _ ? ? ?%elem_of_nil.
    - by intros ? ? ?%elem_of_nil.
    - by intros ? ?%elem_of_nil. }
  pose proof (verifyCommit_passes k c) as Hpass.
  pose proof (verifyCommit_failure k c) as Hfail.
  pose proof (verifyCommit_panic k c) as Hpanic.
  pose proof (verifyCommit_no_error k c) as Hne.
  destruct (verifyCommit repo k c) as [[f|]|e|].
  - assert (Hbad : ~ nodeOK repo k c) by (by intros ?%Hpass).
    specialize (Hfail f eq_refl).
    destruct (IH (failures ++ [f])) as [(new & Hrun & Hnil & Hall & Hnew)|(Hrun & k' & c' & Hin & Hk')].
    + left. exists (f :: new). rewrite <- app_assoc in Hrun. split; [done|].
      split; [|split].
      * split; [done|]. intros Hok. destruct Hbad. apply Hok. by left.
      * intros k' c' [[= -> ->]|Hin]%elem_of_cons Hbad'.
        -- exists f. split; [by left|done].
        -- destruct (Hall k' c' Hin Hbad') as (f' & ? & ?). exists f'. split; [by right|done].
      * intros f' [->|Hin]%elem_of_cons.
        -- exists c. rewrite Hfail. split; [by left|done].
        -- destruct (Hnew f' Hin) as (c' & ? & ?). exists c'. split; [by right|done].
    + right. split; [done|]. exists k', c'. split; [by right|done].
  - assert (Hok : nodeOK repo k c) by (by apply Hpass).
    destruct (IH failures) as [(new & Hrun & Hnil & Hall & Hnew)|(Hrun & k' & c' & Hin & Hk')].
    + left. exists new. split; [done|]. split; [|split].
      * rewrite Hnil. split.
        -- intros Hrest k' c' [[= -> ->]|Hin]%elem_of_cons; auto.
        -- intros Hcons k' c' Hin. apply Hcons. by right.
      * intros k' c' [[= -> ->]|Hin]%elem_of_cons Hbad'; [done|by apply (Hall k' c')].
      * intros f Hin. destruct (Hnew f Hin) as (c' & ? & ?). exists c'. split; [by right|done].
    + right. split; [done|]. exists k', c'. split; [by right|done].
  - by destruct (Hne e).
  - right. split; [done|]. exists k, c. split; [by left|by apply Hpanic].
Qed.

End Check.

Section VerifyTheorems.
Context `{JSON}.

Lemma size_list_to_set_le (l : list string) :
  size (list_to_set l : gset string) <= length l.
Proof.
  induction l as [|x l IH]; [by rewrite list_to_set_nil, size_empty|].
  rewrite list_to_set_cons. simpl.
  rewrite size_union_alt, size_singleton.
  pose proof (subseteq_size (list_to_set l ∖ {[ x ]}) (list_to_set l : gset string)
                ltac:(set_solver)). lia.
Qed.

Lemma graphInv_start (s : MGitStorage) (fs : FS.t) (start : string) :
  graphInv s fs start [start] ∅ [] [].
Proof.
  constructor.
  - by intros ? ? ?%elem_of_nil.
  - by intros ? ?%elem_of_empty.
  - intros q ->%list_elem_of_singleton. constructor.
  - by intros ? ?%elem_of_nil.
  - right. left. by left.
  - by intros ? ? ? ?%elem_of_nil.
Qed.

(** X23: when the head commit loads and the fuel covers the first loop,
    the command ends.  The walk starts at the overlay hash written in the
    head record, and the verdict is [valid = true] if and only if every
    record that loads from a hash reached from there along the parent
    hashes has its Git commit found and its recomputed overlay hash equal
    to the hash it was reached by.  A reached hash whose record does not
    load is printed by the first loop and does not change the verdict.
    Every loaded record that does not pass has a reported failure and
    every failure is of such a record; the command breaks off only at a
    loaded record without author. *)
Theorem HandleMGitVerify_valid_iff (repo : Repository) (fs : FS.t)
    (head : MCommit.MCommitStruct) (fuel : nat) :
  GetHeadCommit NewMGitStorage fs = Ok head ->
  verifyFuel fs <= fuel ->
  exists out,
    HandleMGitVerify fuel (Some repo) fs = Some out
    /\ verifySpec repo fs (MCommit.MGitHash head) out.
Proof.
  intros Hhead Hfuel. unfold HandleMGitVerify. rewrite Hhead.
  set (s := NewMGitStorage). set (start := MCommit.MGitHash head).
  destruct (buildGraph_total s fs start fuel [start] ∅ [] []) as [[commits errs] Hrun].
  { intros q ->%list_elem_of_singleton. unfold graphNodes. set_solver. }
  { unfold verifyFuel in Hfuel. unfold graphNodes. simpl.
    pose proof (size_list_to_set_le (storedParents fs)) as Hsz.
    pose proof (subseteq_size (({[ start ]} ∪ list_to_set (storedParents fs)) ∖ ∅)
                  ({[ start ]} ∪ list_to_set (storedParents fs) : gset string)
                  ltac:(set_solver)) as Hsub.
    pose proof (size_union_alt ({[ start ]} : gset string)
                  (list_to_set (storedParents fs))) as Hu.
    rewrite size_singleton in Hu.
    pose proof (subseteq_size (list_to_set (storedParents fs) ∖ {[ start ]})
                  (list_to_set (storedParents fs) : gset string) ltac:(set_solver)).
    nia. }
  rewrite Hrun.
  destruct (buildGraph_inv s fs start fuel _ _ _ _ _ Hrun (graphInv_start s fs start))
    as [visited Hinv].
  simpl in Hinv.
  pose proof (fun k => graphInv_final s fs start visited commits errs k Hinv) as Hfin.
  destruct Hinv as [Hc Hv _ He _ _].
  assert (Hloaded : forall k c, reachable s fs start k -> GetCommit s k fs = Ok c ->
                      (k, c) ∈ commits).
  { intros k c Hr Hget. destruct (Hfin k Hr) as [Hin|Hin].
    - destruct (Hv k Hin) as [c' Hc']. destruct (Hc k c' Hc') as (Hget' & _).
      congruence.
    - destruct (He k Hin) as (_ & e & Hget'). congruence. }
  destruct (verifyCommits_spec repo commits [])
    as [(new & Hchk & Hnil & Hall & Hnew)|(Hchk & k & c & Hin & Hnone & Hgit)];
    rewrite Hchk.
  - eexists. split; [done|]. unfold verifySpec. cbv zeta. fold s.
    split; [|split; [|split]].
    + rewrite bool_decide_eq_true, Hnil. split.
      * intros Hok k c Hr Hget. apply Hok. by apply Hloaded.
      * intros Hok k c Hin. destruct (Hc k c Hin) as (? & _ & ?). by apply Hok.
    + intros k. split; [apply He|]. intros (Hr & e & Hget).
      destruct (Hfin k Hr) as [Hin|Hin]; [|done].
      destruct (Hv k Hin) as [c' Hc']. destruct (Hc k c' Hc') as (Hget' & _).
      congruence.
    + intros k c Hr Hget Hbad. apply (Hall k c); [by apply Hloaded|done].
    + intros f Hf. destruct (Hnew f Hf) as (c & Hin & Hbad).
      destruct (Hc _ c Hin) as (? & _ & ?). by exists c.
  - eexists. split; [done|]. unfold verifySpec. cbv zeta. fold s. exists k, c.
    destruct (Hc k c Hin) as (? & _ & ?). done.
Qed.

End VerifyTheorems.

Lemma exDanglingStore_head :
  GetHeadCommit (H:=exCodec) NewMGitStorage exDanglingStore = Ok exChildRecord.
Proof. by_evaluation. Qed.

(** C2: the code against the claim.  The record of [HEAD] loads and
    passes, and it names a parent that has no record: the parent cannot be
    loaded, the first loop prints the error, and the verdict is [true].
    The second loop of the same command ends with the verdict [false]
    when the Git commit of a record cannot be found.  And where the file
    of [HEAD]'s hash holds a record with another overlay hash, which the
    recomputed hash does not equal, the walk starts at the hash in the
    record, loads nothing, and the verdict is [true]. *)
Theorem HandleMGitVerify_passes_unresolvable :
  let s := NewMGitStorage in
  (GetHeadCommit (H:=exCodec) s exDanglingStore = Ok exChildRecord
   /\ MCommit.ParentHashes exChildRecord = [exRootHash]
   /\ GetCommit (H:=exCodec) s exRootHash exDanglingStore
      = Err (ErrCommitNotFound exRootHash)
   /\ HandleMGitVerify (H:=exCodec) 3 (Some (exRepo exBranch)) exDanglingStore
      = Some (Verdict true [exRootHash] []))
  /\ HandleMGitVerify (H:=exCodec) 3 (Some exBareRepo) exDanglingStore
     = Some (Verdict false [exRootHash] [GitCommitMissing exChildHash exChildGitHash])
  /\ (GetRef s "master" exTamperedStore = Ok exChildHash
      /\ GetCommit (H:=exTamperedCodec) s exChildHash exTamperedStore
         = Ok exTamperedRecord
      /\ GetHeadCommit (H:=exTamperedCodec) s exTamperedStore = Ok exTamperedRecord
      /\ verifyCommit (exRepo exBranch) (MCommit.MGitHash exTamperedRecord)
           exTamperedRecord
         = Ok (Some (HashMismatch exTamperedHash exChildHash))
      /\ HandleMGitVerify (H:=exTamperedCodec) 3 (Some (exRepo exBranch)) exTamperedStore
         = Some (Verdict true [exTamperedHash] [])).
Proof.
  cbv zeta. repeat split; by_evaluation.
Qed.

Lemma HandleMGitVerify_valid_iff_witness :
  exists out,
    HandleMGitVerify (H:=exCodec) (verifyFuel (H:=exCodec) exFullStore)
      (Some (exRepo exBranch)) exFullStore = Some out
    /\ verifySpec (H:=exCodec) (exRepo exBranch) exFullStore
         (MCommit.MGitHash exChildRecord) out.
Proof.
  apply (HandleMGitVerify_valid_iff (H:=exCodec) (exRepo exBranch) exFullStore exChildRecord).
  - by_evaluation.
  - reflexivity.
Defined.

Example verify_full_store :
  HandleMGitVerify (H:=exCodec) 4 (Some (exRepo exBranch)) exFullStore
    = Some (Verdict true [] []).
Proof. by_evaluation. Qed.

(** * A second run of the reconstruction *)

(** ** Changes of the file system *)

Section Evolves.
Variable P : FS.path -> string -> Prop.

#[global] Instance evolves_refl : Reflexive (evolves P).
Proof.
  intros fs. constructor; [done| |done]. intros p d Hp. by exists d.
Qed.

#[global] Instance evolves_trans : Transitive (evolves P).
Proof.
  intros fs1 fs2 fs3 [Hd1 Hf1 Hn1] [Hd2 Hf2 Hn2]. constructor.
  - auto.
  - intros p d Hp. destruct (Hf1 p d Hp) as (d' & Hp' & Hk).
    destruct (Hf2 p d' Hp') as (d'' & Hp'' & Hk').
    exists d''. split; [done|]. intros HP. specialize (Hk HP). subst d'. auto.
  - intros c q Hnone Hsome.
    destruct (FS.node_at fs2 (c :: q)) as [n|] eqn:E2.
    + apply Hd2, (Hn1 c q Hnone). by rewrite E2.
    + by apply (Hn2 c q).
Qed.

#[global] Instance evolves_preorder : PreOrder (evolves P).
Proof. split; apply _. Qed.

Lemma cons_ne_tail {A} (x : A) (l : list A) : x :: l <> l.
Proof. intros Heq. apply (f_equal length) in Heq. simpl in Heq. lia. Qed.

Lemma MkdirAll_file_inv (p q : FS.path) (fs : FS.t) (d : string) :
  FS.node_at (FS.MkdirAll p fs).1 q = Some (FS.File d) ->
  FS.node_at fs q = Some (FS.File d).
Proof.
  revert q. induction p as [|c p IH]; intros q; rewrite MkdirAll_eq.
  - by destruct (FS.node_at fs []) as [[|]|].
  - destruct (FS.node_at fs (c :: p)) as [[|]|] eqn:E; [done|done|].
    destruct (FS.MkdirAll p fs) as [fs' [|]]; simpl in *; [|by apply IH].
    destruct (decide (c :: p = q)) as [<-|Hne].
    + rewrite node_at_insert_eq; [done|]. by apply node_at_None in E as [? _].
    + rewrite node_at_insert_ne by done. apply IH.
Qed.

Lemma MkdirAll_new (p : FS.path) (fs : FS.t) (c : string) (q : FS.path) :
  FS.node_at fs (c :: q) = None ->
  FS.node_at (FS.MkdirAll p fs).1 (c :: q) <> None ->
  FS.node_at (FS.MkdirAll p fs).1 q = Some FS.Dir.
Proof.
  induction p as [|c' p IH]; rewrite MkdirAll_eq.
  - by destruct (FS.node_at fs []) as [[|]|]; simpl; intros ->.
  - destruct (FS.node_at fs (c' :: p)) as [[|]|] eqn:E;
      [by simpl; intros ->|by simpl; intros ->|].
    pose proof (MkdirAll_true p fs) as Htrue.
    destruct (FS.MkdirAll p fs) as [fs' [|]]; simpl in *; [|done].
    intros Hnone Hsome. specialize (Htrue eq_refl).
    assert (Hi : FS.implicit_dir (c' :: p) = false) by (by apply node_at_None in E as [? _]).
    destruct (decide (c' :: p = c :: q)) as [[= -> ->]|Hne].
    + rewrite node_at_insert_ne; [done|]. apply cons_ne_tail.
    + rewrite node_at_insert_ne in Hsome by done.
      specialize (IH Hnone Hsome).
      destruct (decide (c' :: p = q)) as [<-|Hne'].
      * by rewrite node_at_insert_eq.
      * by rewrite node_at_insert_ne.
Qed.

Lemma MkdirAll_evolves (p : FS.path) (fs : FS.t) :
  evolves P fs (FS.MkdirAll p fs).1.
Proof.
  constructor.
  - intros q Hq. by apply MkdirAll_node_at.
  - intros q d Hq. exists d. split; [by apply MkdirAll_node_at|done].
  - intros c q. apply MkdirAll_new.
Qed.

Lemma WriteFile_evolves (p : FS.path) (data : string) (fs : FS.t) :
  (forall d0, FS.node_at fs p = Some (FS.File d0) -> P p d0 -> d0 = data) ->
  evolves P fs (FS.WriteFile p data fs).1.
Proof.
  intros Hold. unfold FS.WriteFile.
  destruct (FS.node_at fs p) as [[d0|]|] eqn:E; simpl; [|reflexivity|].
  - apply node_at_File in E as Hp. destruct Hp as [Hi Hp]. constructor.
    + intros q Hq. rewrite node_at_insert_ne; [done|]. intros <-. congruence.
    + intros q d Hq. destruct (decide (p = q)) as [<-|Hne].
      * exists data. rewrite node_at_insert_eq by done. split; [done|].
        intros HP. symmetry. apply Hold; congruence.
      * exists d. by rewrite node_at_insert_ne.
    + intros c q Hnone Hsome. destruct (decide (p = c :: q)) as [->|Hne]; [congruence|].
      rewrite node_at_insert_ne in Hsome by done. done.
  - destruct p as [|c q]; simpl; [reflexivity|].
    destruct (FS.node_at fs q) as [[|]|] eqn:Eq; simpl; try reflexivity.
    apply node_at_None in E as Hp. destruct Hp as [Hi Hp]. constructor.
    + intros q' Hq'. rewrite node_at_insert_ne; [done|]. intros <-. congruence.
    + intros q' d Hq'. exists d. rewrite node_at_insert_ne; [done|].
      intros <-. congruence.
    + intros c' q' Hnone Hsome. destruct (decide (c :: q = c' :: q')) as [[= -> ->]|Hne].
      * rewrite node_at_insert_ne; [done|]. apply cons_ne_tail.
      * rewrite node_at_insert_ne in Hsome by done. done.
Qed.

End Evolves.

Section Preserves.
Variable R : relation FS.t.
Context `{!PreOrder R}.

Lemma preserves_ret {A} (a : A) : preserves R (ret a).
Proof. by intros fs fs' r [= <- _]. Qed.

Lemma preserves_fail {A} (e : error) : preserves R (fail e : M A).
Proof. by intros fs fs' r [= <- _]. Qed.

Lemma preserves_look {A} (f : FS.t -> outcome A) : preserves R (look f).
Proof. by intros fs fs' r [= <- _]. Qed.

Lemma preserves_bind {A B} (m : M A) (k : A -> M B) :
  preserves R m -> (forall a, preserves R (k a)) -> preserves R (bind m k).
Proof.
  intros Hm Hk fs fs' r. unfold bind.
  destruct (m fs) as [fs1 [a|e|]] eqn:E; specialize (Hm _ _ _ E).
  - intros Hrun. etrans; [exact Hm|]. by eapply Hk.
  - by intros [= <- _].
  - by intros [= <- _].
Qed.

Lemma preserves_forEach {A} (l : list A) (body : A -> M unit) :
  (forall x, x ∈ l -> preserves R (body x)) -> preserves R (forEach l body).
Proof.
  induction l as [|x l IH]; intros Hbody; simpl.
  - apply preserves_ret.
  - apply preserves_bind.
    + apply Hbody. by left.
    + intros _. apply IH. intros y Hy. apply Hbody. by right.
Qed.

End Preserves.

Section Replay.
Variable P : FS.path -> string -> Prop.

Lemma preserves_mkdirAll (p : FS.path) (e : error) :
  preserves (evolves P) (mkdirAll p e).
Proof.
  intros fs fs' r. rewrite mkdirAll_eq. intros [= <- _]. apply MkdirAll_evolves.
Qed.

Lemma preserves_writeFile (p : FS.path) (data : string) (e : error) :
  (forall d0, P p d0 -> d0 = data) -> preserves (evolves P) (writeFile p data e).
Proof.
  intros Hp fs fs' r. rewrite writeFile_eq. intros [= <- _].
  apply WriteFile_evolves. auto.
Qed.

(** A failure of [MkdirAll] stays. *)
Lemma MkdirAll_fails_again (p : FS.path) (fs fs' : FS.t) :
  (FS.MkdirAll p fs).2 = false -> evolves P fs fs' ->
  FS.node_at fs' p <> Some FS.Dir /\ FS.MkdirAll p fs' = (fs', false).
Proof.
  intros Hfail [Hd Hf Hn]. revert Hfail.
  induction p as [|c p IH].
  - done.
  - rewrite (MkdirAll_eq (c :: p) fs), (MkdirAll_eq (c :: p) fs').
    destruct (FS.node_at fs (c :: p)) as [[d|]|] eqn:E; simpl.
    + intros _. destruct (Hf _ _ E) as (d' & -> & _). done.
    + done.
    + destruct (FS.MkdirAll p fs) as [fs1 [|]] eqn:Ep; simpl; [done|]. intros _.
      destruct (IH eq_refl) as [Hnd Hagain].
      destruct (FS.node_at fs' (c :: p)) as [n|] eqn:E'.
      * destruct Hnd. apply (Hn c p E). by rewrite E'.
      * by rewrite Hagain.
Qed.

Lemma mkdirAll_replay (p : FS.path) (e : error) (fs1 fs2 fs' : FS.t) (r : outcome unit) :
  mkdirAll p e fs1 = (fs2, r) -> evolves P fs2 fs' -> mkdirAll p e fs' = (fs', r).
Proof.
  rewrite !mkdirAll_eq. intros [= <- <-] Hev.
  destruct (FS.MkdirAll p fs1).2 eqn:Hok.
  - apply MkdirAll_true in Hok. apply (ev_dir _ _ _ Hev) in Hok.
    by rewrite (MkdirAll_dir _ _ Hok).
  - rewrite (MkdirAll_false _ _ Hok) in Hev.
    by destruct (MkdirAll_fails_again p fs1 fs' Hok Hev) as [_ ->].
Qed.

Lemma WriteFile_same (p : FS.path) (data : string) (fs : FS.t) :
  FS.node_at fs p = Some (FS.File data) -> FS.WriteFile p data fs = (fs, true).
Proof.
  intros Hp. unfold FS.WriteFile. rewrite Hp.
  apply node_at_File in Hp as [_ Hp]. by rewrite insert_id.
Qed.

Lemma WriteFile_dir (p : FS.path) (data : string) (fs : FS.t) :
  FS.node_at fs p = Some FS.Dir -> FS.WriteFile p data fs = (fs, false).
Proof. intros Hp. unfold FS.WriteFile. by rewrite Hp. Qed.

Lemma writeFile_replay (p : FS.path) (data : string) (e : error) (fs1 fs2 fs' : FS.t) :
  writeFile p data e fs1 = (fs2, Ok tt) -> evolves P fs2 fs' -> P p data ->
  writeFile p data e fs' = (fs', Ok tt).
Proof.
  rewrite !writeFile_eq. destruct (FS.WriteFile p data fs1) as [fs ok] eqn:Hw.
  destruct ok; [|done]. simpl. intros [= <-] Hev HP.
  apply WriteFile_true in Hw as [Hr _]. apply ReadFile_node_at in Hr.
  destruct (ev_file _ _ _ Hev _ _ Hr) as (d' & Hp & Hk). rewrite (Hk HP) in Hp.
  by rewrite (WriteFile_same _ _ _ Hp).
Qed.

(** [MkdirAll] of a directory, then [WriteFile] of an entry of it. *)
Lemma mkdir_write_replay (dir : FS.path) (c data : string) (e1 e2 : error)
    (fs1 fs2 fs' : FS.t) (r : outcome unit) :
  bind (mkdirAll dir e1) (fun _ => writeFile (c :: dir) data e2) fs1 = (fs2, r) ->
  evolves P fs2 fs' ->
  (r = Ok tt -> P (c :: dir) data) ->
  bind (mkdirAll dir e1) (fun _ => writeFile (c :: dir) data e2) fs' = (fs', r).
Proof.
  unfold bind. rewrite !mkdirAll_eq.
  destruct (FS.MkdirAll dir fs1) as [fsa ok] eqn:Hm. destruct ok; simpl.
  - pose proof (MkdirAll_true dir fs1) as Hdir. rewrite Hm in Hdir.
    specialize (Hdir eq_refl). simpl in Hdir.
    rewrite writeFile_eq. destruct (FS.WriteFile (c :: dir) data fsa) as [fsb ok] eqn:Hw.
    simpl. intros [= <- <-] Hev HP.
    pose proof (WriteFile_evolves P (c :: dir) data fsa) as Hstep.
    destruct ok.
    + assert (Hdir' : FS.node_at fs' dir = Some FS.Dir).
      { apply (ev_dir _ _ _ Hev). apply WriteFile_true in Hw as [_ ->].
        rewrite node_at_insert_ne; [done|]. apply cons_ne_tail. }
      rewrite (MkdirAll_dir _ _ Hdir'). simpl.
      apply WriteFile_true in Hw as [Hr _]. apply ReadFile_node_at in Hr.
      destruct (ev_file _ _ _ Hev _ _ Hr) as (d' & Hp & Hk).
      rewrite (Hk (HP eq_refl)) in Hp.
      by rewrite writeFile_eq, (WriteFile_same _ _ _ Hp).
    + apply WriteFile_false in Hw as Heq. subst fsb.
      rewrite (MkdirAll_dir _ _ (ev_dir _ _ _ Hev _ Hdir)). simpl.
      assert (Ht : FS.node_at fsa (c :: dir) = Some FS.Dir).
      { unfold FS.WriteFile in Hw. rewrite Hdir in Hw.
        by destruct (FS.node_at fsa (c :: dir)) as [[|]|]. }
      by rewrite writeFile_eq, (WriteFile_dir _ _ _ (ev_dir _ _ _ Hev _ Ht)).
  - intros [= <- <-] Hev _.
    pose proof (MkdirAll_false dir fs1) as Heq. rewrite Hm in Heq.
    specialize (Heq eq_refl). simpl in Heq. subst fsa.
    destruct (MkdirAll_fails_again dir fs1 fs') as [_ ->]; [by rewrite Hm|done|done].
Qed.

End Replay.

(** ** The steps of [reconstructMGitObjects] run again *)

Section MappingStep.
Context `{JSON}.
Variable s : MGitStorage.

Lemma GetCommit_full (h : string) (fs : FS.t) (c : MCommit.MCommitStruct) :
  full_hash h ->
  GetCommit s h fs = Ok c <->
  exists data, FS.node_at fs (objectPath s h) = Some (FS.File data)
               /\ UnmarshalCommit data = Some c.
Proof.
  intros [Hg H40]. unfold GetCommit, resolveHash.
  rewrite (proj2 (Nat.ltb_ge _ _)) by lia.
  rewrite (proj2 (Nat.ltb_ge _ _)) by lia.
  rewrite slice_to_Some, slice_from_Some by lia. cbv zeta.
  rewrite Join_object by done. split.
  - destruct (FS.IsNotExist _); [done|]. unfold FS.ReadFile.
    destruct (FS.node_at fs (objectPath s h)) as [[data|]|]; try done.
    destruct (UnmarshalCommit data) as [c'|] eqn:Hu; [|done].
    intros [= <-]. eauto.
  - intros (data & Hn & Hu). rewrite (Stat_node_at _ _ _ Hn). simpl.
    unfold FS.ReadFile. by rewrite Hn, Hu.
Qed.

Lemma StoreCommit_full (commit : MCommit.MCommitStruct) :
  full_hash (MCommit.MGitHash commit) ->
  StoreCommit s commit
  = bind (mkdirAll (str_take 2 (MCommit.MGitHash commit) :: objectsDir s) ErrMkdirObject)
      (fun _ =>
         match MarshalCommit (MCommit.setType MGitCommitObject commit) with
         | None => fail ErrMarshalCommit
         | Some data => writeFile (objectPath s (MCommit.MGitHash commit)) data ErrWriteObject
         end).
Proof.
  intros [Hg H40]. unfold StoreCommit. rewrite decide_False; cycle 1.
  { intros E. rewrite E in H40. simpl in H40. lia. }
  change (MCommit.MGitHash (MCommit.setType MGitCommitObject commit))
    with (MCommit.MGitHash commit).
  rewrite slice_to_Some, slice_from_Some by lia.
  rewrite Join_shard, Join_plain by apply Hg. done.
Qed.

Lemma StoreCommit_evolves (P : FS.path -> string -> Prop)
    (commit : MCommit.MCommitStruct) (fs fs' : FS.t) (r : outcome unit) (e : error) :
  (forall p data, isObjectPath s p -> P p data -> is_Some (UnmarshalCommit data)) ->
  full_hash (MCommit.MGitHash commit) ->
  GetCommit s (MCommit.MGitHash commit) fs = Err e ->
  StoreCommit s commit fs = (fs', r) ->
  evolves P fs fs'.
Proof.
  intros HP Hh Hget. rewrite StoreCommit_full by done. unfold bind.
  rewrite mkdirAll_eq.
  pose proof (MkdirAll_evolves P (str_take 2 (MCommit.MGitHash commit) :: objectsDir s) fs)
    as Hmk.
  pose proof (MkdirAll_file_inv (str_take 2 (MCommit.MGitHash commit) :: objectsDir s)
                (objectPath s (MCommit.MGitHash commit)) fs) as Hinv.
  destruct (FS.MkdirAll _ fs) as [fs1 [|]]; simpl in *; [|by intros [= <- _]].
  destruct (MarshalCommit _) as [data|]; [|by intros [= <- _]].
  rewrite writeFile_eq. intros [= <- _].
  etrans; [exact Hmk|]. apply WriteFile_evolves.
  intros d0 Hd0 HPd. apply Hinv in Hd0.
  destruct (HP _ _ ltac:(by eexists _, _) HPd) as [c Hc].
  assert (GetCommit s (MCommit.MGitHash commit) fs = Ok c) as Hok.
  { apply GetCommit_full; eauto. }
  congruence.
Qed.

Lemma reconstructMapping_preserves (P : FS.path -> string -> Prop) (repo : Repository)
    (mappings : list Mapping.NostrCommitMapping) (mapping : Mapping.NostrCommitMapping) :
  (forall p data, isObjectPath s p -> P p data -> is_Some (UnmarshalCommit data)) ->
  full_hash (Mapping.MGitHash mapping) ->
  preserves (evolves P) (reconstructMapping s repo mappings mapping).
Proof.
  intros HP Hh fs fs' r. unfold reconstructMapping.
  destruct (GetCommit s (Mapping.MGitHash mapping) fs) as [c|e|] eqn:Hget;
    [by intros [= <- _]| |by intros [= <- _]].
  destruct (CommitObject repo _) as [g|]; [|by intros [= <- _]].
  pose proof (StoreCommit_evolves P (reconstructedCommit mappings mapping g) fs) as Hst.
  destruct (StoreCommit s _ fs) as [fs1 r1].
  specialize (Hst fs1 r1 e HP Hh Hget eq_refl).
  rewrite printShort_result.
  by destruct r1 as [[]| |]; intros [= <- _].
Qed.

Lemma reconstructMapping_replay (repo : Repository)
    (mappings : list Mapping.NostrCommitMapping) (mapping : Mapping.NostrCommitMapping)
    (fs1 fs2 fs' : FS.t) :
  decodes ->
  full_hash (Mapping.MGitHash mapping) ->
  reconstructMapping s repo mappings mapping fs1 = (fs2, Ok tt) ->
  evolves (decodedObject s) fs2 fs' ->
  reconstructMapping s repo mappings mapping fs' = (fs', Ok tt).
Proof.
  intros Hdec Hh. unfold reconstructMapping.
  set (h := Mapping.MGitHash mapping).
  assert (Hkeep : forall c fs, GetCommit s h fs = Ok c -> evolves (decodedObject s) fs fs' ->
                    exists c', GetCommit s h fs' = Ok c').
  { intros c fs Hget Hev. apply GetCommit_full in Hget as (data & Hn & Hu); [|done].
    destruct (ev_file _ _ _ Hev _ _ Hn) as (d' & Hn' & Hk).
    rewrite Hk in Hn'.
    - exists c. apply GetCommit_full; eauto.
    - split; [by eexists _, _|by rewrite Hu]. }
  pose proof (GetCommit_no_panic s h fs') as Hnp.
  destruct (GetCommit s h fs1) as [c|e|] eqn:Hget; [| |done].
  { intros [= <-] Hev. destruct (Hkeep c fs1 Hget Hev) as [c' ->]. done. }
  destruct (GetCommit s h fs') as [c'|e'|] eqn:Hget'; [done| |done].
  destruct (CommitObject repo _) as [g|]; [|done].
  set (commit := reconstructedCommit mappings mapping g).
  rewrite !StoreCommit_full by done.
  change (MCommit.MGitHash commit) with h.
  destruct (MarshalCommit _) as [data|] eqn:Hmar.
  - pose proof (mkdir_write_replay (decodedObject s) (str_take 2 h :: objectsDir s)
                  (str_drop 2 h) data ErrMkdirObject ErrWriteObject fs1) as Hrep.
    change (str_drop 2 h :: str_take 2 h :: objectsDir s) with (objectPath s h) in Hrep.
    destruct (bind _ _ fs1) as [fsa ra] eqn:Hrun.
    rewrite printShort_result.
    intros Hres Hev.
    assert (fsa = fs2) as ->.
    { destruct ra as [[]| |]; [destruct (7 <=? _)%nat|..]; by injection Hres. }
    rewrite (Hrep fs2 fs' ra eq_refl Hev).
    + rewrite printShort_result.
      destruct ra as [[]| |]; [destruct (7 <=? _)%nat|..]; done.
    + intros _. split; [by eexists _, _|]. by eapply Hdec.
  - unfold bind at 1 2.
    pose proof (mkdirAll_replay (decodedObject s) (str_take 2 h :: objectsDir s)
                  ErrMkdirObject fs1) as Hrep.
    destruct (mkdirAll _ _ fs1) as [fsa ra].
    intros Hres Hev.
    assert (fsa = fs2) as -> by (by destruct ra as [[]| |]; injection Hres).
    rewrite (Hrep fs2 fs' ra eq_refl Hev).
    by destruct ra as [[]| |].
Qed.

End MappingStep.

(** ** Branch names and their files *)

Lemma split_slash_nonempty (x : string) : FS.split_slash x <> [].
Proof.
  destruct x as [|c x]; simpl; [done|].
  destruct (Ascii.eqb c "/"); [done|]. by destruct (FS.split_slash x).
Qed.

Lemma join_slash_cons (c : ascii) (x : string) (l : list string) :
  join_slash (String c x :: l) = String c (join_slash (x :: l)).
Proof. by destruct l. Qed.

Lemma join_split_slash (x : string) : join_slash (FS.split_slash x) = x.
Proof.
  induction x as [|c x IH]; [done|]. simpl.
  destruct (Ascii.eqb c "/") eqn:Ec.
  - apply Ascii.eqb_eq in Ec as ->.
    pose proof (split_slash_nonempty x).
    destruct (FS.split_slash x) as [|y ys]; [done|].
    change (join_slash ("" :: y :: ys)) with ("/" +:+ join_slash (y :: ys)).
    by rewrite IH.
  - destruct (FS.split_slash x) as [|y ys].
    + simpl in IH. by subst x.
    + by rewrite join_slash_cons, IH.
Qed.

Lemma split_slash_inj (x y : string) : FS.split_slash x = FS.split_slash y -> x = y.
Proof.
  intros E. by rewrite <- (join_split_slash x), <- (join_split_slash y), E.
Qed.

Lemma push_plain (p : FS.path) (c : string) : plain c -> FS.push p c = c :: p.
Proof.
  intros (_ & H1 & H2 & H3). unfold FS.push.
  rewrite decide_False by tauto. by rewrite decide_False.
Qed.

Lemma fold_left_push_plain (l : list string) (p : FS.path) :
  Forall plain l -> fold_left FS.push l p = reverse l ++ p.
Proof.
  intros Hl. revert p. induction Hl as [|c l Hc Hl IH]; intros p; [done|].
  simpl. rewrite reverse_cons, <- app_assoc. simpl. by rewrite IH, push_plain.
Qed.

Section Branches.
Variable s : MGitStorage.

Lemma Join_ref (name : string) :
  branchName_ok name ->
  FS.Join (RootDir s) [normRef (Fmt.Sprintf "refs/heads/%s" [Fmt.ArgString name])]
  = refFile s name.
Proof.
  intros Hok.
  assert (Fmt.Sprintf "refs/heads/%s" [Fmt.ArgString name] = "refs/heads/" +:+ name) as ->.
  { cbn. by rewrite append_nil_r. }
  unfold normRef. change (HasPrefix ("refs/heads/" +:+ name) "refs/") with true. cbv iota.
  unfold FS.Join. simpl flat_map. rewrite app_nil_r.
  change (FS.split_slash ("refs/heads/" +:+ name))
    with ("refs" :: "heads" :: FS.split_slash name).
  simpl fold_left. rewrite !push_plain by (by vm_compute).
  by apply fold_left_push_plain.
Qed.

(** The file of a branch is an entry of a directory. *)
Lemma refFile_entry (name : string) :
  branchName_ok name ->
  exists c dir, refFile s name = c :: dir /\ plain c.
Proof.
  intros Hok. unfold refFile. unfold branchName_ok in Hok.
  pose proof (split_slash_nonempty name) as Hne.
  destruct (FS.split_slash name) as [|x l] using rev_ind; [done|].
  rewrite reverse_snoc. apply Forall_app in Hok as [_ Hx].
  eexists _, _. split; [done|]. by inversion Hx.
Qed.

Lemma refFile_inj (x y : string) : refFile s x = refFile s y -> x = y.
Proof.
  unfold refFile. intros E%app_inv_tail. apply split_slash_inj.
  by apply (inj reverse).
Qed.

Lemma refFile_not_object (name : string) : ~ isObjectPath s (refFile s name).
Proof.
  intros (n & d & E). unfold refFile, objectsDir in E.
  change (n :: d :: "objects" :: RootDir s) with ([n; d; "objects"] ++ RootDir s) in E.
  change (reverse (FS.split_slash name) ++ "heads" :: "refs" :: RootDir s)
    with (reverse (FS.split_slash name) ++ ["heads"; "refs"] ++ RootDir s) in E.
  rewrite app_assoc in E. apply app_inv_tail in E.
  apply (f_equal reverse) in E. rewrite reverse_app in E. done.
Qed.

Lemma refFile_not_entry (name a b : string) :
  b <> "refs" -> refFile s name <> a :: b :: RootDir s.
Proof.
  intros Hb E. unfold refFile in E.
  change (a :: b :: RootDir s) with ([a; b] ++ RootDir s) in E.
  change (reverse (FS.split_slash name) ++ "heads" :: "refs" :: RootDir s)
    with (reverse (FS.split_slash name) ++ ["heads"; "refs"] ++ RootDir s) in E.
  rewrite app_assoc in E. apply app_inv_tail in E.
  apply (f_equal reverse) in E. rewrite reverse_app in E.
  injection E as E _. by destruct Hb.
Qed.

Lemma refFile_not_top (name a : string) : refFile s name <> a :: RootDir s.
Proof.
  intros E. apply (f_equal length) in E. unfold refFile in E.
  rewrite length_app in E. simpl in E. lia.
Qed.

End Branches.

(** ** Loops run again *)

Lemma forEach_replay {A : Type} (R : A -> relation FS.t) (step : A -> M unit)
    (l : list A) :
  (forall x, PreOrder (R x)) ->
  Forall (fun x => forall fs1 fs2 fs',
            step x fs1 = (fs2, Ok tt) -> R x fs2 fs' -> step x fs' = (fs', Ok tt)) l ->
  ForallOrdPairs (fun x y => preserves (R x) (step y)) l ->
  forall fs1 fs2 fs',
    forEach l step fs1 = (fs2, Ok tt) ->
    Forall (fun x => R x fs2 fs') l ->
    forEach l step fs' = (fs', Ok tt).
Proof.
  intros HR Hstep Hord. induction Hstep as [|x l Hx Hl IH]; intros fs1 fs2 fs' Hrun Hend.
  { done. }
  simpl in Hrun. apply bind_Ok in Hrun as (fsa & [] & Hfirst & Hrest).
  inversion Hord as [|? ? Hlater Hord']; subst.
  inversion Hend as [|? ? Hxend Hend']; subst.
  assert (Hpres : R x fsa fs2).
  { apply (preserves_forEach (R x) l step) in Hrest; [done|].
    intros y Hy. by eapply (proj1 (Forall_forall _ _) Hlater). }
  simpl. rewrite (bind_eq _ _ fs' fs' tt).
  - eapply IH; eauto.
  - eapply Hx; [exact Hfirst|]. by etrans.
Qed.

Lemma ForallOrdPairs_all {A : Type} (R : A -> A -> Prop) (l : list A) :
  (forall x y, y ∈ l -> R x y) -> ForallOrdPairs R l.
Proof.
  induction l as [|x l IH]; intros HR; constructor.
  - apply Forall_forall. intros y Hy. apply HR. by right.
  - apply IH. intros a b Hb. apply HR. by right.
Qed.

Lemma forEach_mkdirAll_replay (P : FS.path -> string -> Prop) (dirs : list FS.path)
    (e : FS.path -> error) (fs1 fs2 fs' : FS.t) :
  forEach dirs (fun dir => mkdirAll dir (e dir)) fs1 = (fs2, Ok tt) ->
  evolves P fs2 fs' ->
  forEach dirs (fun dir => mkdirAll dir (e dir)) fs' = (fs', Ok tt).
Proof.
  intros Hrun Hev.
  apply (forEach_replay (fun _ => evolves P) _ dirs) with fs1 fs2; try done.
  - intros _. apply _.
  - apply Forall_forall. intros dir _ fsa fsb fsc Hm Hevo.
    by eapply mkdirAll_replay.
  - apply ForallOrdPairs_all. intros _ y _. apply preserves_mkdirAll.
  - by apply Forall_forall.
Qed.

Section RefStep.
Context `{JSON}.
Variable s : MGitStorage.

Lemma UpdateRef_branch (name mgitHash : string) :
  branchName_ok name ->
  exists c dir,
    refFile s name = c :: dir
    /\ UpdateRef s (Fmt.Sprintf "refs/heads/%s" [Fmt.ArgString name]) mgitHash
       = bind (mkdirAll dir ErrMkdirRef) (fun _ => writeFile (c :: dir) mgitHash ErrWriteRef).
Proof.
  intros Hok. destruct (refFile_entry s name Hok) as (c & dir & E & Hc).
  exists c, dir. split; [done|]. unfold UpdateRef. cbv zeta.
  rewrite Join_ref, E by done. unfold FS.DirOf.
  rewrite decide_False; [done|]. intros [->| ->].
  - by apply plain_not_slash in Hc.
  - by destruct Hc as (_ & _ & _ & ?).
Qed.

Lemma reconstructRef_preserves (P : FS.path -> string -> Prop)
    (mappings : list Mapping.NostrCommitMapping) (ref : plumbing.Reference) :
  (plumbing.IsBranch ref = true ->
   branchName_ok (plumbing.Short ref)
   /\ forall d0, ~ P (refFile s (plumbing.Short ref)) d0) ->
  preserves (evolves P) (reconstructRef s mappings ref).
Proof.
  intros Hb. unfold reconstructRef.
  destruct (plumbing.IsBranch ref); [|apply preserves_ret; apply _].
  destruct (Hb eq_refl) as [Hok HP].
  destruct (lookupMGitHash mappings _) as [h|]; [|apply preserves_ret; apply _].
  destruct (UpdateRef_branch (plumbing.Short ref) h Hok) as (c & dir & E & ->).
  rewrite E in HP. intros fs fs' r.
  assert (Hpres : preserves (evolves P)
            (bind (mkdirAll dir ErrMkdirRef) (fun _ => writeFile (c :: dir) h ErrWriteRef))).
  { apply preserves_bind; [apply _|apply preserves_mkdirAll|].
    intros _. apply preserves_writeFile. intros d0 Hd0. by destruct (HP d0). }
  specialize (Hpres fs).
  destruct (bind _ _ fs) as [fsa ra]. specialize (Hpres fsa ra eq_refl).
  rewrite printShort_result.
  destruct ra as [[]| |]; [destruct (7 <=? _)%nat|..]; by intros [= <- _].
Qed.

Lemma reconstructRef_replay (mappings : list Mapping.NostrCommitMapping)
    (ref : plumbing.Reference) (fs1 fs2 fs' : FS.t) :
  (plumbing.IsBranch ref = true -> branchName_ok (plumbing.Short ref)) ->
  reconstructRef s mappings ref fs1 = (fs2, Ok tt) ->
  evolves (fun p _ => plumbing.IsBranch ref = true
                      /\ p = refFile s (plumbing.Short ref)) fs2 fs' ->
  reconstructRef s mappings ref fs' = (fs', Ok tt).
Proof.
  intros Hb. unfold reconstructRef.
  destruct (plumbing.IsBranch ref); [|done].
  destruct (lookupMGitHash mappings _) as [h|]; [|done].
  destruct (UpdateRef_branch (plumbing.Short ref) h (Hb eq_refl)) as (c & dir & E & ->).
  rewrite E.
  pose proof (mkdir_write_replay (fun p _ => true = true /\ p = c :: dir) dir c h
                ErrMkdirRef ErrWriteRef fs1) as Hrep.
  destruct (bind _ _ fs1) as [fsa ra].
  rewrite printShort_result. intros Hres Hev.
  assert (fsa = fs2) as ->.
  { destruct ra as [[]| |]; [destruct (7 <=? _)%nat|..]; by injection Hres. }
  rewrite (Hrep fs2 fs' ra eq_refl Hev) by done.
  rewrite printShort_result.
  destruct ra as [[]| |]; [destruct (7 <=? _)%nat|..]; done.
Qed.

End RefStep.

Lemma evolves_weaken (P P' : FS.path -> string -> Prop) (fs fs' : FS.t) :
  (forall p d, P' p d -> P p d) -> evolves P fs fs' -> evolves P' fs fs'.
Proof.
  intros HP [Hd Hf Hn]. constructor; [done| |done].
  intros p d Hp. destruct (Hf p d Hp) as (d' & ? & Hk). exists d'. auto.
Qed.

Lemma writeFile_again (p : FS.path) (data : string) (e : error) (fs fs' : FS.t) :
  writeFile p data e fs = (fs', Ok tt) ->
  writeFile p data e fs' = (fs', Ok tt) /\ FS.node_at fs' p = Some (FS.File data).
Proof.
  intros Hw. split.
  - by apply (writeFile_replay (fun _ _ => True) p data e fs fs' fs').
  - rewrite writeFile_eq in Hw.
    destruct (FS.WriteFile p data fs) as [fsa ok] eqn:E. destruct ok; [|done].
    injection Hw as <-. apply WriteFile_true in E as [E _]. by apply ReadFile_node_at.
Qed.

Section InitializeStep.
Context `{JSON}.
Variable s : MGitStorage.

Lemma plain_HEAD : plain "HEAD".
Proof. by vm_compute. Qed.

Lemma Initialize_preserves (P : FS.path -> string -> Prop) :
  (forall d0, ~ P ("HEAD" :: RootDir s) d0) -> preserves (evolves P) (Initialize s).
Proof.
  intros HP. unfold Initialize.
  apply preserves_bind; [apply _|apply preserves_mkdirAll|]. intros _.
  apply preserves_bind; [apply _| |].
  { apply preserves_forEach; [apply _|]. intros dir _. apply preserves_mkdirAll. }
  intros _. apply preserves_bind; [apply _|apply preserves_look; apply _|].
  intros st. destruct (FS.IsNotExist st); [|apply preserves_ret; apply _].
  rewrite Join_plain by apply plain_HEAD.
  apply preserves_writeFile. intros d0 Hd0. by destruct (HP d0).
Qed.

Lemma Initialize_replay (P : FS.path -> string -> Prop) (fs1 fs2 fs' : FS.t) (d : string) :
  Initialize s fs1 = (fs2, Ok tt) ->
  evolves P fs2 fs' ->
  FS.node_at fs' ("HEAD" :: RootDir s) = Some (FS.File d) ->
  Initialize s fs' = (fs', Ok tt).
Proof.
  intros Hrun Hev Hhead.
  apply (evolves_weaken P (fun _ _ => False)) in Hev; [|done].
  unfold Initialize in *.
  apply bind_Ok in Hrun as (fsa & [] & Hroot & Hrun).
  apply bind_Ok in Hrun as (fsb & [] & Hdirs & Hrun).
  assert (Hlast : evolves (fun _ _ => False) fsb fs2).
  { revert Hrun. apply preserves_bind; [apply _|apply preserves_look; apply _|].
    intros st. destruct (FS.IsNotExist st); [|apply preserves_ret; apply _].
    by apply preserves_writeFile. }
  assert (Hmid : evolves (fun _ _ => False) fsa fsb).
  { revert Hdirs. apply preserves_forEach; [apply _|].
    intros dir _. apply preserves_mkdirAll. }
  rewrite (bind_eq _ _ fs' fs' tt); cycle 1.
  { eapply mkdirAll_replay; [exact Hroot|]. etrans; [exact Hmid|]. by etrans. }
  rewrite (bind_eq _ _ fs' fs' tt); cycle 1.
  { eapply (forEach_mkdirAll_replay _ _ ErrMkdir); [exact Hdirs|]. by etrans. }
  unfold bind, look. rewrite Join_plain by apply plain_HEAD.
  by rewrite (Stat_node_at _ _ _ Hhead).
Qed.

End InitializeStep.

Section HeadStep.
Context `{JSON}.
Variable repoPath : FS.path.

Lemma plain_mgit : plain ".mgit".
Proof. by vm_compute. Qed.

Lemma Join_HEAD : FS.Join repoPath [".mgit"; "HEAD"] = "HEAD" :: ".mgit" :: repoPath.
Proof. by rewrite Join_cons_plain, Join_plain by (by vm_compute). Qed.

Lemma reconstructHEAD_preserves (P : FS.path -> string -> Prop)
    (mappings : list Mapping.NostrCommitMapping) (head : plumbing.Reference) :
  (forall d0, ~ P ("HEAD" :: ".mgit" :: repoPath) d0) ->
  preserves (evolves P) (reconstructHEAD repoPath mappings head).
Proof.
  intros HP. unfold reconstructHEAD. rewrite Join_HEAD.
  assert (Hw : forall data e, preserves (evolves P)
                 (writeFile ("HEAD" :: ".mgit" :: repoPath) data e)).
  { intros data e. apply preserves_writeFile. intros d0 Hd0. by destruct (HP d0). }
  destruct (plumbing.IsBranch head); [apply Hw|].
  destruct (decide _); [apply preserves_fail; apply _|].
  apply preserves_bind; [apply _|apply Hw|].
  intros _ fs fs' r. rewrite printShort_result. by intros [= <- _].
Qed.

Lemma reconstructHEAD_again (mappings : list Mapping.NostrCommitMapping)
    (head : plumbing.Reference) (fs fs' : FS.t) :
  reconstructHEAD repoPath mappings head fs = (fs', Ok tt) ->
  reconstructHEAD repoPath mappings head fs' = (fs', Ok tt)
  /\ exists d, FS.node_at fs' ("HEAD" :: ".mgit" :: repoPath) = Some (FS.File d).
Proof.
  unfold reconstructHEAD. rewrite Join_HEAD.
  destruct (plumbing.IsBranch head).
  { intros [Hw Hn]%writeFile_again. eauto. }
  destruct (decide _); [done|].
  intros (fsa & [] & Hw & Hp)%bind_Ok.
  rewrite printShort_result in Hp.
  assert (fsa = fs') as -> by congruence.
  apply writeFile_again in Hw as [Hw Hn]. split; [|eauto].
  rewrite (bind_eq _ _ fs' fs' tt) by done. by rewrite printShort_result.
Qed.

End HeadStep.

(** ** [reconstructMGitObjects] run twice *)

Section Twice.
Context `{JSON}.
Variable repo : Repository.
Variable repoPath : FS.path.

Lemma Join_table :
  FS.Join repoPath [".mgit"; "mappings"; "hash_mappings.json"]
  = "hash_mappings.json" :: "mappings" :: ".mgit" :: repoPath.
Proof. by rewrite !Join_cons_plain by (by vm_compute). Qed.

Lemma branches_apart (refs : list plumbing.Reference) :
  NoDup (plumbing.Short <$> filter (fun r => plumbing.IsBranch r = true) refs) ->
  ForallOrdPairs (fun x y =>
    plumbing.IsBranch x = true -> plumbing.IsBranch y = true ->
    plumbing.Short x <> plumbing.Short y) refs.
Proof.
  induction refs as [|x refs IH]; intros Hnd; constructor.
  - apply Forall_forall. intros y Hy Hx Hyb E.
    rewrite filter_cons_True in Hnd by done. rewrite fmap_cons in Hnd.
    apply NoDup_cons in Hnd as [Hnin _]. apply Hnin. rewrite E.
    apply list_elem_of_fmap. exists y. split; [done|].
    by apply list_elem_of_filter.
  - apply IH. destruct (decide (plumbing.IsBranch x = true)).
    + rewrite filter_cons_True in Hnd by done. rewrite fmap_cons in Hnd.
      by apply NoDup_cons in Hnd as [_ ?].
    + by rewrite filter_cons_False in Hnd.
Qed.

Lemma branch_steps_apart (s : MGitStorage)
    (mappings : list Mapping.NostrCommitMapping) (refs : list plumbing.Reference) :
  Forall (fun r => plumbing.IsBranch r = true -> branchName_ok (plumbing.Short r)) refs ->
  NoDup (plumbing.Short <$> filter (fun r => plumbing.IsBranch r = true) refs) ->
  ForallOrdPairs (fun x y =>
    preserves (evolves (fun p _ => plumbing.IsBranch x = true
                                   /\ p = refFile s (plumbing.Short x)))
              (reconstructRef s mappings y)) refs.
Proof.
  intros Hnames Hap%branches_apart.
  induction Hap as [|x l Hx Hl IH]; constructor.
  - inversion Hnames as [|? ? _ Hnames']; subst.
    rewrite Forall_forall in Hx, Hnames'. apply Forall_forall. intros y Hy.
    apply reconstructRef_preserves. intros Hyb. split; [by apply Hnames'|].
    intros _ [Hxb E]. apply refFile_inj in E. by apply (Hx y Hy Hxb Hyb).
  - apply IH. by inversion Hnames.
Qed.

(** C5, amended: after a run of [reconstructMGitObjects] that ended well,
    a second run against the same Git repository and the same mapping
    table ends well and leaves the storage directory, with the object
    store, every branch reference and [HEAD], as the first run left it.
    This holds when every overlay hash of the table is a full hash of at
    least 40 characters, the names of the branches are distinct and made
    of plain components, and what is written for a record decodes. *)
Theorem reconstruct_again_unchanged (data : string)
    (mappings : list Mapping.NostrCommitMapping) (refs : list plumbing.Reference)
    (fs fs1 : FS.t) :
  decodes ->
  FS.ReadFile (FS.Join repoPath [".mgit"; "mappings"; "hash_mappings.json"]) fs
    = Some data ->
  UnmarshalMappings data = Some mappings ->
  Forall (fun m => full_hash (Mapping.MGitHash m)) mappings ->
  References repo = Some refs ->
  Forall (fun r => plumbing.IsBranch r = true -> branchName_ok (plumbing.Short r)) refs ->
  NoDup (plumbing.Short <$> filter (fun r => plumbing.IsBranch r = true) refs) ->
  reconstructMGitObjects (Some repo) repoPath fs = (fs1, Ok tt) ->
  reconstructMGitObjects (Some repo) repoPath fs1 = (fs1, Ok tt).
Proof.
  intros Hdec Hfile Hun Hfull Hrefs Hnames Hnd Hrun.
  unfold reconstructMGitObjects in *. cbv zeta in *.
  rewrite Join_table in *. rewrite Hrefs in *.
  rewrite (Join_plain repoPath ".mgit") in * by apply plain_mgit.
  set (s := {| RootDir := ".mgit" :: repoPath |}) in *.
  set (tab := "hash_mappings.json" :: "mappings" :: ".mgit" :: repoPath) in *.
  set (dirs := [_; _; _; _]) in *.
  apply ReadFile_node_at in Hfile.
  (* the first run, step by step *)
  apply bind_Ok in Hrun as (fsa & [] & Hdirs & Hrun).
  assert (Hfile_a : FS.node_at fsa tab = Some (FS.File data)).
  { pose proof (forEach_mkdirAll_node_at dirs (fun _ => ErrRcMkdir) tab fs _ Hfile) as Hn.
    cbv beta in Hn. by rewrite Hdirs in Hn. }
  apply bind_Ok in Hrun as (fsa' & tbl & Hlook & Hrun).
  unfold look in Hlook. rewrite (Stat_node_at _ _ _ Hfile_a) in Hlook. simpl in Hlook.
  unfold FS.ReadFile in Hlook. rewrite Hfile_a, Hun in Hlook.
  injection Hlook as <- <-.
  apply bind_Ok in Hrun as (fsb & [] & Hinit & Hrun).
  assert (Hinit' : Initialize s fsa = (fsb, Ok tt)).
  { by destruct (Initialize s fsa) as [? [[]| |]]. }
  clear Hinit.
  apply bind_Ok in Hrun as (fsc & [] & Hmaps & Hrun).
  apply bind_Ok in Hrun as (fsd & [] & Hbranches & Hrun).
  destruct (Head repo) as [head|]; [|done].
  (* what the steps keep *)
  assert (Hphase : forall P : FS.path -> string -> Prop,
            (forall d0, ~ P ("HEAD" :: ".mgit" :: repoPath) d0) ->
            (forall p d0, isObjectPath s p -> P p d0 -> is_Some (UnmarshalCommit d0)) ->
            (forall name d0, ~ P (refFile s name) d0) ->
            evolves P fsa fsb /\ evolves P fsb fsc /\ evolves P fsc fsd
            /\ evolves P fsd fs1).
  { intros P Hhead Hobj Hbr. split; [|split; [|split]].
    - revert Hinit'. by apply Initialize_preserves.
    - revert Hmaps. apply preserves_forEach; [apply _|]. intros m Hm.
      apply reconstructMapping_preserves; [done|].
      by apply (proj1 (Forall_forall _ _) Hfull).
    - revert Hbranches. apply preserves_forEach; [apply _|]. intros r Hr.
      apply reconstructRef_preserves. intros Hb. split; [|done].
      by apply (proj1 (Forall_forall _ _) Hnames).
    - revert Hrun. by apply reconstructHEAD_preserves. }
  destruct (Hphase (fun p _ => p = tab)) as (Ht1 & Ht2 & Ht3 & Ht4).
  { intros _ E. discriminate E. }
  { intros p d0 (n & d & ->) E. apply (f_equal length) in E. simpl in E. lia. }
  { intros name _. by apply refFile_not_entry. }
  destruct (Hphase (decodedObject s)) as (Ho1 & Ho2 & Ho3 & Ho4).
  { intros d0 [(n & d & E) _]. apply (f_equal length) in E. simpl in E. lia. }
  { by intros p d0 _ [_ ?]. }
  { intros name d0 [Hp _]. by apply refFile_not_object in Hp. }
  clear Hphase.
  destruct (reconstructHEAD_again repoPath mappings head fsd fs1 Hrun)
    as [Hhead_again [dh Hhead_file]].
  (* the second run *)
  rewrite (bind_eq _ _ fs1 fs1 tt); cycle 1.
  { eapply (forEach_mkdirAll_replay _ dirs (fun _ => ErrRcMkdir)); [exact Hdirs|].
    etrans; [exact Ht1|]. etrans; [exact Ht2|]. by etrans. }
  rewrite (bind_eq _ _ fs1 fs1 mappings); cycle 1.
  { assert (Hfile_1 : FS.node_at fs1 tab = Some (FS.File data)).
    { assert (Hev : evolves (fun p _ => p = tab) fsa fs1).
      { etrans; [exact Ht1|]. etrans; [exact Ht2|]. by etrans. }
      destruct (ev_file _ _ _ Hev _ _ Hfile_a) as (d' & Hn & Hk).
      by rewrite (Hk eq_refl) in Hn. }
    unfold look. rewrite (Stat_node_at _ _ _ Hfile_1). simpl.
    unfold FS.ReadFile. by rewrite Hfile_1, Hun. }
  rewrite (bind_eq _ _ fs1 fs1 tt); cycle 1.
  { rewrite (Initialize_replay s (decodedObject s) fsa fsb fs1 dh); try done.
    etrans; [exact Ho2|]. by etrans. }
  rewrite (bind_eq _ _ fs1 fs1 tt); cycle 1.
  { apply (forEach_replay (fun _ => evolves (decodedObject s)) _ mappings) with fsb fsc;
      try done.
    - intros _. apply _.
    - eapply Forall_impl; [exact Hfull|]. intros m Hm fsx fsy fsz Hstep Hev.
      by eapply reconstructMapping_replay.
    - apply ForallOrdPairs_all. intros _ m Hm.
      apply reconstructMapping_preserves; [by intros p d0 _ [_ ?]|].
      by apply (proj1 (Forall_forall _ _) Hfull).
    - apply Forall_forall. intros _ _. by etrans. }
  rewrite (bind_eq _ _ fs1 fs1 tt); [done|].
  apply (forEach_replay
           (fun x => evolves (fun p _ => plumbing.IsBranch x = true
                                         /\ p = refFile s (plumbing.Short x)))
           _ refs) with fsc fsd; try done.
  - intros x. apply _.
  - eapply Forall_impl; [exact Hnames|]. intros r Hr fsx fsy fsz Hstep Hev.
    by eapply reconstructRef_replay.
  - by apply branch_steps_apart.
  - apply Forall_forall. intros x _.
    revert Hrun. apply reconstructHEAD_preserves.
    intros _ [_ E]. symmetry in E. by apply refFile_not_top in E.
Qed.

End Twice.

Lemma tableCodec_decodes (commits : list (string * MCommit.MCommitStruct))
    (tables : list (string * list Mapping.NostrCommitMapping)) :
  decodes (H := tableCodec commits tables).
Proof.
  intros c data. simpl. induction commits as [|[n y] rest IH]; simpl; [done|].
  destruct (decide (y = c)) as [->|Hne].
  - intros [= ->]. by rewrite decide_True.
  - intros Hrest. destruct (decide (n = data)); [done|]. by apply IH.
Qed.

Lemma reconstruct_again_unchanged_witness :
  reconstructMGitObjects (H := exCodec) (Some (exRepo exBranch)) []
    (reconstructMGitObjects (H := exCodec) (Some (exRepo exBranch)) [] exTableStore).1
  = ((reconstructMGitObjects (H := exCodec) (Some (exRepo exBranch)) [] exTableStore).1,
     Ok tt).
Proof.
  apply (reconstruct_again_unchanged (H := exCodec) (exRepo exBranch) []
           "table.json" exMappings [exBranch] exTableStore).
  - apply tableCodec_decodes.
  - reflexivity.
  - reflexivity.
  - apply (bool_decide_unpack _). vm_compute. exact I.
  - reflexivity.
  - apply (bool_decide_unpack _). vm_compute. exact I.
  - apply (bool_decide_unpack _). vm_compute. exact I.
  - apply injective_projections; [reflexivity|].
    apply (bool_decide_unpack _). vm_compute. exact I.
Defined.

(** C5 as stated fails: the table names the second object by the seven
    characters that the first and the third share.  The first run skips
    it, because the prefix then finds the first object alone; the second
    run finds two objects for the prefix and stores a new one. *)
Lemma reconstruct_again_adds_object :
  let run1 :=
    reconstructMGitObjects (H := exShortCodec) (Some (exRepo exBranch)) [] exTableStore in
  let run2 :=
    reconstructMGitObjects (H := exShortCodec) (Some (exRepo exBranch)) [] run1.1 in
  run1.2 = Ok tt /\ run2.2 = Ok tt
  /\ run1.1 !! objectPath NewMGitStorage "abcdefg" = None
  /\ run2.1 !! objectPath NewMGitStorage "abcdefg" = Some (FS.File "2.json")
  /\ run2.1 <> run1.1.
Proof.
  cbv zeta.
  assert (Hnone :
    (reconstructMGitObjects (H := exShortCodec) (Some (exRepo exBranch)) [] exTableStore).1
      !! objectPath NewMGitStorage "abcdefg" = None) by by_evaluation.
  assert (Hsome :
    (reconstructMGitObjects (H := exShortCodec) (Some (exRepo exBranch)) []
       (reconstructMGitObjects (H := exShortCodec) (Some (exRepo exBranch)) []
          exTableStore).1).1
      !! objectPath NewMGitStorage "abcdefg" = Some (FS.File "2.json")) by by_evaluation.
  split; [by_evaluation|]. split; [by_evaluation|]. split; [done|]. split; [done|].
  intros E. rewrite E in Hsome. congruence.
Qed.

(** * Further properties of the storage and the commands *)

(** * Hashes as text *)

(** ** [encoding/hex] there and back *)

Lemma DecodeString_two (c : ascii) (rest : string) :
  Hex.DecodeString
    (String (Hex.nibble_char (Z.shiftr (byte_of_ascii c) 4))
       (String (Hex.nibble_char (Z.land (byte_of_ascii c) 15)) rest))
  = String c (Hex.DecodeString rest).
Proof. by destruct c as [[] [] [] [] [] [] [] []]. Qed.

Lemma DecodeString_EncodeToString (b : string) :
  Hex.DecodeString (Hex.EncodeToString b) = b.
Proof.
  induction b as [|c b IH]; [done|].
  cbn [Hex.EncodeToString]. by rewrite DecodeString_two, IH.
Qed.

Lemma str_take_all (n : nat) (x y : string) :
  String.length x = n -> str_take n (x +:+ y) = x.
Proof.
  revert x. induction n as [|n IH]; intros [|c x] Hlen; try done.
  rewrite append_cons. simpl. f_equal. apply IH. by injection Hlen.
Qed.

(** [plumbing.NewHash] of the text of a hash is the hash. *)
Lemma NewHash_String (h : plumbing.Hash) :
  String.length h = 20 -> plumbing.NewHash (plumbing.String_ h) = h.
Proof.
  intros Hlen. unfold plumbing.NewHash, plumbing.String_.
  rewrite DecodeString_EncodeToString. by apply str_take_all.
Qed.

(** ** The digest has 20 bytes *)

Lemma length_string_of_bytes (l : list Z) :
  String.length (string_of_bytes l) = length l.
Proof.
  unfold string_of_bytes. rewrite <- (length_fmap ascii_of_byte l).
  generalize (ascii_of_byte <$> l). intros l'.
  induction l' as [|x l' IH]; [done|]. simpl. by rewrite IH.
Qed.

Lemma length_SHA1_Sum (msg : string) : String.length (SHA1.Sum msg) = 20.
Proof.
  unfold SHA1.Sum.
  destruct (fold_left SHA1.block _ SHA1.init) as [[[[h0 h1] h2] h3] h4].
  by rewrite length_string_of_bytes.
Qed.

Lemma length_computeMGitHash (commit : object.Commit) (parents : list string)
    (pubkey : string) :
  String.length (computeMGitHash commit parents pubkey) = 20.
Proof.
  unfold computeMGitHash, hasher.Sum.
  rewrite length_str_take, length_SHA1_Sum. done.
Qed.

(** ** The order of the parents *)

(** C9, amended.  Exchanging two parent entries whose 20-byte decodings
    differ changes the byte string that SHA-1 digests, and so the overlay
    hash, unless SHA-1 collides on the two byte strings; exchanging two
    entries with one decoding leaves the overlay hash as it was. *)
Theorem computeMGitHash_parent_order
    (c : object.Commit) (parents : list string) (pubkey : string)
    (i j : nat) (pi pj : string) :
  parents !! i = Some pi ->
  parents !! j = Some pj ->
  (plumbing.NewHash pi <> plumbing.NewHash pj ->
     computeMGitHash_writes c (swapEntries i j parents) pubkey
     <> computeMGitHash_writes c parents pubkey
     /\ (sha1_distinguishes (computeMGitHash_writes c (swapEntries i j parents) pubkey)
                            (computeMGitHash_writes c parents pubkey) ->
         computeMGitHash c (swapEntries i j parents) pubkey
         <> computeMGitHash c parents pubkey))
  /\ (plumbing.NewHash pi = plumbing.NewHash pj ->
     computeMGitHash c (swapEntries i j parents) pubkey
     = computeMGitHash c parents pubkey).
Proof.
  intros Hi Hj.
  destruct (computeMGitHash_writes_parent_order c parents pubkey i j pi pj Hi Hj)
    as [Hdiff Hsame].
  split; [|exact Hsame].
  intros Hne. split; [by apply Hdiff|].
  intros Hsha Heq. apply (Hdiff Hne), Hsha.
  unfold computeMGitHash in Heq.
  assert (Hall : forall x, str_take 20 (hasher.Sum x) = hasher.Sum x).
  { intros x. rewrite <- (append_nil_r (hasher.Sum x)) at 1.
    apply str_take_all, length_SHA1_Sum. }
  by rewrite !Hall in Heq.
Qed.

Lemma computeMGitHash_parent_order_witness :
  computeMGitHash (exGitCommit "" [] "msg")
    (swapEntries 0 1 [exParentLower; exParentOther]) exKey
  <> computeMGitHash (exGitCommit "" [] "msg") [exParentLower; exParentOther] exKey.
Proof.
  refine (proj2 (proj1 (computeMGitHash_parent_order (exGitCommit "" [] "msg")
                          [exParentLower; exParentOther] exKey 0 1
                          exParentLower exParentOther _ _) _) _).
  - reflexivity.
  - reflexivity.
  - vm_compute. discriminate.
  - unfold sha1_distinguishes. vm_compute. discriminate.
Defined.

(** ** Hexadecimal hashes are full hashes *)

Lemma clean_split_slash (x : string) : clean_name x = true -> FS.split_slash x = [x].
Proof.
  induction x as [|c x IH]; [done|]. simpl.
  intros [[Hs _]%andb_true_iff Hx]%andb_true_iff.
  apply negb_true_iff in Hs. rewrite Hs. by rewrite IH.
Qed.

Lemma clean_plain (x : string) : clean_name x = true -> x <> "" -> plain x.
Proof.
  intros Hc Hne. split; [by apply clean_split_slash|]. split; [done|].
  destruct x as [|c x]; [done|]. simpl in Hc.
  apply andb_true_iff in Hc as [[_ Hd%negb_true_iff]%andb_true_iff _].
  apply Ascii.eqb_neq in Hd. split; intros [= ? ?]; done.
Qed.

Lemma clean_str_take (n : nat) (x : string) :
  clean_name x = true -> clean_name (str_take n x) = true.
Proof.
  revert x. induction n as [|n IH]; intros [|c x]; simpl; try done.
  intros [Hc Hx]%andb_true_iff. rewrite Hc. by apply IH.
Qed.

Lemma clean_str_drop (n : nat) (x : string) :
  clean_name x = true -> clean_name (str_drop n x) = true.
Proof.
  revert x. induction n as [|n IH]; intros [|c x]; simpl; try done.
  intros [_ Hx]%andb_true_iff. by apply IH.
Qed.

Lemma nibble_char_clean (n : Z) :
  negb (Ascii.eqb (Hex.nibble_char n) "/") && negb (Ascii.eqb (Hex.nibble_char n) ".")
  = true.
Proof.
  unfold Hex.nibble_char. generalize (Z.to_nat n). intros k.
  do 17 (destruct k as [|k]; [done|]). done.
Qed.

Lemma clean_EncodeToString (b : string) : clean_name (Hex.EncodeToString b) = true.
Proof.
  induction b as [|c b IH]; [done|]. cbn [Hex.EncodeToString clean_name].
  by rewrite !nibble_char_clean, IH.
Qed.

Lemma length_EncodeToString (b : string) :
  String.length (Hex.EncodeToString b) = (String.length b + String.length b)%nat.
Proof.
  induction b as [|c b IH]; [done|].
  cbn [Hex.EncodeToString String.length]. rewrite IH. lia.
Qed.

(** The text of a hash of 20 bytes or more is a full hash. *)
Lemma EncodeToString_full_hash (b : string) :
  20 <= String.length b -> full_hash (Hex.EncodeToString b).
Proof.
  intros Hlen. pose proof (length_EncodeToString b) as Hl.
  pose proof (clean_EncodeToString b) as Hc.
  split; [split|lia].
  - apply clean_plain; [by apply clean_str_take|].
    intros E. apply (f_equal String.length) in E.
    rewrite length_str_take in E. cbn [String.length] in E. lia.
  - apply clean_plain; [by apply clean_str_drop|].
    intros E. apply (f_equal String.length) in E.
    rewrite length_str_drop in E. cbn [String.length] in E. lia.
Qed.

Lemma NewHash_full_hash (x : string) : full_hash (plumbing.String_ (plumbing.NewHash x)).
Proof. apply EncodeToString_full_hash. by rewrite length_NewHash. Qed.

(** X1: The overlay hash of the hash engine is printed as a full hash: 40
    characters, the first two a directory name and the rest a file name
    of the object store. *)
Theorem computeMGitHash_full_hash (commit : object.Commit) (parents : list string)
    (pubkey : string) :
  let text := plumbing.String_ (computeMGitHash commit parents pubkey) in
  String.length text = 40 /\ full_hash text.
Proof.
  cbv zeta. unfold plumbing.String_. split.
  - by rewrite length_EncodeToString, length_computeMGitHash.
  - apply EncodeToString_full_hash. by rewrite length_computeMGitHash.
Qed.

(** * [MGitCommit] *)

Lemma MGitCommit_record_verifies_facts (repo : Repository) (gitCommit : object.Commit)
    (gitHash : plumbing.Hash) (parents : list string) (pubkey : string) :
  String.length gitHash = 20 ->
  CommitObject repo gitHash = Some gitCommit ->
  let record := MGitCommit_record gitCommit gitHash parents pubkey in
  verifyCommit repo (MCommit.MGitHash record) record = Ok None.
Proof.
  intros Hlen Hgit record. unfold verifyCommit, record, MGitCommit_record.
  cbn [MCommit.GitHash MCommit.Author MCommit.ParentHashes MCommit.MGitHash Sig.Pubkey].
  rewrite NewHash_String, Hgit by done. by rewrite decide_False by (by intros []).
Qed.

(** X2: The record that [MGitCommit] builds passes the check of
    [HandleMGitVerify], whatever the parents, when the repository holds
    the Git commit under its hash. *)
Theorem MGitCommit_record_verifies (repo : Repository) (gitCommit : object.Commit)
    (gitHash : plumbing.Hash) (parents : list string) (pubkey : string) :
  String.length gitHash = 20 ->
  CommitObject repo gitHash = Some gitCommit ->
  let record := MGitCommit_record gitCommit gitHash parents pubkey in
  verifyCommit repo (MCommit.MGitHash record) record = Ok None.
Proof. apply MGitCommit_record_verifies_facts. Qed.

Lemma MGitCommit_record_verifies_witness :
  verifyCommit (exRepo exBranch)
    (MCommit.MGitHash
       (MGitCommit_record exChildGit (plumbing.NewHash exChildGitHash) [exRootHash] exKey))
    (MGitCommit_record exChildGit (plumbing.NewHash exChildGitHash) [exRootHash] exKey)
  = Ok None.
Proof.
  apply (MGitCommit_record_verifies (exRepo exBranch) exChildGit
           (plumbing.NewHash exChildGitHash) [exRootHash] exKey).
  - reflexivity.
  - reflexivity.
Defined.

(** * References and [HEAD] *)

Lemma HasPrefix_app (p x : string) : HasPrefix (p +:+ x) p = true.
Proof. apply HasPrefix_iff. by exists x. Qed.

Lemma TrimPrefix_app (p x : string) : TrimPrefix (p +:+ x) p = x.
Proof. unfold TrimPrefix. by rewrite HasPrefix_app, str_drop_app. Qed.

Lemma normRef_refs (refName : string) : HasPrefix (normRef refName) "refs/" = true.
Proof. unfold normRef. by destruct (HasPrefix refName "refs/") eqn:E. Qed.

Lemma normRef_idem (refName : string) : normRef (normRef refName) = normRef refName.
Proof.
  pose proof (normRef_refs refName) as Hpre.
  unfold normRef at 1. by rewrite Hpre.
Qed.

Section Refs.
Context `{JSON}.
Variable s : MGitStorage.

Lemma UpdateRef_GetRef_facts (refName mgitHash : string) (fs fs' : FS.t) :
  UpdateRef s refName mgitHash fs = (fs', Ok tt) ->
  GetRef s refName fs' = Ok mgitHash
  /\ GetRef s (normRef refName) fs' = Ok mgitHash.
Proof.
  unfold UpdateRef. cbv zeta. intros (fs1 & [] & _ & Hw)%bind_Ok.
  apply writeFile_again in Hw as [_ Hn].
  pose proof (normRef_idem refName) as Hnorm.
  assert (Hget : GetRef s refName fs' = Ok mgitHash).
  { unfold GetRef. cbv zeta. rewrite (Stat_node_at _ _ _ Hn). simpl.
    unfold FS.ReadFile. by rewrite Hn. }
  split; [done|]. unfold GetRef in *. by rewrite Hnorm.
Qed.

(** X3: What [UpdateRef] wrote, [GetRef] returns, under the short and under
    the full name of the reference. *)
Theorem UpdateRef_then_GetRef (refName mgitHash : string) (fs fs' : FS.t) :
  UpdateRef s refName mgitHash fs = (fs', Ok tt) ->
  GetRef s refName fs' = Ok mgitHash
  /\ GetRef s (normRef refName) fs' = Ok mgitHash.
Proof. apply UpdateRef_GetRef_facts. Qed.

(** X4: [UpdateHead] always writes a symbolic reference: [GetHead] returns
    the full name, and [GetHeadCommit] goes through [GetRef]. *)
Theorem UpdateHead_then_GetHead (refName : string) (fs fs' : FS.t) :
  UpdateHead s refName fs = (fs', Ok tt) ->
  GetHead s fs' = Ok (normRef refName)
  /\ GetHeadCommit s fs'
     = match GetRef s refName fs' with
       | Ok hash => GetCommit s hash fs'
       | Err e => Err e
       | Panic => Panic
       end.
Proof.
  unfold UpdateHead. cbv zeta. intros Hw.
  apply writeFile_again in Hw as [_ Hn].
  assert (Hs : Fmt.Sprintf "ref: %s" [Fmt.ArgString (normRef refName)]
               = "ref: " +:+ normRef refName).
  { cbn. by rewrite append_nil_r. }
  rewrite Hs in Hn.
  assert (Hhead : GetHead s fs' = Ok (normRef refName)).
  { unfold GetHead. cbv zeta. rewrite (Stat_node_at _ _ _ Hn). simpl.
    unfold FS.ReadFile. rewrite Hn.
    by rewrite HasPrefix_app, TrimPrefix_app. }
  split; [done|]. unfold GetHeadCommit. rewrite Hhead.
  pose proof (normRef_refs refName) as Hpre.
  rewrite Hpre.
  pose proof (normRef_idem refName) as Hnorm.
  unfold GetRef. by rewrite Hnorm.
Qed.

End Refs.

(** * Where nodes come from *)

Section ComesFrom.

#[global] Instance comes_from_refl Wd Wf : Reflexive (comes_from Wd Wf).
Proof. intros fs. constructor; auto. Qed.

#[global] Instance comes_from_trans Wd Wf : Transitive (comes_from Wd Wf).
Proof.
  intros fs1 fs2 fs3 [Hd1 Hf1] [Hd2 Hf2]. constructor.
  - intros q Hq. destruct (Hd2 q Hq); auto.
  - intros q d Hq. destruct (Hf2 q d Hq); auto.
Qed.

#[global] Instance comes_from_preorder Wd Wf : PreOrder (comes_from Wd Wf).
Proof. split; apply _. Qed.

Lemma comes_from_weaken (Wd Wf Wd' Wf' : FS.path -> Prop) (fs fs' : FS.t) :
  (forall q, Wd q -> Wd' q) -> (forall q, Wf q -> Wf' q) ->
  comes_from Wd Wf fs fs' -> comes_from Wd' Wf' fs fs'.
Proof.
  intros HWd HWf [Hd Hf]. constructor.
  - intros q Hq. destruct (Hd q Hq); auto.
  - intros q d Hq. destruct (Hf q d Hq); auto.
Qed.

Lemma MkdirAll_dir_inv (p q : FS.path) (fs : FS.t) :
  FS.node_at (FS.MkdirAll p fs).1 q = Some FS.Dir ->
  q `suffix_of` p \/ FS.node_at fs q = Some FS.Dir.
Proof.
  revert q. induction p as [|c p IH]; intros q; rewrite MkdirAll_eq.
  - destruct (FS.node_at fs []) as [[|]|]; auto.
  - destruct (FS.node_at fs (c :: p)) as [[|]|] eqn:E; [auto|auto|].
    destruct (FS.MkdirAll p fs) as [fs' [|]]; simpl in *.
    + destruct (decide (c :: p = q)) as [<-|Hne]; [by left|].
      rewrite node_at_insert_ne by done. intros Hq.
      destruct (IH q Hq) as [Hs|?]; [|by right].
      left. by apply suffix_cons_r.
    + intros Hq. destruct (IH q Hq) as [Hs|?]; [|by right].
      left. by apply suffix_cons_r.
Qed.

Lemma MkdirAll_comes_from (p : FS.path) (fs : FS.t) :
  comes_from (fun q => q `suffix_of` p) (fun _ => False) fs (FS.MkdirAll p fs).1.
Proof.
  constructor.
  - intros q. apply MkdirAll_dir_inv.
  - intros q d Hq. right. by eapply MkdirAll_file_inv.
Qed.

Lemma WriteFile_comes_from (p : FS.path) (data : string) (fs : FS.t) :
  comes_from (fun _ => False) (fun q => q = p) fs (FS.WriteFile p data fs).1.
Proof.
  assert (Hins : comes_from (fun _ => False) (fun q => q = p) fs
                   (<[p := FS.File data]> fs)).
  { constructor.
    - intros q Hq. right. destruct (decide (p = q)) as [<-|Hne].
      + unfold FS.node_at in *. destruct (FS.implicit_dir p); [done|].
        by rewrite lookup_insert_eq in Hq.
      + by rewrite node_at_insert_ne in Hq.
    - intros q d Hq. destruct (decide (p = q)) as [<-|Hne]; [by left|].
      right. by rewrite node_at_insert_ne in Hq. }
  unfold FS.WriteFile.
  destruct (FS.node_at fs p) as [[d0|]|]; simpl; [done|reflexivity|].
  destruct p as [|c q]; simpl; [reflexivity|].
  destruct (FS.node_at fs q) as [[|]|]; simpl; done || reflexivity.
Qed.

Lemma comes_from_mkdirAll (Wd Wf : FS.path -> Prop) (p : FS.path) (e : error) :
  (forall q, q `suffix_of` p -> Wd q) ->
  preserves (comes_from Wd Wf) (mkdirAll p e).
Proof.
  intros HW fs fs' r. rewrite mkdirAll_eq. intros [= <- _].
  eapply comes_from_weaken; [exact HW| |apply MkdirAll_comes_from]. done.
Qed.

Lemma comes_from_writeFile (Wd Wf : FS.path -> Prop) (p : FS.path) (data : string)
    (e : error) :
  Wf p -> preserves (comes_from Wd Wf) (writeFile p data e).
Proof.
  intros HW fs fs' r. rewrite writeFile_eq. intros [= <- _].
  eapply comes_from_weaken; [| |apply WriteFile_comes_from]; [done|].
  by intros q ->.
Qed.

End ComesFrom.

(** * [Initialize] *)

Section InitializeFacts.
Context `{JSON}.
Variable s : MGitStorage.

Lemma Initialize_dirs :
  [FS.Join (RootDir s) ["objects"]; FS.Join (RootDir s) ["refs"];
   FS.Join (RootDir s) ["refs/heads"]; FS.Join (RootDir s) ["refs/tags"];
   FS.Join (RootDir s) ["mappings"]]
  = ["objects" :: RootDir s; "refs" :: RootDir s; "heads" :: "refs" :: RootDir s;
     "tags" :: "refs" :: RootDir s; "mappings" :: RootDir s].
Proof.
  unfold FS.Join. simpl flat_map. simpl fold_left.
  by rewrite !push_plain by (by vm_compute).
Qed.

Lemma HEAD_not_storageDir : ~ storageDir s ("HEAD" :: RootDir s).
Proof.
  intros (d & Hd & Hs). apply suffix_length in Hs as Hlen.
  repeat (apply elem_of_cons in Hd as [->|Hd]); try by apply elem_of_nil in Hd.
  - apply suffix_cons_inv in Hs as [[=]|Hs]. apply suffix_length in Hs. simpl in Hs. lia.
  - apply suffix_cons_inv in Hs as [[=]|Hs].
    apply suffix_cons_inv in Hs as [[=]|Hs]. apply suffix_length in Hs. simpl in Hs. lia.
  - apply suffix_cons_inv in Hs as [[=]|Hs].
    apply suffix_cons_inv in Hs as [[=]|Hs]. apply suffix_length in Hs. simpl in Hs. lia.
  - apply suffix_cons_inv in Hs as [[=]|Hs]. apply suffix_length in Hs. simpl in Hs. lia.
Qed.

(** [Initialize] makes directories of the storage only, and no file but
    [HEAD]. *)
Lemma Initialize_comes_from :
  preserves (comes_from (storageDir s) (fun q => q = "HEAD" :: RootDir s)) (Initialize s).
Proof.
  unfold Initialize. rewrite Initialize_dirs.
  assert (Hroot : forall d q,
            d ∈ ["objects" :: RootDir s; "heads" :: "refs" :: RootDir s;
                 "tags" :: "refs" :: RootDir s; "mappings" :: RootDir s] ->
            q `suffix_of` d -> storageDir s q) by (intros d q ? ?; by exists d).
  apply preserves_bind; [apply _| |].
  { apply comes_from_mkdirAll. intros q Hq.
    apply (Hroot ("objects" :: RootDir s)); [set_solver|by apply suffix_cons_r]. }
  intros _. apply preserves_bind; [apply _| |].
  { apply preserves_forEach; [apply _|]. intros dir Hdir.
    apply comes_from_mkdirAll. intros q Hq.
    repeat (apply elem_of_cons in Hdir as [->|Hdir]); try by apply elem_of_nil in Hdir.
    - apply (Hroot ("objects" :: RootDir s)); [set_solver|done].
    - apply (Hroot ("heads" :: "refs" :: RootDir s)); [set_solver|by apply suffix_cons_r].
    - apply (Hroot ("heads" :: "refs" :: RootDir s)); [set_solver|done].
    - apply (Hroot ("tags" :: "refs" :: RootDir s)); [set_solver|done].
    - apply (Hroot ("mappings" :: RootDir s)); [set_solver|done]. }
  intros _. apply preserves_bind; [apply _|apply preserves_look; apply _|].
  intros st. destruct (FS.IsNotExist st); [|apply preserves_ret; apply _].
  rewrite Join_plain by apply plain_HEAD. by apply comes_from_writeFile.
Qed.

Lemma Initialize_HEAD_facts (fs fs1 : FS.t) :
  Initialize s fs = (fs1, Ok tt) ->
  (forall n, FS.node_at fs ("HEAD" :: RootDir s) = Some n ->
             FS.node_at fs1 ("HEAD" :: RootDir s) = Some n)
  /\ (FS.node_at fs ("HEAD" :: RootDir s) = None ->
      FS.node_at fs1 ("HEAD" :: RootDir s) = Some (FS.File "ref: refs/heads/master"))
  /\ Initialize s fs1 = (fs1, Ok tt).
Proof.
  intros Hrun. pose proof Hrun as Hfrom%Initialize_comes_from.
  unfold Initialize in Hrun.
  apply bind_Ok in Hrun as (fsa & [] & Hroot & Hrun).
  apply bind_Ok in Hrun as (fsb & [] & Hdirs & Hrun).
  assert (Hab : evolves (fun _ _ => True) fs fsb).
  { trans fsa.
    - revert Hroot. apply preserves_mkdirAll.
    - revert Hdirs. apply preserves_forEach; [apply _|].
      intros dir _. apply preserves_mkdirAll. }
  assert (Hrootdir : FS.node_at fsb (RootDir s) = Some FS.Dir).
  { assert (Ha : FS.node_at fsa (RootDir s) = Some FS.Dir).
    { rewrite mkdirAll_eq in Hroot. injection Hroot as <- Hok.
      apply MkdirAll_true. by destruct (FS.MkdirAll (RootDir s) fs).2. }
    assert (Hev : evolves (fun _ _ => True) fsa fsb).
    { revert Hdirs. apply preserves_forEach; [apply _|].
      intros dir _. apply preserves_mkdirAll. }
    by apply (ev_dir _ _ _ Hev). }
  unfold bind, look in Hrun. rewrite Join_plain in Hrun by apply plain_HEAD.
  assert (Hlast : forall n, FS.node_at fsb ("HEAD" :: RootDir s) = Some n ->
                    fs1 = fsb).
  { intros n Hn. rewrite (Stat_node_at _ _ _ Hn) in Hrun. simpl in Hrun.
    unfold ret in Hrun. congruence. }
  split; [|split].
  - intros n Hn.
    assert (Hb : FS.node_at fsb ("HEAD" :: RootDir s) = Some n).
    { destruct n as [d|].
      - destruct (ev_file _ _ _ Hab _ _ Hn) as (d' & Hd' & Hk). by rewrite (Hk I) in Hd'.
      - by apply (ev_dir _ _ _ Hab). }
    by rewrite (Hlast n Hb).
  - intros Hnone.
    assert (Hb : FS.node_at fsb ("HEAD" :: RootDir s) = None).
    { destruct (FS.node_at fsb ("HEAD" :: RootDir s)) as [[d|]|] eqn:E; [| |done].
      - assert (Hcf : comes_from (storageDir s) (fun _ => False) fs fsb).
        { trans fsa.
          - revert Hroot. apply comes_from_mkdirAll. intros q Hq.
            exists ("objects" :: RootDir s). split; [set_solver|by apply suffix_cons_r].
          - revert Hdirs. rewrite Initialize_dirs.
            apply preserves_forEach; [apply _|]. intros dir Hdir.
            apply comes_from_mkdirAll. intros q Hq.
            repeat (apply elem_of_cons in Hdir as [->|Hdir]);
              try by apply elem_of_nil in Hdir.
            + exists ("objects" :: RootDir s). split; [set_solver|done].
            + exists ("heads" :: "refs" :: RootDir s).
              split; [set_solver|by apply suffix_cons_r].
            + exists ("heads" :: "refs" :: RootDir s). split; [set_solver|done].
            + exists ("tags" :: "refs" :: RootDir s). split; [set_solver|done].
            + exists ("mappings" :: RootDir s). split; [set_solver|done]. }
        destruct (cf_file _ _ _ _ Hcf _ _ E) as [[]|?]. congruence.
      - assert (Hcf : comes_from (storageDir s) (fun q => q = "HEAD" :: RootDir s) fs fs1).
        { by apply Hfrom. }
        rewrite (Stat_node_at _ _ _ E) in Hrun. simpl in Hrun.
        injection Hrun as <-.
        destruct (cf_dir _ _ _ _ Hcf _ E) as [Hd|?]; [|congruence].
        by apply HEAD_not_storageDir in Hd. }
    rewrite (Stat_missing_child _ _ _ Hb Hrootdir) in Hrun. simpl in Hrun.
    by apply writeFile_again in Hrun as [_ Hn].
  - assert (Hb1 : evolves (fun _ _ => False) fsb fs1).
    { destruct (FS.IsNotExist (FS.Stat fsb ("HEAD" :: RootDir s))).
      - revert Hrun. by apply preserves_writeFile.
      - by injection Hrun as <-. }
    assert (Hev : evolves (fun _ _ => False) fsa fsb).
    { revert Hdirs. apply preserves_forEach; [apply _|].
      intros dir _. apply preserves_mkdirAll. }
    unfold Initialize.
    rewrite (bind_eq _ _ fs1 fs1 tt); cycle 1.
    { eapply mkdirAll_replay; [exact Hroot|]. by etrans. }
    rewrite (bind_eq _ _ fs1 fs1 tt); cycle 1.
    { by eapply (forEach_mkdirAll_replay _ _ ErrMkdir); [exact Hdirs|]. }
    unfold bind, look. rewrite Join_plain by apply plain_HEAD.
    destruct (FS.node_at fsb ("HEAD" :: RootDir s)) as [n|] eqn:E.
    + rewrite (Hlast n eq_refl). by rewrite (Stat_node_at _ _ _ E).
    + rewrite (Stat_missing_child _ _ _ E Hrootdir) in Hrun. simpl in Hrun.
      apply writeFile_again in Hrun as [_ Hn].
      by rewrite (Stat_node_at _ _ _ Hn).
Qed.

Lemma forEach_mkdirAll_dirs (dirs : list FS.path) (e : FS.path -> error)
    (fs fs' : FS.t) :
  forEach dirs (fun dir => mkdirAll dir (e dir)) fs = (fs', Ok tt) ->
  forall d, d ∈ dirs -> FS.node_at fs' d = Some FS.Dir.
Proof.
  revert fs. induction dirs as [|dir dirs IH]; intros fs Hrun d Hd.
  { by apply elem_of_nil in Hd. }
  simpl in Hrun. apply bind_Ok in Hrun as (fsa & [] & Hfirst & Hrest).
  apply elem_of_cons in Hd as [->|Hd]; [|by eapply IH].
  assert (Ha : FS.node_at fsa dir = Some FS.Dir).
  { rewrite mkdirAll_eq in Hfirst. injection Hfirst as <- Hok.
    apply MkdirAll_true. by destruct (FS.MkdirAll dir fs).2. }
  assert (Hev : evolves (fun _ _ => True) fsa fs').
  { revert Hrest. apply preserves_forEach; [apply _|].
    intros x _. apply preserves_mkdirAll. }
  by apply (ev_dir _ _ _ Hev).
Qed.

Lemma Initialize_makes_dirs (fs fs1 : FS.t) (d : FS.path) :
  Initialize s fs = (fs1, Ok tt) ->
  d ∈ ["objects" :: RootDir s; "refs" :: RootDir s; "heads" :: "refs" :: RootDir s;
       "tags" :: "refs" :: RootDir s; "mappings" :: RootDir s] ->
  FS.node_at fs1 d = Some FS.Dir.
Proof.
  intros Hrun Hd. unfold Initialize in Hrun. rewrite Initialize_dirs in Hrun.
  apply bind_Ok in Hrun as (fsa & [] & _ & Hrun).
  apply bind_Ok in Hrun as (fsb & [] & Hdirs & Hrun).
  pose proof (forEach_mkdirAll_dirs _ ErrMkdir _ _ Hdirs d Hd) as Hb.
  assert (Hev : evolves (fun _ _ => False) fsb fs1).
  { revert Hrun. apply preserves_bind; [apply _|apply preserves_look; apply _|].
    intros st. destruct (FS.IsNotExist st); [|apply preserves_ret; apply _].
    by apply preserves_writeFile. }
  by apply (ev_dir _ _ _ Hev).
Qed.

Lemma master_not_storageDir : ~ storageDir s ("master" :: "heads" :: "refs" :: RootDir s).
Proof.
  intros (d & Hd & Hs).
  repeat (apply elem_of_cons in Hd as [->|Hd]); try by apply elem_of_nil in Hd.
  - apply suffix_length in Hs. simpl in Hs. lia.
  - apply suffix_cons_inv in Hs as [[=]|Hs]. apply suffix_length in Hs. simpl in Hs. lia.
  - apply suffix_cons_inv in Hs as [[=]|Hs]. apply suffix_length in Hs. simpl in Hs. lia.
  - apply suffix_length in Hs. simpl in Hs. lia.
Qed.

Lemma Join_master :
  FS.Join (RootDir s) ["refs/heads/master"] = "master" :: "heads" :: "refs" :: RootDir s.
Proof.
  unfold FS.Join. simpl flat_map. simpl fold_left.
  by rewrite !push_plain by (by vm_compute).
Qed.

(** X5: [Initialize] keeps a [HEAD] that is there and writes
    [ref: refs/heads/master] when there is none; a second [Initialize]
    changes nothing. *)
Theorem Initialize_HEAD (fs fs1 : FS.t) :
  Initialize s fs = (fs1, Ok tt) ->
  (forall n, FS.node_at fs ("HEAD" :: RootDir s) = Some n ->
             FS.node_at fs1 ("HEAD" :: RootDir s) = Some n)
  /\ (FS.node_at fs ("HEAD" :: RootDir s) = None ->
      GetHead s fs1 = Ok "refs/heads/master")
  /\ Initialize s fs1 = (fs1, Ok tt).
Proof.
  intros Hrun. destruct (Initialize_HEAD_facts fs fs1 Hrun) as (Hkeep & Hnew & Hagain).
  split; [done|]. split; [|done]. intros Hn%Hnew.
  unfold GetHead. cbv zeta. rewrite Join_plain by apply plain_HEAD.
  rewrite (Stat_node_at _ _ _ Hn). simpl. unfold FS.ReadFile. by rewrite Hn.
Qed.

(** X6: In a storage that [Initialize] has just made there is no commit of
    [HEAD]: the branch [master] that [HEAD] names has no reference. *)
Theorem Initialize_no_head_commit (fs fs1 : FS.t) :
  Initialize s fs = (fs1, Ok tt) ->
  FS.node_at fs ("HEAD" :: RootDir s) = None ->
  FS.node_at fs ("master" :: "heads" :: "refs" :: RootDir s) = None ->
  GetHeadCommit s fs1 = Err (ErrRefNotFound "refs/heads/master").
Proof.
  intros Hrun Hhead Hmaster.
  destruct (Initialize_HEAD_facts fs fs1 Hrun) as (_ & Hget & _).
  specialize (Hget Hhead).
  unfold GetHeadCommit, GetHead. cbv zeta. rewrite Join_plain by apply plain_HEAD.
  rewrite (Stat_node_at _ _ _ Hget). simpl. unfold FS.ReadFile. rewrite Hget.
  change (HasPrefix "ref: refs/heads/master" "ref: ") with true. cbv iota.
  change (TrimPrefix "ref: refs/heads/master" "ref: ") with "refs/heads/master".
  change (HasPrefix "refs/heads/master" "refs/") with true. cbv iota.
  unfold GetRef. cbv zeta.
  change (normRef "refs/heads/master") with "refs/heads/master".
  rewrite Join_master.
  assert (Hnone : FS.node_at fs1 ("master" :: "heads" :: "refs" :: RootDir s) = None).
  { pose proof (Initialize_comes_from fs fs1 _ Hrun) as [Hd Hf].
    destruct (FS.node_at fs1 ("master" :: "heads" :: "refs" :: RootDir s))
      as [[d|]|] eqn:E; [| |done].
    - destruct (Hf _ _ E) as [[=]|?]. congruence.
    - destruct (Hd _ E) as [?%master_not_storageDir|?]; [done|congruence]. }
  rewrite (Stat_missing_child _ _ _ Hnone); [done|].
  eapply Initialize_makes_dirs; [exact Hrun|set_solver].
Qed.

End InitializeFacts.

(** * The mapping table in its file *)

Lemma addOrUpdate_lookup (mappings : list Mapping.NostrCommitMapping)
    (gitHash mgitHash pubkey : string) :
  let mappings' := addOrUpdate mappings (Mapping.mk gitHash mgitHash pubkey) in
  lookupMGitHash mappings' gitHash = Some mgitHash
  /\ lookupGitHash mappings' mgitHash = Some gitHash.
Proof.
  cbv zeta.
  destruct (addOrUpdate_shape mappings (Mapping.mk gitHash mgitHash pubkey))
    as [(l1 & m & l2 & _ & Hl1 & _ & ->)|[Hl ->]]; simpl in *.
  - split.
    + rewrite lookupMGitHash_skip; [simpl; by rewrite decide_True|].
      eapply Forall_impl; [exact Hl1|]. intros x Hx E. apply Hx. by left.
    + rewrite lookupGitHash_skip; [simpl; by rewrite decide_True|].
      eapply Forall_impl; [exact Hl1|]. intros x Hx E. apply Hx. by right.
  - split.
    + rewrite lookupMGitHash_skip; [simpl; by rewrite decide_True|].
      eapply Forall_impl; [exact Hl|]. intros x Hx E. apply Hx. by left.
    + rewrite lookupGitHash_skip; [simpl; by rewrite decide_True|].
      eapply Forall_impl; [exact Hl|]. intros x Hx E. apply Hx. by right.
Qed.

Section MappingFile.
Context `{JSON}.
Variable s : MGitStorage.

Lemma readTable_file (p : FS.path) (e1 e2 : error) (fs : FS.t) (data : string)
    (l : list Mapping.NostrCommitMapping) :
  FS.node_at fs p = Some (FS.File data) -> UnmarshalMappings data = Some l ->
  readTable p e1 e2 fs = Ok l.
Proof.
  intros Hn Hu. unfold readTable. rewrite (Stat_node_at _ _ _ Hn). simpl.
  unfold FS.ReadFile. by rewrite Hn, Hu.
Qed.

(** What [StoreMapping] leaves in the file. *)
Lemma StoreMapping_file (gitHash mgitHash pubkey : string) (fs fs' : FS.t) :
  StoreMapping s gitHash mgitHash pubkey fs = (fs', Ok tt) ->
  exists old data,
    MarshalMappings (addOrUpdate old (Mapping.mk gitHash mgitHash pubkey)) = Some data
    /\ FS.node_at fs' (FS.Join (RootDir s) ["mappings"; "hash_mappings.json"])
       = Some (FS.File data).
Proof.
  unfold StoreMapping. cbv zeta.
  intros (fsa & [] & _ & Hrun)%bind_Ok.
  apply bind_Ok in Hrun as (fsb & old & _ & Hrun).
  destruct (MarshalMappings _) as [data|] eqn:Hmar; [|done].
  apply writeFile_again in Hrun as [_ Hn]. eauto.
Qed.

(** After [StoreMapping], the table is found in both directions. *)
Lemma StoreMapping_lookup_facts (gitHash mgitHash pubkey : string) (fs fs' : FS.t) :
  (forall l data, MarshalMappings l = Some data -> UnmarshalMappings data = Some l) ->
  StoreMapping s gitHash mgitHash pubkey fs = (fs', Ok tt) ->
  GetMGitHashFromGit s gitHash fs' = Ok mgitHash
  /\ GetGitHashFromMGit s mgitHash fs' = Ok gitHash.
Proof.
  intros Hrt (old & data & Hmar & Hn)%StoreMapping_file.
  unfold GetMGitHashFromGit, GetGitHashFromMGit, GetMappings. cbv zeta.
  rewrite (readTable_file _ _ _ _ _ _ Hn (Hrt _ _ Hmar)).
  destruct (addOrUpdate_lookup old gitHash mgitHash pubkey) as [-> ->]. done.
Qed.

End MappingFile.

(** X7: What [StoreMapping] stored for a pair of hashes, the lookups by Git
    hash and by MGit hash return, when the table is read back as it was
    written. *)
Theorem StoreMapping_then_lookup `{JSON} (s : MGitStorage)
    (gitHash mgitHash pubkey : string) (fs fs' : FS.t) :
  (forall l data, MarshalMappings l = Some data -> UnmarshalMappings data = Some l) ->
  StoreMapping s gitHash mgitHash pubkey fs = (fs', Ok tt) ->
  GetMGitHashFromGit s gitHash fs' = Ok mgitHash
  /\ GetGitHashFromMGit s mgitHash fs' = Ok gitHash.
Proof. apply StoreMapping_lookup_facts. Qed.

(** * What a write leaves alone *)

Section Frame.
Variable P : FS.path -> string -> Prop.
Variables Wd Wf : FS.path -> Prop.
Variables fs fs' : FS.t.
Hypothesis Hev : evolves P fs fs'.
Hypothesis Hcf : comes_from Wd Wf fs fs'.

Lemma blocked_eq (p : FS.path) :
  blocked fs p =
  match FS.node_at fs p with
  | Some (FS.File _) => true
  | Some FS.Dir => false
  | None => match p with [] => false | _ :: q => blocked fs q end
  end.
Proof.
  unfold blocked. rewrite Stat_eq.
  destruct (FS.node_at fs p) as [[|]|]; [done|done|].
  destruct p as [|c q]; [done|]. by destruct (FS.Stat fs q) as [[|]| |].
Qed.

Lemma blocked_eq' (p : FS.path) :
  blocked fs' p =
  match FS.node_at fs' p with
  | Some (FS.File _) => true
  | Some FS.Dir => false
  | None => match p with [] => false | _ :: q => blocked fs' q end
  end.
Proof.
  unfold blocked. rewrite Stat_eq.
  destruct (FS.node_at fs' p) as [[|]|]; [done|done|].
  destruct p as [|c q]; [done|]. by destruct (FS.Stat fs' q) as [[|]| |].
Qed.

Lemma blocked_frame (p : FS.path) :
  (forall a, a `suffix_of` p -> ~ Wf a) -> blocked fs' p = blocked fs p.
Proof.
  induction p as [|c q IH]; intros HW; rewrite blocked_eq, blocked_eq'.
  - assert (FS.node_at fs [] = Some FS.Dir) as -> by done.
    by assert (FS.node_at fs' [] = Some FS.Dir) as -> by done.
  - assert (IHq : blocked fs' q = blocked fs q).
    { apply IH. intros a Ha. apply HW. by apply suffix_cons_r. }
    destruct (FS.node_at fs (c :: q)) as [[d|]|] eqn:E.
    + by destruct (ev_file _ _ _ Hev _ _ E) as (d' & -> & _).
    + by rewrite (ev_dir _ _ _ Hev _ E).
    + destruct (FS.node_at fs' (c :: q)) as [[d|]|] eqn:E'; [| |done].
      * destruct (cf_file _ _ _ _ Hcf _ _ E') as [HWf|?]; [|congruence].
        by destruct (HW (c :: q)).
      * assert (Hq : FS.node_at fs' q = Some FS.Dir).
        { apply (ev_new _ _ _ Hev c q E). by rewrite E'. }
        rewrite <- IHq. rewrite blocked_eq', Hq. done.
Qed.

Lemma Stat_blocked (g : FS.t) (p : FS.path) :
  FS.node_at g p = None -> FS.IsNotExist (FS.Stat g p) = negb (blocked g p).
Proof.
  intros Hn. unfold blocked. rewrite Stat_eq, Hn.
  destruct p as [|c q]; [done|]. by destruct (FS.Stat g q) as [[|]| |].
Qed.

(** [os.Stat] and [ReadFile] at a path that was not written. *)
Lemma IsNotExist_frame (p : FS.path) :
  (forall a, a `suffix_of` p -> ~ Wf a) -> ~ Wd p ->
  FS.IsNotExist (FS.Stat fs' p) = FS.IsNotExist (FS.Stat fs p).
Proof.
  intros HWf HWd. destruct (FS.node_at fs p) as [[d|]|] eqn:E.
  - destruct (ev_file _ _ _ Hev _ _ E) as (d' & E' & _).
    by rewrite (Stat_node_at _ _ _ E), (Stat_node_at _ _ _ E').
  - pose proof (ev_dir _ _ _ Hev _ E) as E'.
    by rewrite (Stat_node_at _ _ _ E), (Stat_node_at _ _ _ E').
  - assert (E' : FS.node_at fs' p = None).
    { destruct (FS.node_at fs' p) as [[d|]|] eqn:E'; [| |done].
      - destruct (cf_file _ _ _ _ Hcf _ _ E') as [?|?]; [|congruence].
        by destruct (HWf p).
      - destruct (cf_dir _ _ _ _ Hcf _ E') as [?|?]; [done|congruence]. }
    rewrite !Stat_blocked by done. by rewrite blocked_frame.
Qed.

Lemma ReadFile_frame (p : FS.path) :
  ~ Wf p -> (forall d, P p d) -> FS.ReadFile p fs' = FS.ReadFile p fs.
Proof.
  intros HWf HP. unfold FS.ReadFile.
  destruct (FS.node_at fs p) as [[d|]|] eqn:E.
  - destruct (ev_file _ _ _ Hev _ _ E) as (d' & -> & Hk). by rewrite Hk.
  - by rewrite (ev_dir _ _ _ Hev _ E).
  - destruct (FS.node_at fs' p) as [[d|]|] eqn:E'; [|done|done].
    destruct (cf_file _ _ _ _ Hcf _ _ E') as [?|?]; [done|congruence].
Qed.

End Frame.

(** * [StoreCommit] and the other objects *)

Section StoreFrame.
Context `{JSON}.
Variable s : MGitStorage.

Lemma GetCommit_full_eq (h : string) (fs : FS.t) :
  full_hash h ->
  GetCommit s h fs =
  if FS.IsNotExist (FS.Stat fs (objectPath s h)) then Err (ErrCommitNotFound h)
  else
    match FS.ReadFile (objectPath s h) fs with
    | None => Err ErrReadObject
    | Some data =>
        match UnmarshalCommit data with
        | None => Err ErrUnmarshalCommit
        | Some commit => Ok commit
        end
    end.
Proof.
  intros [Hg H40]. unfold GetCommit, resolveHash.
  rewrite (proj2 (Nat.ltb_ge _ _)) by lia.
  rewrite (proj2 (Nat.ltb_ge _ _)) by lia.
  rewrite slice_to_Some, slice_from_Some by lia. cbv zeta.
  by rewrite Join_object.
Qed.

Lemma objectPath_inj (h h' : string) : objectPath s h = objectPath s h' -> h = h'.
Proof.
  unfold objectPath.
  generalize (str_take_drop 2 h), (str_take_drop 2 h').
  generalize (str_take 2 h), (str_drop 2 h), (str_take 2 h'), (str_drop 2 h').
  intros a b a' b' <- <- [= -> ->]. done.
Qed.

Lemma StoreCommit_changes (commit : MCommit.MCommitStruct) (fs : FS.t) :
  full_hash (MCommit.MGitHash commit) ->
  let h := MCommit.MGitHash commit in
  evolves (fun p _ => p <> objectPath s h) fs (StoreCommit s commit fs).1
  /\ comes_from (fun q => q `suffix_of` (str_take 2 h :: objectsDir s))
                (fun q => q = objectPath s h) fs (StoreCommit s commit fs).1.
Proof.
  intros Hh h. rewrite StoreCommit_full by done. fold h.
  destruct (bind _ _ fs) as [fs' r] eqn:Hrun. simpl. split.
  - revert Hrun. apply preserves_bind; [apply _|apply preserves_mkdirAll|].
    intros _. destruct (MarshalCommit _); [|apply preserves_fail; apply _].
    apply preserves_writeFile. by intros d0 [].
  - revert Hrun. apply preserves_bind; [apply _| |].
    { by apply comes_from_mkdirAll. }
    intros _. destruct (MarshalCommit _); [|apply preserves_fail; apply _].
    by apply comes_from_writeFile.
Qed.

Lemma StoreCommit_frame (commit : MCommit.MCommitStruct) (h' : string) (fs : FS.t) :
  full_hash (MCommit.MGitHash commit) -> full_hash h' ->
  h' <> MCommit.MGitHash commit ->
  GetCommit s h' (StoreCommit s commit fs).1 = GetCommit s h' fs.
Proof.
  intros Hh Hh' Hne.
  destruct (StoreCommit_changes commit fs Hh) as [Hev Hcf].
  rewrite !GetCommit_full_eq by done.
  assert (Hp : objectPath s h' <> objectPath s (MCommit.MGitHash commit)).
  { by intros ?%objectPath_inj. }
  rewrite (IsNotExist_frame _ _ _ _ _ Hev Hcf), (ReadFile_frame _ _ _ _ _ Hev Hcf);
    try done.
  - intros a Ha ->. apply Hp. symmetry.
    apply suffix_cons_inv in Ha as [Ha|Ha]; [done|].
    apply suffix_length in Ha. simpl in Ha. lia.
  - intros Hs. apply suffix_length in Hs. simpl in Hs. lia.
Qed.

End StoreFrame.

(** X8: [StoreCommit] under one full hash changes nothing that [GetCommit]
    returns for another full hash, results and errors alike. *)
Theorem StoreCommit_other_hash `{JSON} (s : MGitStorage)
    (commit : MCommit.MCommitStruct) (h' : string) (fs : FS.t) :
  full_hash (MCommit.MGitHash commit) -> full_hash h' ->
  h' <> MCommit.MGitHash commit ->
  GetCommit s h' (StoreCommit s commit fs).1 = GetCommit s h' fs.
Proof. apply StoreCommit_frame. Qed.

(** * The two mapping files *)

Section TwoFiles.
Context `{JSON}.

Lemma StoreCommitNostrMapping_changes (gitHash mgitHash : plumbing.Hash)
    (pubkey : string) (fs : FS.t) :
  let fs' := (StoreCommitNostrMapping gitHash mgitHash pubkey fs).1 in
  evolves (fun p _ => p <> ["nostr_mappings.json"; ".mgit"]) fs fs'
  /\ comes_from (fun q => q `suffix_of` [".mgit"])
                (fun q => q = ["nostr_mappings.json"; ".mgit"]) fs fs'.
Proof.
  cbv zeta. unfold StoreCommitNostrMapping.
  change getNostrMappingFilePath with ["nostr_mappings.json"; ".mgit"].
  change (FS.DirOf ["nostr_mappings.json"; ".mgit"]) with [".mgit"].
  destruct (bind _ _ fs) as [fs' r] eqn:Hrun. simpl. split.
  - revert Hrun. apply preserves_bind; [apply _|apply preserves_look; apply _|].
    intros l. destruct (MarshalMappings _); [|apply preserves_fail; apply _].
    apply preserves_bind; [apply _|apply preserves_mkdirAll|].
    intros _. apply preserves_writeFile. by intros d0 [].
  - revert Hrun. apply preserves_bind; [apply _|apply preserves_look; apply _|].
    intros l. destruct (MarshalMappings _); [|apply preserves_fail; apply _].
    apply preserves_bind; [apply _|by apply comes_from_mkdirAll|].
    intros _. by apply comes_from_writeFile.
Qed.

Lemma StoreMapping_changes (gitHash mgitHash pubkey : string) (fs : FS.t) :
  let fs' := (StoreMapping NewMGitStorage gitHash mgitHash pubkey fs).1 in
  evolves (fun p _ => p <> ["hash_mappings.json"; "mappings"; ".mgit"]) fs fs'
  /\ comes_from (fun q => q `suffix_of` ["mappings"; ".mgit"])
                (fun q => q = ["hash_mappings.json"; "mappings"; ".mgit"]) fs fs'.
Proof.
  cbv zeta. unfold StoreMapping.
  change (FS.Join (RootDir NewMGitStorage) ["mappings"; "hash_mappings.json"])
    with ["hash_mappings.json"; "mappings"; ".mgit"].
  change (FS.DirOf ["hash_mappings.json"; "mappings"; ".mgit"]) with ["mappings"; ".mgit"].
  destruct (bind _ _ fs) as [fs' r] eqn:Hrun. simpl. split.
  - revert Hrun. apply preserves_bind; [apply _|apply preserves_mkdirAll|].
    intros _. apply preserves_bind; [apply _|apply preserves_look; apply _|].
    intros l. destruct (MarshalMappings _); [|apply preserves_fail; apply _].
    apply preserves_writeFile. by intros d0 [].
  - revert Hrun. apply preserves_bind; [apply _|by apply comes_from_mkdirAll|].
    intros _. apply preserves_bind; [apply _|apply preserves_look; apply _|].
    intros l. destruct (MarshalMappings _); [|apply preserves_fail; apply _].
    by apply comes_from_writeFile.
Qed.

Lemma suffix_of_two (a b : string) (q : FS.path) :
  q `suffix_of` [a; b] -> q = [a; b] \/ q = [b] \/ q = [].
Proof.
  destruct q as [|x q]; [auto|].
  intros [->|Hs]%suffix_cons_inv; [auto|].
  apply suffix_cons_inv in Hs as [->|Hs]; [auto|].
  apply suffix_nil_inv in Hs. auto.
Qed.

Lemma suffix_of_three (a b c : string) (q : FS.path) :
  q `suffix_of` [a; b; c] -> q = [a; b; c] \/ q = [b; c] \/ q = [c] \/ q = [].
Proof.
  destruct q as [|x q]; [auto|].
  intros [->|Hs]%suffix_cons_inv; [auto|].
  apply suffix_of_two in Hs. tauto.
Qed.

End TwoFiles.

(** X9: [StoreCommitNostrMapping] writes [.mgit/nostr_mappings.json] and the
    lookups of the storage read [.mgit/mappings/hash_mappings.json]: what
    the one stores, [GetMappings], [getAllNostrMappings] and
    [GetMGitHashForCommit] never see; and [StoreMapping] changes nothing
    that [GetCommitNostrPubkey] returns. *)
Theorem mapping_files_apart `{JSON} (fs : FS.t) :
  (forall gitHash mgitHash pubkey,
     let fs' := (StoreCommitNostrMapping gitHash mgitHash pubkey fs).1 in
     GetMappings NewMGitStorage fs' = GetMappings NewMGitStorage fs
     /\ getAllNostrMappings fs' = getAllNostrMappings fs
     /\ forall x, GetMGitHashForCommit x fs' = GetMGitHashForCommit x fs)
  /\ (forall gitHash mgitHash pubkey x,
        GetCommitNostrPubkey x (StoreMapping NewMGitStorage gitHash mgitHash pubkey fs).1
        = GetCommitNostrPubkey x fs).
Proof.
  split.
  - intros g h k fs'.
    destruct (StoreCommitNostrMapping_changes g h k fs) as [Hev Hcf]. fold fs' in Hev, Hcf.
    assert (Hstat : FS.IsNotExist (FS.Stat fs' ["hash_mappings.json"; "mappings"; ".mgit"])
                    = FS.IsNotExist (FS.Stat fs ["hash_mappings.json"; "mappings"; ".mgit"])).
    { apply (IsNotExist_frame _ _ _ _ _ Hev Hcf).
      - intros a Ha ->. apply suffix_of_three in Ha as [?|[?|[?|?]]]; done.
      - intros Hs. apply suffix_length in Hs. simpl in Hs. lia. }
    assert (Hread : FS.ReadFile ["hash_mappings.json"; "mappings"; ".mgit"] fs'
                    = FS.ReadFile ["hash_mappings.json"; "mappings"; ".mgit"] fs).
    { by apply (ReadFile_frame _ _ _ _ _ Hev Hcf). }
    assert (Hall : getAllNostrMappings fs' = getAllNostrMappings fs).
    { unfold getAllNostrMappings.
      change (FS.Clean ".mgit/mappings/hash_mappings.json")
        with ["hash_mappings.json"; "mappings"; ".mgit"].
      cbv zeta. by rewrite Hstat, Hread. }
    split; [|split; [done|]].
    + unfold GetMappings, readTable.
      change (FS.Join (RootDir NewMGitStorage) ["mappings"; "hash_mappings.json"])
        with ["hash_mappings.json"; "mappings"; ".mgit"].
      cbv zeta. by rewrite Hstat, Hread.
    + intros x. unfold GetMGitHashForCommit. by rewrite Hall.
  - intros g h k x.
    destruct (StoreMapping_changes g h k fs) as [Hev Hcf].
    unfold GetCommitNostrPubkey.
    change getNostrMappingFilePath with ["nostr_mappings.json"; ".mgit"]. cbv zeta.
    rewrite (IsNotExist_frame _ _ _ _ _ Hev Hcf), (ReadFile_frame _ _ _ _ _ Hev Hcf);
      try done.
    + intros a Ha ->. apply suffix_of_two in Ha as [?|[?|?]]; done.
    + intros Hs. apply suffix_of_two in Hs as [?|[?|?]]; done.
Qed.

(** * [MGitCommit] and the storage *)

Section MGitCommitFacts.
Context `{JSON}.

Lemma MGitCommit_parents_length (s : MGitStorage) (parents : list plumbing.Hash)
    (fs : FS.t) (hs : list string) :
  MGitCommit_parents s parents fs = Ok hs -> length hs = length parents.
Proof.
  revert hs. induction parents as [|p parents IH]; intros hs; simpl.
  { by intros [= <-]. }
  destruct (MGitCommit_parents s parents fs) as [hs'| |].
  - specialize (IH hs' eq_refl).
    destruct (GetMGitHashFromGit s _ fs) as [m| |]; [destruct (slice_to 7 m)|..];
      intros [= <-]; simpl; by rewrite IH.
  - by destruct (GetMGitHashFromGit s _ fs) as [m| |]; [destruct (slice_to 7 m)|..].
  - by destruct (GetMGitHashFromGit s _ fs) as [m| |]; [destruct (slice_to 7 m)|..].
Qed.

Lemma UpdateRef_changes (s : MGitStorage) (name mgitHash : string) (fs : FS.t) :
  branchName_ok name ->
  let fs' :=
    (UpdateRef s (Fmt.Sprintf "refs/heads/%s" [Fmt.ArgString name]) mgitHash fs).1 in
  evolves (fun p _ => p <> refFile s name) fs fs'
  /\ comes_from (fun q => q `suffix_of` refFile s name /\ q <> refFile s name)
                (fun q => q = refFile s name) fs fs'.
Proof.
  intros Hok. cbv zeta.
  destruct (UpdateRef_branch s name mgitHash Hok) as (c & dir & E & ->). rewrite E.
  destruct (bind _ _ fs) as [fs' r] eqn:Hrun. simpl. split.
  - revert Hrun. apply preserves_bind; [apply _|apply preserves_mkdirAll|].
    intros _. apply preserves_writeFile. by intros d0 [].
  - revert Hrun. apply preserves_bind; [apply _| |].
    + apply comes_from_mkdirAll. intros q Hq. split; [by apply suffix_cons_r|].
      intros ->. apply suffix_length in Hq. simpl in Hq. lia.
    + intros _. by apply comes_from_writeFile.
Qed.

(** The steps of a run of [MGitCommit] that returns an MGit hash. *)
Lemma MGitCommit_steps (repo : Repository) (gitHash : plumbing.Hash) (pubkey : string)
    (fs fs' : FS.t) (h : plumbing.Hash) :
  pubkey <> "" ->
  MGitCommit (Some repo) (Some (Some gitHash)) pubkey fs = (fs', CommitHash h) ->
  exists gitCommit parents fs1 fs2 fs3,
    CommitObject repo gitHash = Some gitCommit
    /\ Initialize NewMGitStorage fs = (fs1, Ok tt)
    /\ MGitCommit_parents NewMGitStorage (object.ParentHashes gitCommit) fs1 = Ok parents
    /\ h = computeMGitHash gitCommit parents pubkey
    /\ StoreCommit NewMGitStorage (MGitCommit_record gitCommit gitHash parents pubkey) fs1
       = (fs2, Ok tt)
    /\ StoreMapping NewMGitStorage (plumbing.String_ gitHash) (plumbing.String_ h) pubkey fs2
       = (fs3, Ok tt)
    /\ fs' = match Head repo with
             | Some head =>
                 if plumbing.IsBranch head then
                   (UpdateRef NewMGitStorage
                      (Fmt.Sprintf "refs/heads/%s" [Fmt.ArgString (plumbing.Short head)])
                      (plumbing.String_ h) fs3).1
                 else fs3
             | None => fs3
             end.
Proof.
  intros Hk. unfold MGitCommit. rewrite decide_False by done.
  destruct (CommitObject repo gitHash) as [gitCommit|] eqn:Hgit; [|done].
  destruct (Initialize NewMGitStorage fs) as [fs1 [[]| |]] eqn:Hinit; [|done|done].
  destruct (MGitCommit_parents _ _ fs1) as [parents| |] eqn:Hpar; [|done|done].
  destruct (StoreCommit _ _ fs1) as [fs2 [[]| |]] eqn:Hstore; [|done|done].
  destruct (StoreMapping _ _ _ _ fs2) as [fs3 [[]| |]] eqn:Hmap; [|done|done].
  intros Hres. exists gitCommit, parents, fs1, fs2, fs3.
  assert (h = computeMGitHash gitCommit parents pubkey) as ->.
  { destruct (Head repo) as [head|]; [destruct (plumbing.IsBranch head)|];
      congruence. }
  repeat (split; [done|]).
  destruct (Head repo) as [head|]; [destruct (plumbing.IsBranch head)|];
    congruence.
Qed.

End MGitCommitFacts.

Section MGitCommitStored.
Context `{JSON}.
Variable repo : Repository.
Hypothesis Hname : forall head,
  Head repo = Some head -> plumbing.IsBranch head = true ->
  branchName_ok (plumbing.Short head).

Lemma afterUpdateRef_keeps (h : plumbing.Hash) (fs3 : FS.t) (p : FS.path) (d : string) :
  (forall name, p <> refFile NewMGitStorage name) ->
  FS.node_at fs3 p = Some (FS.File d) ->
  FS.node_at (afterUpdateRef repo h fs3) p = Some (FS.File d).
Proof.
  intros Hp Hn. unfold afterUpdateRef.
  destruct (Head repo) as [head|] eqn:Hhead; [|done].
  destruct (plumbing.IsBranch head) eqn:Hb; [|done].
  destruct (UpdateRef_changes NewMGitStorage (plumbing.Short head) (plumbing.String_ h) fs3
              (Hname head eq_refl Hb)) as [Hev _].
  destruct (ev_file _ _ _ Hev _ _ Hn) as (d' & Hn' & Hk). by rewrite (Hk (Hp _)) in Hn'.
Qed.

Lemma MGitCommit_stored_facts (gitHash : plumbing.Hash) (pubkey : string)
    (fs fs' : FS.t) (h : plumbing.Hash) :
  codec_roundtrip ->
  String.length gitHash = 20 ->
  pubkey <> "" ->
  MGitCommit (Some repo) (Some (Some gitHash)) pubkey fs = (fs', CommitHash h) ->
  exists gitCommit parents,
    CommitObject repo gitHash = Some gitCommit
    /\ length parents = length (object.ParentHashes gitCommit)
    /\ h = computeMGitHash gitCommit parents pubkey
    /\ GetCommit NewMGitStorage (plumbing.String_ h) fs'
       = Ok (MGitCommit_record gitCommit gitHash parents pubkey)
    /\ GetMGitHashFromGit NewMGitStorage (plumbing.String_ gitHash) fs'
       = Ok (plumbing.String_ h)
    /\ GetGitHashFromMGit NewMGitStorage (plumbing.String_ h) fs'
       = Ok (plumbing.String_ gitHash).
Proof.
  intros [Hrc Hrt] Hlen Hk Hrun.
  destruct (MGitCommit_steps repo gitHash pubkey fs fs' h Hk Hrun)
    as (gitCommit & parents & fs1 & fs2 & fs3 & Hgit & Hinit & Hpar & -> & Hst & Hmap & Hfs').
  fold (afterUpdateRef repo (computeMGitHash gitCommit parents pubkey) fs3) in Hfs'.
  set (h := computeMGitHash gitCommit parents pubkey) in *.
  set (record := MGitCommit_record gitCommit gitHash parents pubkey) in *.
  exists gitCommit, parents. split; [done|]. split.
  { by eapply MGitCommit_parents_length. }
  split; [done|].
  assert (Hfull : full_hash (plumbing.String_ h)).
  { apply EncodeToString_full_hash. unfold h. by rewrite length_computeMGitHash. }
  (* the object *)
  assert (Hobj : exists data,
            MarshalCommit record = Some data
            /\ FS.node_at fs2 (objectPath NewMGitStorage (plumbing.String_ h))
               = Some (FS.File data)).
  { rewrite StoreCommit_full in Hst by done.
    apply bind_Ok in Hst as (fsa & [] & _ & Hw).
    change (MCommit.setType MGitCommitObject record) with record in Hw.
    change (MCommit.MGitHash record) with (plumbing.String_ h) in Hw.
    destruct (MarshalCommit record) as [data|]; [|done].
    apply writeFile_again in Hw as [_ Hn]. eauto. }
  destruct Hobj as (data & Hmar & Hn2).
  destruct (StoreMapping_changes (plumbing.String_ gitHash) (plumbing.String_ h) pubkey fs2)
    as [Hev23 _].
  rewrite Hmap in Hev23. simpl in Hev23.
  assert (Hn3 : FS.node_at fs3 (objectPath NewMGitStorage (plumbing.String_ h))
                = Some (FS.File data)).
  { destruct (ev_file _ _ _ Hev23 _ _ Hn2) as (d' & Hn' & Hkeep).
    rewrite Hkeep in Hn'; [done|]. intros E. apply (f_equal length) in E. done. }
  split.
  { apply GetCommit_full; [done|]. exists data. split; [|by apply Hrc].
    rewrite Hfs'. apply afterUpdateRef_keeps; [|done].
    intros name E. apply (refFile_not_object NewMGitStorage name).
    rewrite <- E. by eexists _, _. }
  (* the table *)
  destruct (StoreMapping_file _ _ _ _ _ _ Hmap) as (old & tdata & Htmar & Htn).
  assert (Htn' : FS.node_at fs'
                   (FS.Join (RootDir NewMGitStorage) ["mappings"; "hash_mappings.json"])
                 = Some (FS.File tdata)).
  { rewrite Hfs'. apply afterUpdateRef_keeps; [|done].
    intros name E. symmetry in E. by apply refFile_not_entry in E. }
  unfold GetMGitHashFromGit, GetGitHashFromMGit, GetMappings. cbv zeta.
  rewrite (readTable_file _ _ _ _ _ _ Htn' (Hrt _ _ Htmar)).
  by destruct (addOrUpdate_lookup old (plumbing.String_ gitHash) (plumbing.String_ h) pubkey)
    as [-> ->].
Qed.

End MGitCommitStored.

(** X10: After [MGitCommit] has returned an MGit hash for a commit with a
    public key, the storage holds the record under that hash, with one
    parent for each parent of the Git commit, and the mapping table leads
    from the Git hash to the MGit hash and back. *)
Theorem MGitCommit_stored `{JSON} (repo : Repository) (gitHash : plumbing.Hash)
    (pubkey : string) (fs fs' : FS.t) (h : plumbing.Hash) :
  (forall head, Head repo = Some head -> plumbing.IsBranch head = true ->
                branchName_ok (plumbing.Short head)) ->
  codec_roundtrip ->
  String.length gitHash = 20 ->
  pubkey <> "" ->
  MGitCommit (Some repo) (Some (Some gitHash)) pubkey fs = (fs', CommitHash h) ->
  exists gitCommit parents,
    CommitObject repo gitHash = Some gitCommit
    /\ length parents = length (object.ParentHashes gitCommit)
    /\ h = computeMGitHash gitCommit parents pubkey
    /\ GetCommit NewMGitStorage (plumbing.String_ h) fs'
       = Ok (MGitCommit_record gitCommit gitHash parents pubkey)
    /\ GetMGitHashFromGit NewMGitStorage (plumbing.String_ gitHash) fs'
       = Ok (plumbing.String_ h)
    /\ GetGitHashFromMGit NewMGitStorage (plumbing.String_ h) fs'
       = Ok (plumbing.String_ gitHash).
Proof. intros Hname. by apply MGitCommit_stored_facts. Qed.

Section MGitCommitHead.
Context `{JSON}.
Variable repo : Repository.
Variables (gitHash : plumbing.Hash) (pubkey : string) (fs fs' : FS.t) (h : plumbing.Hash).
Hypothesis Hk : pubkey <> "".
Hypothesis Hrun :
  MGitCommit (Some repo) (Some (Some gitHash)) pubkey fs = (fs', CommitHash h).
Hypothesis Hfresh_head : FS.node_at fs ["HEAD"; ".mgit"] = None.
Hypothesis Hname : forall head,
  Head repo = Some head -> plumbing.IsBranch head = true ->
  branchName_ok (plumbing.Short head).

(** [HEAD] still names the branch [master] after the commit. *)
Lemma MGitCommit_HEAD_file :
  FS.node_at fs' ["HEAD"; ".mgit"] = Some (FS.File "ref: refs/heads/master").
Proof.
  destruct (MGitCommit_steps repo gitHash pubkey fs fs' h Hk Hrun)
    as (gitCommit & parents & fs1 & fs2 & fs3 & Hgit & Hinit & Hpar & -> & Hst & Hmap & Hfs').
  fold (afterUpdateRef repo (computeMGitHash gitCommit parents pubkey) fs3) in Hfs'.
  destruct (Initialize_HEAD_facts NewMGitStorage fs fs1 Hinit) as (_ & Hnew & _).
  specialize (Hnew Hfresh_head). change ("HEAD" :: RootDir NewMGitStorage)
    with ["HEAD"; ".mgit"] in Hnew.
  assert (Hfull : full_hash (plumbing.String_ (computeMGitHash gitCommit parents pubkey))).
  { apply EncodeToString_full_hash. by rewrite length_computeMGitHash. }
  destruct (StoreCommit_changes NewMGitStorage
              (MGitCommit_record gitCommit gitHash parents pubkey) fs1 Hfull) as [Hev12 _].
  rewrite Hst in Hev12. simpl in Hev12.
  destruct (ev_file _ _ _ Hev12 _ _ Hnew) as (d2 & Hn2 & Hk2).
  rewrite Hk2 in Hn2; [|by intros E; apply (f_equal length) in E].
  destruct (StoreMapping_changes (plumbing.String_ gitHash)
              (plumbing.String_ (computeMGitHash gitCommit parents pubkey)) pubkey fs2)
    as [Hev23 _].
  rewrite Hmap in Hev23. simpl in Hev23.
  destruct (ev_file _ _ _ Hev23 _ _ Hn2) as (d3 & Hn3 & Hk3).
  rewrite Hk3 in Hn3; [|by intros E; apply (f_equal length) in E].
  rewrite Hfs'. apply (afterUpdateRef_keeps repo Hname); [|done].
  intros name E. symmetry in E. by apply (refFile_not_top NewMGitStorage) in E.
Qed.

Lemma GetHead_master : GetHead NewMGitStorage fs' = Ok "refs/heads/master".
Proof.
  pose proof MGitCommit_HEAD_file as Hn. unfold GetHead. cbv zeta.
  change (FS.Join (RootDir NewMGitStorage) ["HEAD"]) with ["HEAD"; ".mgit"].
  rewrite (Stat_node_at _ _ _ Hn). simpl. unfold FS.ReadFile. by rewrite Hn.
Qed.

End MGitCommitHead.

Section MGitCommitBranch.
Context `{JSON}.
Variable repo : Repository.
Variables (gitHash : plumbing.Hash) (pubkey : string) (fs fs' : FS.t) (h : plumbing.Hash).
Hypothesis Hk : pubkey <> "".
Hypothesis Hrun :
  MGitCommit (Some repo) (Some (Some gitHash)) pubkey fs = (fs', CommitHash h).
Hypothesis Hfresh_head : FS.node_at fs ["HEAD"; ".mgit"] = None.
Hypothesis Hfresh_master : FS.node_at fs ["master"; "heads"; "refs"; ".mgit"] = None.

Lemma MGitCommit_other_branch_facts :
  (forall head, Head repo = Some head -> plumbing.IsBranch head = true ->
                branchName_ok (plumbing.Short head) /\ plumbing.Short head <> "master") ->
  GetHead NewMGitStorage fs' = Ok "refs/heads/master"
  /\ exists e, GetHeadCommit NewMGitStorage fs' = Err e.
Proof.
  intros Hname.
  assert (Hname' : forall head, Head repo = Some head -> plumbing.IsBranch head = true ->
                     branchName_ok (plumbing.Short head)).
  { intros head Hh Hb. by destruct (Hname head Hh Hb). }
  pose proof (GetHead_master repo gitHash pubkey fs fs' h Hk Hrun Hfresh_head Hname')
    as Hhead.
  split; [done|].
  destruct (MGitCommit_steps repo gitHash pubkey fs fs' h Hk Hrun)
    as (gitCommit & parents & fs1 & fs2 & fs3 & Hgit & Hinit & Hpar & -> & Hst & Hmap & Hfs').
  set (h0 := computeMGitHash gitCommit parents pubkey) in *.
  assert (Hfull : full_hash (plumbing.String_ h0)).
  { apply EncodeToString_full_hash. unfold h0. by rewrite length_computeMGitHash. }
  (* no file at the reference of master *)
  assert (Hnofile : forall d,
            FS.node_at fs' ["master"; "heads"; "refs"; ".mgit"] <> Some (FS.File d)).
  { intros d Hd.
    assert (Hd3 : FS.node_at fs3 ["master"; "heads"; "refs"; ".mgit"] = Some (FS.File d)).
    { rewrite Hfs' in Hd. destruct (Head repo) as [head|] eqn:Hh; [|done].
      destruct (plumbing.IsBranch head) eqn:Hb; [|done].
      destruct (Hname head eq_refl Hb) as [Hok Hne].
      destruct (UpdateRef_changes NewMGitStorage (plumbing.Short head)
                  (plumbing.String_ h0) fs3 Hok) as [_ Hcf].
      destruct (cf_file _ _ _ _ Hcf _ _ Hd) as [E|?]; [|done].
      change ["master"; "heads"; "refs"; ".mgit"] with (refFile NewMGitStorage "master") in E.
      by apply refFile_inj in E. }
    destruct (StoreMapping_changes (plumbing.String_ gitHash) (plumbing.String_ h0)
                pubkey fs2) as [_ Hcf23].
    rewrite Hmap in Hcf23. simpl in Hcf23.
    destruct (cf_file _ _ _ _ Hcf23 _ _ Hd3) as [[=]|Hd2].
    destruct (StoreCommit_changes NewMGitStorage
                (MGitCommit_record gitCommit gitHash parents pubkey) fs1 Hfull) as [_ Hcf12].
    rewrite Hst in Hcf12. simpl in Hcf12.
    destruct (cf_file _ _ _ _ Hcf12 _ _ Hd2) as [E|Hd1].
    { unfold objectPath, objectsDir in E. simpl in E. by injection E. }
    pose proof (Initialize_comes_from NewMGitStorage fs fs1 _ Hinit) as [_ Hcf01].
    destruct (Hcf01 _ _ Hd1) as [[=]|?]. congruence. }
  unfold GetHeadCommit. rewrite Hhead.
  change (HasPrefix "refs/heads/master" "refs/") with true. cbv iota.
  unfold GetRef. cbv zeta.
  change (FS.Join (RootDir NewMGitStorage) [normRef "refs/heads/master"])
    with ["master"; "heads"; "refs"; ".mgit"].
  destruct (FS.IsNotExist _); [by eexists|].
  unfold FS.ReadFile.
  destruct (FS.node_at fs' ["master"; "heads"; "refs"; ".mgit"]) as [[d|]|] eqn:E;
    [by destruct (Hnofile d)|by eexists|by eexists].
Qed.

Lemma MGitCommit_on_master_facts (head : plumbing.Reference) :
  codec_roundtrip ->
  String.length gitHash = 20 ->
  Head repo = Some head -> plumbing.IsBranch head = true ->
  plumbing.Short head = "master" ->
  exists gitCommit parents,
    CommitObject repo gitHash = Some gitCommit
    /\ h = computeMGitHash gitCommit parents pubkey
    /\ GetRef NewMGitStorage "master" fs' = Ok (plumbing.String_ h)
    /\ GetHeadCommit NewMGitStorage fs'
       = Ok (MGitCommit_record gitCommit gitHash parents pubkey).
Proof.
  intros Hrt Hlen Hh Hb Hshort.
  assert (Hname : forall head, Head repo = Some head -> plumbing.IsBranch head = true ->
                    branchName_ok (plumbing.Short head)).
  { intros head' Hh' _. assert (head' = head) as -> by congruence.
    rewrite Hshort. by_evaluation. }
  pose proof (GetHead_master repo gitHash pubkey fs fs' h Hk Hrun Hfresh_head Hname)
    as Hhead.
  destruct (MGitCommit_stored_facts repo Hname gitHash pubkey fs fs' h Hrt Hlen Hk Hrun)
    as (gitCommit & parents & Hgit & _ & Hh0 & Hget & _).
  exists gitCommit, parents. split; [done|]. split; [done|].
  destruct (MGitCommit_steps repo gitHash pubkey fs fs' h Hk Hrun)
    as (gitCommit' & parents' & fs1 & fs2 & fs3 & Hgit' & Hinit & Hpar & Hh1 & Hst & Hmap
        & Hfs').
  rewrite Hh, Hb, Hshort in Hfs'.
  assert (Hfull : full_hash (plumbing.String_ h)).
  { apply EncodeToString_full_hash. rewrite Hh1. by rewrite length_computeMGitHash. }
  destruct (StoreCommit_changes NewMGitStorage
              (MGitCommit_record gitCommit' gitHash parents' pubkey) fs1)
    as [Hev12 Hcf12].
  { simpl. by rewrite <- Hh1. }
  rewrite Hst in Hev12, Hcf12. simpl in Hev12, Hcf12.
  destruct (StoreMapping_changes (plumbing.String_ gitHash) (plumbing.String_ h) pubkey fs2)
    as [Hev23 Hcf23].
  rewrite Hmap in Hev23, Hcf23. simpl in Hev23, Hcf23.
  pose proof (Initialize_comes_from NewMGitStorage fs fs1 _ Hinit) as Hcf01.
  (* the branch directory is there, and no directory is in the way *)
  assert (Hdir : FS.node_at fs3 ["heads"; "refs"; ".mgit"] = Some FS.Dir).
  { apply (ev_dir _ _ _ Hev23), (ev_dir _ _ _ Hev12).
    eapply (Initialize_makes_dirs NewMGitStorage); [exact Hinit|]. simpl. set_solver. }
  assert (Hnodir : FS.node_at fs3 ["master"; "heads"; "refs"; ".mgit"] <> Some FS.Dir).
  { intros Hd3.
    destruct (cf_dir _ _ _ _ Hcf23 _ Hd3) as [Hs|Hd2].
    { apply suffix_length in Hs. simpl in Hs. lia. }
    destruct (cf_dir _ _ _ _ Hcf12 _ Hd2) as [Hs|Hd1].
    { apply suffix_length in Hs. simpl in Hs. lia. }
    destruct (cf_dir _ _ _ _ Hcf01 _ Hd1) as [Hs|?]; [|congruence].
    by apply (master_not_storageDir NewMGitStorage) in Hs. }
  assert (Hupd : UpdateRef NewMGitStorage
                   (Fmt.Sprintf "refs/heads/%s" [Fmt.ArgString "master"])
                   (plumbing.String_ h) fs3 = (fs', Ok tt)).
  { rewrite Hfs'. unfold UpdateRef. cbv zeta.
    change (FS.Join (RootDir NewMGitStorage)
              [normRef (Fmt.Sprintf "refs/heads/%s" [Fmt.ArgString "master"])])
      with ["master"; "heads"; "refs"; ".mgit"].
    change (FS.DirOf ["master"; "heads"; "refs"; ".mgit"]) with ["heads"; "refs"; ".mgit"].
    unfold bind. rewrite mkdirAll_eq, (MkdirAll_dir _ _ Hdir). simpl.
    rewrite writeFile_eq. unfold FS.WriteFile.
    destruct (FS.node_at fs3 ["master"; "heads"; "refs"; ".mgit"]) as [[d|]|]; [done|done|].
    by rewrite Hdir. }
  destruct (UpdateRef_GetRef_facts NewMGitStorage _ _ _ _ Hupd) as [Href _].
  change (Fmt.Sprintf "refs/heads/%s" [Fmt.ArgString "master"])
    with "refs/heads/master" in Href.
  split; [exact Href|].
  unfold GetHeadCommit. rewrite Hhead.
  change (HasPrefix "refs/heads/master" "refs/") with true. cbv iota.
  by rewrite Href.
Qed.

End MGitCommitBranch.

(** X11: After the first commit in a new storage, made on a branch that is
    not [master], [HEAD] still names [master], which has no reference:
    [GetHeadCommit], and with it the log and the verification, fail. *)
Theorem MGitCommit_other_branch `{JSON} (repo : Repository) (gitHash : plumbing.Hash)
    (pubkey : string) (fs fs' : FS.t) (h : plumbing.Hash) :
  pubkey <> "" ->
  MGitCommit (Some repo) (Some (Some gitHash)) pubkey fs = (fs', CommitHash h) ->
  FS.node_at fs ["HEAD"; ".mgit"] = None ->
  FS.node_at fs ["master"; "heads"; "refs"; ".mgit"] = None ->
  (forall head, Head repo = Some head -> plumbing.IsBranch head = true ->
                branchName_ok (plumbing.Short head) /\ plumbing.Short head <> "master") ->
  GetHead NewMGitStorage fs' = Ok "refs/heads/master"
  /\ exists e, GetHeadCommit NewMGitStorage fs' = Err e.
Proof. apply MGitCommit_other_branch_facts. Qed.

(** X12: After the first commit in a new storage, made on the branch
    [master], the reference of [master] is the new MGit hash and
    [GetHeadCommit] returns the new record. *)
Theorem MGitCommit_on_master `{JSON} (repo : Repository) (gitHash : plumbing.Hash)
    (pubkey : string) (fs fs' : FS.t) (h : plumbing.Hash) (head : plumbing.Reference) :
  pubkey <> "" ->
  MGitCommit (Some repo) (Some (Some gitHash)) pubkey fs = (fs', CommitHash h) ->
  FS.node_at fs ["HEAD"; ".mgit"] = None ->
  FS.node_at fs ["master"; "heads"; "refs"; ".mgit"] = None ->
  codec_roundtrip ->
  String.length gitHash = 20 ->
  Head repo = Some head -> plumbing.IsBranch head = true ->
  plumbing.Short head = "master" ->
  exists gitCommit parents,
    CommitObject repo gitHash = Some gitCommit
    /\ h = computeMGitHash gitCommit parents pubkey
    /\ GetRef NewMGitStorage "master" fs' = Ok (plumbing.String_ h)
    /\ GetHeadCommit NewMGitStorage fs'
       = Ok (MGitCommit_record gitCommit gitHash parents pubkey).
Proof.
  intros Hk Hrun Hh Hm Hrt Hlen Hhead Hb Hs.
  exact (MGitCommit_on_master_facts repo gitHash pubkey fs fs' h Hk Hrun Hh Hm head
           Hrt Hlen Hhead Hb Hs).
Qed.

(** * The examples *)

Lemma nameOf_elem {A} `{EqDecision A} (table : list (string * A)) (x : A) (n : string) :
  nameOf table x = Some n -> n ∈ table.*1.
Proof.
  induction table as [|[n0 y] rest IH]; simpl; [done|].
  destruct (decide (y = x)); [intros [= ->]; by left|].
  intros Hn. right. by apply IH.
Qed.

Lemma nameOf_valueOf {A} `{EqDecision A} (table : list (string * A)) (x : A) (n : string) :
  NoDup table.*1 -> nameOf table x = Some n -> valueOf table n = Some x.
Proof.
  induction table as [|[n0 y] rest IH]; simpl; [done|].
  intros [Hnin Hnd]%NoDup_cons. destruct (decide (y = x)) as [->|Hne].
  - intros [= ->]. by rewrite decide_True.
  - intros Hn. rewrite decide_False; [by apply IH|].
    intros ->. by apply nameOf_elem in Hn.
Qed.

Lemma tableCodec_roundtrip (commits : list (string * MCommit.MCommitStruct))
    (tables : list (string * list Mapping.NostrCommitMapping)) :
  NoDup commits.*1 -> NoDup tables.*1 ->
  codec_roundtrip (H := tableCodec commits tables).
Proof.
  intros Hc Ht. split; intros x data; simpl; by apply nameOf_valueOf.
Qed.

Lemma exCommitCodec_roundtrip : codec_roundtrip (H := exCommitCodec).
Proof. apply tableCodec_roundtrip; by_evaluation. Qed.

Example MGitCommit_first :
  (MGitCommit (H := exCommitCodec) (Some (exRepo exMasterBranch))
     (Some (Some (plumbing.NewHash exRootGitHash))) exKey ∅).2
  = CommitHash (computeMGitHash exRootGit [] exKey).
Proof. by_evaluation. Qed.

Lemma UpdateRef_then_GetRef_witness :
  GetRef NewMGitStorage "main"
    (UpdateRef NewMGitStorage "main" exChildHash exEmptyStore).1 = Ok exChildHash
  /\ GetRef NewMGitStorage (normRef "main")
       (UpdateRef NewMGitStorage "main" exChildHash exEmptyStore).1 = Ok exChildHash.
Proof.
  apply (UpdateRef_then_GetRef NewMGitStorage "main" exChildHash exEmptyStore).
  apply injective_projections; [reflexivity|by_evaluation].
Defined.

Lemma UpdateHead_then_GetHead_witness :
  let fs' := (UpdateHead NewMGitStorage "main" exEmptyStore).1 in
  GetHead NewMGitStorage fs' = Ok (normRef "main")
  /\ GetHeadCommit (H := exCodec) NewMGitStorage fs'
     = match GetRef NewMGitStorage "main" fs' with
       | Ok hash => GetCommit (H := exCodec) NewMGitStorage hash fs'
       | Err e => Err e
       | Panic => Panic
       end.
Proof.
  apply (UpdateHead_then_GetHead (H := exCodec) NewMGitStorage "main" exEmptyStore).
  apply injective_projections; [reflexivity|by_evaluation].
Defined.

Lemma Initialize_HEAD_witness :
  (forall n, FS.node_at ∅ ("HEAD" :: RootDir NewMGitStorage) = Some n ->
             FS.node_at exEmptyStore ("HEAD" :: RootDir NewMGitStorage) = Some n)
  /\ (FS.node_at ∅ ("HEAD" :: RootDir NewMGitStorage) = None ->
      GetHead NewMGitStorage exEmptyStore = Ok "refs/heads/master")
  /\ Initialize NewMGitStorage exEmptyStore = (exEmptyStore, Ok tt).
Proof.
  apply (Initialize_HEAD NewMGitStorage ∅ exEmptyStore). by_evaluation.
Defined.

Lemma Initialize_no_head_commit_witness :
  GetHeadCommit (H := exCodec) NewMGitStorage exEmptyStore
  = Err (ErrRefNotFound "refs/heads/master").
Proof.
  apply (Initialize_no_head_commit (H := exCodec) NewMGitStorage ∅ exEmptyStore).
  - by_evaluation.
  - reflexivity.
  - reflexivity.
Defined.

Lemma StoreMapping_then_lookup_witness :
  let fs' :=
    (StoreMapping (H := exCommitCodec) NewMGitStorage exRootGitHash exRootHash exKey
       exEmptyStore).1 in
  GetMGitHashFromGit (H := exCommitCodec) NewMGitStorage exRootGitHash fs' = Ok exRootHash
  /\ GetGitHashFromMGit (H := exCommitCodec) NewMGitStorage exRootHash fs'
     = Ok exRootGitHash.
Proof.
  apply (StoreMapping_then_lookup (H := exCommitCodec) NewMGitStorage exRootGitHash
           exRootHash exKey exEmptyStore).
  - apply exCommitCodec_roundtrip.
  - apply injective_projections; [reflexivity|by_evaluation].
Defined.

Lemma StoreCommit_other_hash_witness :
  GetCommit (H := exCodec) NewMGitStorage exChildHash
    (StoreCommit (H := exCodec) NewMGitStorage exRootRecord exEmptyStore).1
  = GetCommit (H := exCodec) NewMGitStorage exChildHash exEmptyStore.
Proof.
  apply (StoreCommit_other_hash (H := exCodec) NewMGitStorage exRootRecord exChildHash
           exEmptyStore); by_evaluation.
Defined.

Lemma exMaster_names (x : plumbing.Reference) (head : plumbing.Reference) :
  Head (exRepo x) = Some head -> head = x.
Proof. by intros [= <-]. Qed.

Lemma MGitCommit_stored_witness :
  let gitHash := plumbing.NewHash exRootGitHash in
  let run :=
    MGitCommit (H := exCommitCodec) (Some (exRepo exMasterBranch))
      (Some (Some gitHash)) exKey ∅ in
  let h := computeMGitHash exRootGit [] exKey in
  exists gitCommit parents,
    CommitObject (exRepo exMasterBranch) gitHash = Some gitCommit
    /\ length parents = length (object.ParentHashes gitCommit)
    /\ h = computeMGitHash gitCommit parents exKey
    /\ GetCommit (H := exCommitCodec) NewMGitStorage (plumbing.String_ h) run.1
       = Ok (MGitCommit_record gitCommit gitHash parents exKey)
    /\ GetMGitHashFromGit (H := exCommitCodec) NewMGitStorage (plumbing.String_ gitHash)
         run.1 = Ok (plumbing.String_ h)
    /\ GetGitHashFromMGit (H := exCommitCodec) NewMGitStorage (plumbing.String_ h) run.1
       = Ok (plumbing.String_ gitHash).
Proof.
  apply (MGitCommit_stored (H := exCommitCodec) (exRepo exMasterBranch)
           (plumbing.NewHash exRootGitHash) exKey ∅).
  - intros head ->%exMaster_names _. by_evaluation.
  - apply exCommitCodec_roundtrip.
  - reflexivity.
  - done.
  - apply injective_projections; [reflexivity|by_evaluation].
Defined.

Lemma MGitCommit_on_master_witness :
  let gitHash := plumbing.NewHash exRootGitHash in
  let run :=
    MGitCommit (H := exCommitCodec) (Some (exRepo exMasterBranch))
      (Some (Some gitHash)) exKey ∅ in
  let h := computeMGitHash exRootGit [] exKey in
  exists gitCommit parents,
    CommitObject (exRepo exMasterBranch) gitHash = Some gitCommit
    /\ h = computeMGitHash gitCommit parents exKey
    /\ GetRef NewMGitStorage "master" run.1 = Ok (plumbing.String_ h)
    /\ GetHeadCommit (H := exCommitCodec) NewMGitStorage run.1
       = Ok (MGitCommit_record gitCommit gitHash parents exKey).
Proof.
  apply (MGitCommit_on_master (H := exCommitCodec) (exRepo exMasterBranch)
           (plumbing.NewHash exRootGitHash) exKey ∅ _ _ exMasterBranch).
  - done.
  - apply injective_projections; [reflexivity|by_evaluation].
  - reflexivity.
  - reflexivity.
  - apply exCommitCodec_roundtrip.
  - reflexivity.
  - reflexivity.
  - reflexivity.
  - reflexivity.
Defined.

Lemma MGitCommit_other_branch_witness :
  let run :=
    MGitCommit (H := exCommitCodec) (Some (exRepo exBranch))
      (Some (Some (plumbing.NewHash exRootGitHash))) exKey ∅ in
  GetHead NewMGitStorage run.1 = Ok "refs/heads/master"
  /\ exists e, GetHeadCommit (H := exCommitCodec) NewMGitStorage run.1 = Err e.
Proof.
  apply (MGitCommit_other_branch (H := exCommitCodec) (exRepo exBranch)
           (plumbing.NewHash exRootGitHash) exKey ∅ _ (computeMGitHash exRootGit [] exKey)).
  - done.
  - apply injective_projections; [reflexivity|by_evaluation].
  - reflexivity.
  - reflexivity.
  - intros head ->%exMaster_names _. split; [by_evaluation|done].
Defined.

(** ** Repository URLs *)

Lemma Index_slash_cons (c : ascii) (s : string) :
  Strings.Index (String c s) "/" =
  if Ascii.eqb c "/" then Some 0 else S <$> Strings.Index s "/".
Proof.
  cbn [Strings.Index]. unfold HasPrefix. cbn [String.prefix].
  destruct (ascii_dec "/" c) as [<-|Hne].
  - by destruct s.
  - assert (Ascii.eqb c "/" = false) as -> by (apply Ascii.eqb_neq; congruence). done.
Qed.

Lemma Split_loop_slash (n : nat) (s : string) :
  String.length s <= n -> Strings.Split_loop n s "/" = FS.split_slash s.
Proof.
  revert n. induction s as [|c s IH]; intros n Hn.
  - by destruct n.
  - destruct n as [|n]; [simpl in Hn; lia|]. simpl in Hn.
    cbn [Strings.Split_loop FS.split_slash]. rewrite Index_slash_cons.
    destruct (Ascii.eqb c "/") eqn:Ec.
    + simpl. f_equal. apply IH. lia.
    + pose proof (IH (S n) ltac:(lia)) as IH'. cbn [Strings.Split_loop] in IH'.
      rewrite <- IH'. by destruct (Strings.Index s "/") as [m|].
Qed.

(** At the separator of paths, [strings.Split] gives the components that
    the file system model works with. *)
Lemma Split_slash (s : string) : Strings.Split s "/" = FS.split_slash s.
Proof. by apply Split_loop_slash. Qed.

Lemma split_slash_app (a b : string) :
  FS.split_slash (a +:+ "/" +:+ b) = FS.split_slash a ++ FS.split_slash b.
Proof.
  induction a as [|c a IH]; [done|].
  change (String c a +:+ "/" +:+ b) with (String c (a +:+ "/" +:+ b)).
  cbn [FS.split_slash]. rewrite IH.
  destruct (Ascii.eqb c "/"); [done|].
  pose proof (split_slash_nonempty a).
  by destruct (FS.split_slash a).
Qed.

Lemma lastPart_app (a b : string) : lastPart (a +:+ "/" +:+ b) = lastPart b.
Proof.
  unfold lastPart. rewrite split_slash_app, last_app.
  pose proof (split_slash_nonempty b) as Hne.
  destruct (last (FS.split_slash b)) eqn:E; [done|].
  by apply last_None in E.
Qed.

Lemma split_slash_snoc (a t : string) :
  noSlash t ->
  exists l x, FS.split_slash a = l ++ [x] /\ FS.split_slash (a +:+ t) = l ++ [x +:+ t].
Proof.
  intros Ht. induction a as [|c a (l & x & E1 & E2)].
  - exists [], "". split; [done|]. exact Ht.
  - change (String c a +:+ t) with (String c (a +:+ t)).
    cbn [FS.split_slash]. rewrite E1, E2.
    destruct (Ascii.eqb c "/").
    + by exists ("" :: l), x.
    + destruct l as [|y l]; simpl.
      * by exists [], (String c x).
      * by exists (String c y :: l), x.
Qed.

Lemma lastPart_snoc (a t : string) : noSlash t -> lastPart (a +:+ t) = lastPart a +:+ t.
Proof.
  intros Ht. destruct (split_slash_snoc a t Ht) as (l & x & E1 & E2).
  unfold lastPart. by rewrite E1, E2, !last_snoc.
Qed.

Lemma lastPart_noSlash (t : string) : noSlash t -> lastPart t = t.
Proof. intros Ht. unfold lastPart. by rewrite Ht. Qed.

Lemma split_slash_parts (s x : string) : x ∈ FS.split_slash s -> noSlash x.
Proof.
  revert x. induction s as [|c s IH]; intros x.
  - by intros ->%list_elem_of_singleton.
  - cbn [FS.split_slash]. destruct (Ascii.eqb c "/") eqn:Ec.
    + intros [->|Hx]%elem_of_cons; [done|auto].
    + pose proof (split_slash_nonempty s) as Hne.
      destruct (FS.split_slash s) as [|y ys]; [done|].
      intros [->|Hx]%elem_of_cons.
      * assert (Hy : noSlash y) by (apply IH; by left).
        unfold noSlash in *. cbn [FS.split_slash]. by rewrite Ec, Hy.
      * apply IH. by right.
Qed.

Lemma noSlash_lastPart (url : string) : noSlash (lastPart url).
Proof.
  unfold lastPart. destruct (last (FS.split_slash url)) as [x|] eqn:E; [|done].
  apply split_slash_parts with url. by apply last_Some_elem_of.
Qed.

(** Where the last separator is, the last part begins. *)
Lemma LastIndexSlash_split (s : string) :
  match Strings.LastIndexSlash s with
  | None => noSlash s
  | Some i =>
      s = str_take i s +:+ "/" +:+ lastPart s
      /\ exists l, l <> [] /\ FS.split_slash s = l ++ [lastPart s]
  end.
Proof.
  induction s as [|c s IH]; [done|].
  cbn [Strings.LastIndexSlash]. destruct (Strings.LastIndexSlash s) as [i|].
  - destruct IH as (E & l & Hl & El).
    assert (Hlast : lastPart (String c s) = lastPart s).
    { unfold lastPart at 1. cbn [FS.split_slash]. rewrite El.
      destruct (Ascii.eqb c "/").
      - by rewrite app_comm_cons, !last_snoc.
      - destruct l as [|y l]; [done|]. simpl. by rewrite app_comm_cons, !last_snoc. }
    rewrite Hlast. split.
    + cbn [str_take]. change (String c ?a +:+ ?b) with (String c (a +:+ b)). by rewrite <- E.
    + cbn [FS.split_slash]. rewrite El. destruct (Ascii.eqb c "/").
      * by exists ("" :: l).
      * destruct l as [|y l]; [done|]. by exists (String c y :: l).
  - destruct (Ascii.eqb c "/") eqn:Ec.
    + apply Ascii.eqb_eq in Ec as ->.
      assert (Hlast : lastPart (String "/" s) = s).
      { unfold lastPart. cbn [FS.split_slash]. simpl. by rewrite IH. }
      rewrite Hlast. split; [done|].
      exists [""]. split; [done|]. cbn [FS.split_slash]. simpl. by rewrite IH.
    + unfold noSlash in *. cbn [FS.split_slash]. by rewrite Ec, IH.
Qed.

Lemma noSlash_LastIndexSlash (s : string) : noSlash s <-> Strings.LastIndexSlash s = None.
Proof.
  pose proof (LastIndexSlash_split s) as Hs.
  destruct (Strings.LastIndexSlash s) as [i|]; [|done].
  split; [|done]. intros Hn. destruct Hs as (_ & l & Hl & El).
  rewrite Hn in El. destruct l as [|y [|z l]]; done.
Qed.

(** X13: [extractServerBaseURL] and [extractRepoID] cut a URL at its last
    separator: the repository id holds no separator, the two pieces with a
    separator between them are the URL again, and a URL without separator
    is its own server and its own id. *)
Theorem extract_base_and_id (url : string) :
  noSlash (extractRepoID url)
  /\ (noSlash url -> extractServerBaseURL url = url /\ extractRepoID url = url)
  /\ (~ noSlash url -> url = extractServerBaseURL url +:+ "/" +:+ extractRepoID url).
Proof.
  unfold extractRepoID, extractServerBaseURL.
  split; [apply noSlash_lastPart|].
  pose proof (LastIndexSlash_split url) as Hs.
  pose proof (noSlash_LastIndexSlash url) as Hn.
  destruct (Strings.LastIndexSlash url) as [i|].
  - split; [intros Hu; apply Hn in Hu; done|]. intros _. apply Hs.
  - split; [|done]. intros Hu. split; [done|]. by apply lastPart_noSlash.
Qed.

Lemma extract_base_and_id_witness :
  "http://localhost:3003/hello-world"
  = extractServerBaseURL "http://localhost:3003/hello-world" +:+ "/"
    +:+ extractRepoID "http://localhost:3003/hello-world".
Proof.
  apply (proj2 (proj2 (extract_base_and_id "http://localhost:3003/hello-world"))).
  by_evaluation.
Defined.

Lemma HasSuffix_iff (s suffix : string) :
  Strings.HasSuffix s suffix = true <-> exists r, s = r +:+ suffix.
Proof.
  unfold Strings.HasSuffix. rewrite andb_true_iff, Nat.leb_le, String.eqb_eq. split.
  - intros [Hle E]. exists (str_take (String.length s - String.length suffix) s).
    pose proof (str_take_drop (String.length s - String.length suffix) s) as Htd.
    by rewrite E in Htd.
  - intros [r ->]. rewrite length_append. split; [lia|].
    replace (String.length r + String.length suffix - String.length suffix)
      with (String.length r) by lia.
    apply str_drop_app.
Qed.

Lemma TrimSuffix_none (s suffix : string) :
  Strings.HasSuffix s suffix = false -> Strings.TrimSuffix s suffix = s.
Proof. unfold Strings.TrimSuffix. by intros ->. Qed.

Lemma TrimSuffix_app (r suffix : string) : Strings.TrimSuffix (r +:+ suffix) suffix = r.
Proof.
  unfold Strings.TrimSuffix.
  assert (Strings.HasSuffix (r +:+ suffix) suffix = true) as -> by (apply HasSuffix_iff; eauto).
  rewrite length_append.
  replace (String.length r + String.length suffix - String.length suffix)
    with (String.length r) by lia.
  apply str_take_app.
Qed.

Lemma HasSuffix_slash_id (host id : string) :
  noSlash id -> id <> "" -> Strings.HasSuffix (host +:+ "/" +:+ id) "/" = false.
Proof.
  intros Hid Hne. apply not_true_is_false. intros [r E]%HasSuffix_iff.
  apply (f_equal lastPart) in E.
  rewrite lastPart_app, (lastPart_noSlash id Hid) in E.
  rewrite <- (append_nil_r "/"), lastPart_app in E. done.
Qed.

Lemma HasSuffix_git_id (host id : string) :
  noSlash id -> Strings.HasSuffix id ".git" = false ->
  Strings.HasSuffix (host +:+ "/" +:+ id) ".git" = false.
Proof.
  intros Hid Hgit. apply not_true_is_false. intros [r E]%HasSuffix_iff.
  apply (f_equal lastPart) in E.
  rewrite lastPart_app, (lastPart_noSlash id Hid), lastPart_snoc in E by done.
  assert (Strings.HasSuffix id ".git" = true) by (apply HasSuffix_iff; eauto).
  congruence.
Qed.

Lemma extractRepoIDFromAnyURL_direct (url : string) :
  Strings.Contains url "/api/mgit/repos/" = false ->
  extractRepoIDFromAnyURL url = lastPart url.
Proof. unfold extractRepoIDFromAnyURL. by intros ->. Qed.

Lemma matchRepoURL_same_id (hostA hostB id : string) :
  id <> "" -> noSlash id -> Strings.HasSuffix id ".git" = false ->
  Strings.Contains (hostA +:+ "/" +:+ id) "/api/mgit/repos/" = false ->
  Strings.Contains (hostB +:+ "/" +:+ id) "/api/mgit/repos/" = false ->
  matchRepoURL (hostA +:+ "/" +:+ id) (hostB +:+ "/" +:+ id) = true.
Proof.
  intros Hne Hid Hgit Ha Hb. unfold matchRepoURL.
  rewrite !(TrimSuffix_none _ "/") by by apply HasSuffix_slash_id.
  rewrite !(TrimSuffix_none _ ".git") by by apply HasSuffix_git_id.
  cbv zeta. destruct (decide _); [done|].
  rewrite !extractRepoIDFromAnyURL_direct, !lastPart_app, lastPart_noSlash by done.
  by apply bool_decide_eq_true.
Qed.

(** X14: [matchRepoURL] does not compare servers: two URLs of the direct form
    that end in the same repository id match whatever comes before the
    id, so [getTokenForRepo] hands the token stored for one server to a
    request for the repository of that name on another. *)
Theorem matchRepoURL_ignores_host (hostA hostB id : string)
    (t : AuthToken) (tokens : list AuthToken) :
  id <> "" -> noSlash id -> Strings.HasSuffix id ".git" = false ->
  Strings.Contains (hostA +:+ "/" +:+ id) "/api/mgit/repos/" = false ->
  Strings.Contains (hostB +:+ "/" +:+ id) "/api/mgit/repos/" = false ->
  RepoURL t = hostA +:+ "/" +:+ id ->
  matchRepoURL (hostA +:+ "/" +:+ id) (hostB +:+ "/" +:+ id) = true
  /\ getTokenForRepo (t :: tokens) (hostB +:+ "/" +:+ id) = Some (Token t).
Proof.
  intros Hne Hid Hgit Ha Hb Ht.
  pose proof (matchRepoURL_same_id hostA hostB id Hne Hid Hgit Ha Hb) as Hm.
  split; [done|]. cbn [getTokenForRepo]. by rewrite Ht, Hm.
Qed.

Lemma matchRepoURL_ignores_host_witness :
  matchRepoURL "https://git.example.org/records" "http://203.0.113.7:3003/records" = true
  /\ getTokenForRepo
       [mkAuthToken "secret" "https://git.example.org/records" "admin"]
       "http://203.0.113.7:3003/records" = Some "secret".
Proof.
  apply (matchRepoURL_ignores_host "https://git.example.org" "http://203.0.113.7:3003"
           "records" (mkAuthToken "secret" "https://git.example.org/records" "admin") []);
    try reflexivity; try done.
Defined.

Lemma noSlash_app_l (a b : string) : noSlash (a +:+ b) -> noSlash a.
Proof.
  rewrite !noSlash_LastIndexSlash. induction a as [|c a IH]; [done|].
  change (String c a +:+ b) with (String c (a +:+ b)). cbn [Strings.LastIndexSlash].
  destruct (Strings.LastIndexSlash (a +:+ b)); [done|].
  rewrite IH by done. done.
Qed.

Lemma noSlash_TrimSuffix (s suffix : string) :
  noSlash s -> noSlash (Strings.TrimSuffix s suffix).
Proof.
  intros Hs. unfold Strings.TrimSuffix. destruct (Strings.HasSuffix _ _); [|done].
  apply noSlash_app_l with (str_drop (String.length s - String.length suffix) s).
  by rewrite str_take_drop.
Qed.

(** X15: The directory [HandleClone] chooses when none is given is one path
    component: it holds no separator.  It is the last part of the URL
    without its [.git], and it is empty for a URL that ends in a
    separator, which is cut from the URL only after the choice. *)
Theorem defaultDestination_last_part (url : string) :
  noSlash (defaultDestination url)
  /\ defaultDestination (url +:+ "/") = ""
  /\ forall name, noSlash name ->
       defaultDestination (url +:+ "/" +:+ name +:+ ".git") = name.
Proof.
  unfold defaultDestination. split; [|split].
  - apply noSlash_TrimSuffix, noSlash_lastPart.
  - by rewrite <- (append_nil_r "/"), lastPart_app.
  - intros name Hn.
    rewrite lastPart_app, lastPart_snoc, (lastPart_noSlash name Hn) by done.
    apply TrimSuffix_app.
Qed.

Lemma defaultDestination_last_part_witness :
  defaultDestination ("http://localhost:3003" +:+ "/" +:+ "hello-world" +:+ ".git")
  = "hello-world".
Proof.
  apply (proj2 (proj2 (defaultDestination_last_part "http://localhost:3003")) "hello-world").
  reflexivity.
Defined.

(** * The log *)

Section LogWalk.
Context `{JSON}.
Variable s : MGitStorage.
Variable fs : FS.t.
Variable oneline : bool.
Variable maxCount : Z.



Variable head : MCommit.MCommitStruct.

(** Every iteration keeps the invariant. *)
Lemma logWalk_inv (fuel : nat) (queue : list string) (visited : gset string)
    (count : Z) (printed res : list (string * MCommit.MCommitStruct)) :
  logWalk s fs oneline maxCount fuel queue visited count printed = Some (Ok res) ->
  logInv s fs maxCount head queue visited count printed ->
  exists queue' visited',
    logInv s fs maxCount head queue' visited' (Z.of_nat (length res)) res
    /\ (queue' = [] \/ (maxCount <= Z.of_nat (length res))%Z).
Proof.
  revert queue visited count printed.
  induction fuel as [|fuel IH]; intros queue visited count printed Hrun Hinv; [done|].
  destruct queue as [|current queue]; simpl in Hrun.
  { injection Hrun as <-. exists [], visited.
    rewrite <- (li_count _ _ _ _ _ _ _ _ Hinv). eauto. }
  destruct (decide (count < maxCount)%Z) as [Hlt|Hge]; cycle 1.
  { injection Hrun as <-. exists (current :: queue), visited.
    rewrite <- (li_count _ _ _ _ _ _ _ _ Hinv). split; [done|]. right. lia. }
  destruct Hinv as [Hcnt Hb Hh Hk Hnd Hl Hq Hcl].
  destruct (decide (current ∈ visited)) as [Hin|Hnin].
  { eapply IH; [exact Hrun|]. constructor; auto.
    - intros q Hq'. apply Hq. by right.
    - intros k c p Hkc Hp.
      destruct (Hcl k c p Hkc Hp) as [?|[[->|?]%elem_of_cons|?]]; auto. }
  destruct (GetCommit s current fs) as [c|e|] eqn:Hget; [| |done].
  - destruct (printsCommit oneline c); [|done].
    eapply IH; [exact Hrun|]. constructor.
    + rewrite length_app. simpl. lia.
    + lia.
    + destruct Hh as [rest ->]. by exists (rest ++ [(current, c)]).
    + intros k. rewrite fmap_app, elem_of_app, elem_of_union, elem_of_singleton, Hk.
      simpl. rewrite list_elem_of_singleton. tauto.
    + rewrite fmap_app. simpl. apply NoDup_app. split; [done|]. split.
      * intros k Hk1 ->%list_elem_of_singleton. by apply Hnin, Hk.
      * apply NoDup_singleton.
    + intros k c' [Hkc|Hkc]%elem_of_app; [auto|].
      apply list_elem_of_singleton in Hkc. injection Hkc as -> ->.
      right. split; [done|]. apply Hq. by left.
    + intros q [Hq'|Hq']%elem_of_app.
      * apply Hq. by right.
      * apply list_elem_of_filter in Hq' as [_ Hq'].
        destruct (Hq current) as (p & Hp & Hr); [by left|].
        exists p. split; [done|]. by eapply reach_parent.
    + intros k c' p [Hkc|Hkc]%elem_of_app Hp.
      * destruct (Hcl k c' p Hkc Hp) as [?|[[->|?]%elem_of_cons|?]];
          [set_solver|set_solver| |auto].
        right. left. set_solver.
      * apply list_elem_of_singleton in Hkc. injection Hkc as -> ->.
        destruct (decide (p ∈ {[ current ]} ∪ visited)) as [?|Hn]; [by left|].
        right. left. apply elem_of_app. right.
        apply list_elem_of_filter. done.
  - eapply IH; [exact Hrun|]. constructor; auto.
    + intros q Hq'. apply Hq. by right.
    + intros k c p Hkc Hp.
      destruct (Hcl k c p Hkc Hp) as [?|[[->|?]%elem_of_cons|?]]; eauto.
Qed.

Lemma logInv_start :
  logInv s fs maxCount head (MCommit.ParentHashes head) {[ MCommit.MGitHash head ]} 1
    [(MCommit.MGitHash head, head)].
Proof.
  constructor.
  - done.
  - lia.
  - by exists [].
  - intros k. simpl. rewrite elem_of_singleton, list_elem_of_singleton. done.
  - simpl. apply NoDup_singleton.
  - intros k c ->%list_elem_of_singleton. by left.
  - intros q Hq. exists q. split; [done|]. constructor.
  - intros k c p [= -> ->]%list_elem_of_singleton Hp. auto.
Qed.

End LogWalk.

Section LogTheorems.
Context `{JSON}.





Lemma reachable_from_parent (s : MGitStorage) (fs : FS.t) (start p k : string) :
  reachable s fs start p -> reachable s fs p k -> reachable s fs start k.
Proof.
  intros Hp. induction 1 as [|k c q Hk IH Hget Hq]; [done|].
  by eapply reach_parent.
Qed.



(** X17: When the head record is stored under its own hash and [mgit log]
    printed fewer than [maxCount] commits, it printed the whole history:
    the commits printed are the records that load from the hashes reached
    from the head along the parent hashes, no more and no fewer. *)
Theorem HandleMGitLog_whole_history (repo : Repository) (fs : FS.t)
    (oneline : bool) (maxCount : Z) (fuel : nat)
    (head : MCommit.MCommitStruct) (printed : list (string * MCommit.MCommitStruct)) :
  GetHeadCommit NewMGitStorage fs = Ok head ->
  GetCommit NewMGitStorage (MCommit.MGitHash head) fs = Ok head ->
  HandleMGitLog fuel oneline maxCount (Some repo) fs = Some (LogPrinted printed) ->
  (Z.of_nat (length printed) < maxCount)%Z ->
  forall k c,
    (k, c) ∈ printed <->
    reachable NewMGitStorage fs (MCommit.MGitHash head) k
    /\ GetCommit NewMGitStorage k fs = Ok c.
Proof.
  intros Hhead Hself Hrun Hlt.
  unfold HandleMGitLog in Hrun. cbv zeta in Hrun. rewrite Hhead in Hrun.
  set (s := NewMGitStorage) in *.
  destruct (printsCommit oneline head); [|done].
  destruct (logWalk s fs oneline maxCount fuel _ _ _ _) as [[res|e|]|] eqn:Hwalk; try done.
  injection Hrun as ->.
  destruct (logWalk_inv s fs oneline maxCount head fuel _ _ _ _ _ Hwalk
              (logInv_start s fs maxCount head)) as (queue & visited & Hinv & Hend).
  destruct Hend as [->|Hend]; [|lia].
  destruct Hinv as [_ _ [rest Hrest] Hk _ Hl _ Hcl].
  assert (Hrec : forall k c, k ∈ visited -> GetCommit s k fs = Ok c -> (k, c) ∈ printed).
  { intros k c Hin Hget. apply Hk, list_elem_of_fmap in Hin as ([k' c'] & -> & Hin).
    simpl in *. destruct (Hl k' c' Hin) as [[= -> ->]|[Hget' _]].
    - assert (c = head) as -> by congruence. done.
    - assert (c = c') as -> by congruence. done. }
  assert (Hfin : forall k, reachable s fs (MCommit.MGitHash head) k ->
                   k ∈ visited \/ exists e, GetCommit s k fs = Err e).
  { induction 1 as [|k c p Hr IH Hget Hp].
    - left. apply Hk. rewrite Hrest. simpl. by left.
    - destruct IH as [Hin|[e He]]; [|congruence].
      destruct (Hcl k c p (Hrec k c Hin Hget) Hp) as [?|[[]%elem_of_nil|?]]; auto. }
  intros k c. split.
  - intros Hin. destruct (Hl k c Hin) as [[= -> ->]|[Hget (p & Hp & Hr)]].
    + split; [constructor|done].
    + split; [|done]. apply reachable_from_parent with p; [|done].
      by apply reach_parent with (MCommit.MGitHash head) head; [constructor|..].
  - intros [Hr Hget]. destruct (Hfin k Hr) as [Hin|[e He]]; [|congruence].
    by apply Hrec.
Qed.

End LogTheorems.


(** Without that premise a hash can be printed twice: here the record of
    the root commit is reached by its full hash and by an abbreviation of
    it, and printed under both. *)
Example HandleMGitLog_prints_twice :
  HandleMGitLog (H:=exTwiceCodec) 4 true 10 (Some (exRepo exBranch)) exTwiceStore
  = Some (LogPrinted [(exChildHash, exTwiceRecord); (exRootHash, exRootRecord);
                      (str_take 7 exRootHash, exRootRecord)]).
Proof. by_evaluation. Qed.

Lemma HandleMGitLog_whole_history_witness :
  (exRootHash, exRootRecord) ∈ [(exChildHash, exChildRecord); (exRootHash, exRootRecord)] <->
  reachable (H:=exCodec) NewMGitStorage exFullStore (MCommit.MGitHash exChildRecord)
    exRootHash
  /\ GetCommit (H:=exCodec) NewMGitStorage exRootHash exFullStore = Ok exRootRecord.
Proof.
  apply (HandleMGitLog_whole_history (H:=exCodec) (exRepo exBranch) exFullStore true 10 4
           exChildRecord).
  - by_evaluation.
  - by_evaluation.
  - by_evaluation.
  - reflexivity.
Defined.

(** * The first commit, then the log and the verification *)

(** X18: After the first commit of a history (a Git commit without parents),
    made on [master] in a new storage, [mgit verify] reports a valid chain
    with nothing to report and [mgit log] prints the new commit and no
    other. *)
Theorem MGitCommit_root_then_verify `{JSON} (repo : Repository) (gitHash : plumbing.Hash)
    (pubkey : string) (fs fs' : FS.t) (h : plumbing.Hash) (head : plumbing.Reference) :
  pubkey <> "" ->
  MGitCommit (Some repo) (Some (Some gitHash)) pubkey fs = (fs', CommitHash h) ->
  FS.node_at fs ["HEAD"; ".mgit"] = None ->
  FS.node_at fs ["master"; "heads"; "refs"; ".mgit"] = None ->
  codec_roundtrip ->
  String.length gitHash = 20 ->
  Head repo = Some head -> plumbing.IsBranch head = true ->
  plumbing.Short head = "master" ->
  (forall gitCommit, CommitObject repo gitHash = Some gitCommit ->
                     object.ParentHashes gitCommit = []) ->
  forall fuel, 2 <= fuel ->
    HandleMGitVerify fuel (Some repo) fs' = Some (Verdict true [] [])
    /\ forall oneline maxCount,
         exists gitCommit,
           CommitObject repo gitHash = Some gitCommit
           /\ HandleMGitLog fuel oneline maxCount (Some repo) fs'
              = Some (LogPrinted [(plumbing.String_ h,
                                   MGitCommit_record gitCommit gitHash [] pubkey)]).
Proof.
  intros Hk Hrun Hh Hm Hrt Hlen Hhead Hb Hs Hroot fuel Hfuel.
  assert (Hname : forall head, Head repo = Some head -> plumbing.IsBranch head = true ->
                    branchName_ok (plumbing.Short head)).
  { intros head' Hh' _. assert (head' = head) as -> by congruence.
    rewrite Hs. by_evaluation. }
  destruct (MGitCommit_stored_facts repo Hname gitHash pubkey fs fs' h Hrt Hlen Hk Hrun)
    as (gitCommit & parents & Hgit & Hpar & Hh0 & Hget & _).
  rewrite (Hroot gitCommit Hgit) in Hpar. destruct parents; [|done].
  destruct (MGitCommit_on_master_facts repo gitHash pubkey fs fs' h Hk Hrun Hh Hm head
              Hrt Hlen Hhead Hb Hs) as (_ & _ & _ & _ & Href & _).
  pose proof (GetHead_master repo gitHash pubkey fs fs' h Hk Hrun Hh Hname) as Hhd.
  set (record := MGitCommit_record gitCommit gitHash [] pubkey) in *.
  assert (Hhc : GetHeadCommit NewMGitStorage fs' = Ok record).
  { unfold GetHeadCommit. rewrite Hhd.
    change (HasPrefix "refs/heads/master" "refs/") with true. cbv iota.
    change (GetRef NewMGitStorage "refs/heads/master" fs')
      with (GetRef NewMGitStorage "master" fs').
    by rewrite Href. }
  assert (Hkey : MCommit.MGitHash record = plumbing.String_ h) by (by rewrite Hh0).
  split.
  - unfold HandleMGitVerify. rewrite Hhc, Hkey.
    destruct fuel as [|[|fuel]]; [lia|lia|]. cbn [buildGraph].
    rewrite decide_False by set_solver. rewrite Hget.
    change (MCommit.ParentHashes record) with (@nil string).
    rewrite filter_nil. cbn [app verifyCommits].
    pose proof (MGitCommit_record_verifies_facts repo gitCommit gitHash [] pubkey
                  Hlen Hgit) as Hv.
    cbv zeta in Hv. fold record in Hv. rewrite Hkey in Hv. rewrite Hv.
    done.
  - intros oneline maxCount. exists gitCommit. split; [done|].
    unfold HandleMGitLog. rewrite Hhc.
    assert (printsCommit oneline record = true) as ->.
    { unfold printsCommit. apply orb_true_iff. right. by apply bool_decide_eq_true. }
    change (MCommit.ParentHashes record) with (@nil string).
    destruct fuel as [|fuel]; [lia|]. cbn [logWalk]. by rewrite Hkey.
Qed.

Lemma MGitCommit_root_then_verify_witness :
  let gitHash := plumbing.NewHash exRootGitHash in
  let repo := exRepo exMasterBranch in
  let run := MGitCommit (H := exCommitCodec) (Some repo) (Some (Some gitHash)) exKey ∅ in
  let h := computeMGitHash exRootGit [] exKey in
  HandleMGitVerify (H := exCommitCodec) 2 (Some repo) run.1 = Some (Verdict true [] [])
  /\ forall oneline maxCount,
       exists gitCommit,
         CommitObject repo gitHash = Some gitCommit
         /\ HandleMGitLog (H := exCommitCodec) 2 oneline maxCount (Some repo) run.1
            = Some (LogPrinted [(plumbing.String_ h,
                                 MGitCommit_record gitCommit gitHash [] exKey)]).
Proof.
  apply (MGitCommit_root_then_verify (H := exCommitCodec) (exRepo exMasterBranch)
           (plumbing.NewHash exRootGitHash) exKey ∅ _ _ exMasterBranch).
  - done.
  - apply injective_projections; [reflexivity|by_evaluation].
  - reflexivity.
  - reflexivity.
  - apply exCommitCodec_roundtrip.
  - reflexivity.
  - reflexivity.
  - reflexivity.
  - reflexivity.
  - intros gitCommit [= <-]. reflexivity.
  - lia.
Defined.

(** * [MGitCommit] and what [mgit show] looks up *)

Section MGitCommitShow.
Context `{JSON}.

(** The file of [GetCommitNostrPubkey] is kept by a step that writes
    files at other paths of two components or more. *)
Lemma GetCommitNostrPubkey_frame (fs fs' : FS.t) (x : plumbing.Hash) :
  evolves (fun p _ => p = ["nostr_mappings.json"; ".mgit"]) fs fs' ->
  comes_from (fun q => q <> ["nostr_mappings.json"; ".mgit"])
             (fun q => 2 <= length q /\ q <> ["nostr_mappings.json"; ".mgit"]) fs fs' ->
  GetCommitNostrPubkey x fs' = GetCommitNostrPubkey x fs.
Proof.
  intros Hev Hcf. unfold GetCommitNostrPubkey.
  change getNostrMappingFilePath with ["nostr_mappings.json"; ".mgit"]. cbv zeta.
  rewrite (IsNotExist_frame _ _ _ _ _ Hev Hcf), (ReadFile_frame _ _ _ _ _ Hev Hcf);
    try done.
  - by intros [_ ?].
  - intros a Ha [Hlen Hne]. apply suffix_of_two in Ha as [?|[->| ->]]; [done|..];
      simpl in Hlen; lia.
  - intros Hne. done.
Qed.

Lemma refFile_length (s : MGitStorage) (name : string) :
  2 + length (RootDir s) < length (refFile s name).
Proof.
  unfold refFile. pose proof (split_slash_nonempty name).
  destruct (FS.split_slash name) as [|a l]; [done|].
  rewrite length_app, length_reverse. simpl. lia.
Qed.

Lemma refFile_suffix_two (name : string) (q : FS.path) :
  q `suffix_of` refFile NewMGitStorage name -> length q = 2 -> q = ["refs"; ".mgit"].
Proof.
  unfold refFile. simpl. intros [k E] Hlen.
  change (reverse (FS.split_slash name) ++ ["heads"; "refs"; ".mgit"])
    with (reverse (FS.split_slash name) ++ ["heads"] ++ ["refs"; ".mgit"]) in E.
  rewrite app_assoc in E. apply app_inj_2 in E as [_ E]; [done|]. by rewrite Hlen.
Qed.

End MGitCommitShow.

(** X19: After [MGitCommit] has returned an MGit hash, [GetMGitHashForCommit]
    returns it for the Git commit, so [mgit show] prints the MGit hash;
    what [GetCommitNostrPubkey] returns is what it returned before, for
    [MGitCommit] does not write the file that it reads. *)
Theorem MGitCommit_show `{JSON} (repo : Repository) (gitHash : plumbing.Hash)
    (pubkey : string) (fs fs' : FS.t) (h : plumbing.Hash) :
  (forall head, Head repo = Some head -> plumbing.IsBranch head = true ->
                branchName_ok (plumbing.Short head)) ->
  codec_roundtrip ->
  String.length gitHash = 20 ->
  pubkey <> "" ->
  MGitCommit (Some repo) (Some (Some gitHash)) pubkey fs = (fs', CommitHash h) ->
  GetMGitHashForCommit gitHash fs' = plumbing.String_ h
  /\ forall x, GetCommitNostrPubkey x fs' = GetCommitNostrPubkey x fs.
Proof.
  intros Hname Hrt Hlen Hk Hrun. split.
  - destruct (MGitCommit_stored_facts repo Hname gitHash pubkey fs fs' h Hrt Hlen Hk Hrun)
      as (_ & _ & _ & _ & _ & _ & Hlook & _).
    revert Hlook. unfold GetMGitHashForCommit, getAllNostrMappings, GetMGitHashFromGit,
      GetMappings, readTable.
    change (FS.Join (RootDir NewMGitStorage) ["mappings"; "hash_mappings.json"])
      with ["hash_mappings.json"; "mappings"; ".mgit"].
    change (FS.Clean ".mgit/mappings/hash_mappings.json")
      with ["hash_mappings.json"; "mappings"; ".mgit"].
    cbv zeta. destruct (FS.IsNotExist _); [done|].
    destruct (FS.ReadFile _ fs') as [data|]; [|done].
    destruct (UnmarshalMappings data) as [mappings|]; [|done]. simpl.
    destruct (lookupMGitHash mappings _); [|done]. by intros [= ->].
  - intros x.
    destruct (MGitCommit_steps repo gitHash pubkey fs fs' h Hk Hrun)
      as (gitCommit & parents & fs1 & fs2 & fs3 & Hgit & Hinit & Hpar & Hh & Hst & Hmap
          & Hfs').
    set (np := ["nostr_mappings.json"; ".mgit"]).
    set (P := fun (p : FS.path) (_ : string) => p = np).
    set (Wd := fun q : FS.path => q <> np).
    set (Wf := fun q : FS.path => 2 <= length q /\ q <> np).
    assert (H01 : evolves P fs fs1 /\ comes_from Wd Wf fs fs1).
    { split.
      - by apply (Initialize_preserves NewMGitStorage P) in Hinit.
      - apply (Initialize_comes_from NewMGitStorage) in Hinit.
        revert Hinit. apply comes_from_weaken.
        + intros q (d & Hd & Hs) ->.
          repeat (apply elem_of_cons in Hd as [->|Hd]); try (by apply elem_of_nil in Hd);
            simpl in Hs.
          * apply suffix_of_two in Hs as [?|[?|?]]; done.
          * apply suffix_of_three in Hs as [?|[?|[?|?]]]; done.
          * apply suffix_of_three in Hs as [?|[?|[?|?]]]; done.
          * apply suffix_of_two in Hs as [?|[?|?]]; done.
        + intros q ->. split; [simpl; lia|done]. }
    assert (Hfull : full_hash (plumbing.String_ h)).
    { apply EncodeToString_full_hash. rewrite Hh. by rewrite length_computeMGitHash. }
    assert (H12 : evolves P fs1 fs2 /\ comes_from Wd Wf fs1 fs2).
    { destruct (StoreCommit_changes NewMGitStorage
                  (MGitCommit_record gitCommit gitHash parents pubkey) fs1) as [Hev Hcf].
      { simpl. by rewrite <- Hh. }
      rewrite Hst in Hev, Hcf. simpl in Hev, Hcf. split.
      - revert Hev. apply evolves_weaken. by intros p d -> [=].
      - revert Hcf. apply comes_from_weaken.
        + intros q Hs ->. apply suffix_of_three in Hs as [?|[?|[?|?]]]; done.
        + intros q ->. split; [simpl; lia|done]. }
    assert (H23 : evolves P fs2 fs3 /\ comes_from Wd Wf fs2 fs3).
    { destruct (StoreMapping_changes (plumbing.String_ gitHash) (plumbing.String_ h)
                  pubkey fs2) as [Hev Hcf].
      rewrite Hmap in Hev, Hcf. simpl in Hev, Hcf. split.
      - revert Hev. apply evolves_weaken. by intros p d -> [=].
      - revert Hcf. apply comes_from_weaken.
        + intros q Hs ->. apply suffix_of_two in Hs as [?|[?|?]]; done.
        + intros q ->. split; [simpl; lia|done]. }
    assert (H3 : evolves P fs3 fs' /\ comes_from Wd Wf fs3 fs').
    { rewrite Hfs'. destruct (Head repo) as [head|] eqn:Hhead; [|done].
      destruct (plumbing.IsBranch head) eqn:Hb; [|done].
      destruct (UpdateRef_changes NewMGitStorage (plumbing.Short head)
                  (plumbing.String_ h) fs3 (Hname head eq_refl Hb)) as [Hev Hcf].
      pose proof (refFile_length NewMGitStorage (plumbing.Short head)) as Hl.
      simpl in Hl. split.
      - revert Hev. apply evolves_weaken. intros p d -> E.
        rewrite <- E in Hl. simpl in Hl. lia.
      - revert Hcf. apply comes_from_weaken.
        + intros q [Hs _] ->. by apply refFile_suffix_two in Hs.
        + intros q ->. split; [lia|]. intros E. rewrite E in Hl. simpl in Hl. lia. }
    apply GetCommitNostrPubkey_frame.
    + trans fs1; [apply H01|]. trans fs2; [apply H12|]. trans fs3; [apply H23|apply H3].
    + trans fs1; [apply H01|]. trans fs2; [apply H12|]. trans fs3; [apply H23|apply H3].
Qed.

Lemma MGitCommit_show_witness :
  let gitHash := plumbing.NewHash exRootGitHash in
  let run :=
    MGitCommit (H := exCommitCodec) (Some (exRepo exMasterBranch))
      (Some (Some gitHash)) exKey ∅ in
  GetMGitHashForCommit (H := exCommitCodec) gitHash run.1
  = plumbing.String_ (computeMGitHash exRootGit [] exKey)
  /\ forall x, GetCommitNostrPubkey (H := exCommitCodec) x run.1
               = GetCommitNostrPubkey (H := exCommitCodec) x ∅.
Proof.
  apply (MGitCommit_show (H := exCommitCodec) (exRepo exMasterBranch)
           (plumbing.NewHash exRootGitHash) exKey ∅).
  - intros head ->%exMaster_names _. by_evaluation.
  - apply exCommitCodec_roundtrip.
  - reflexivity.
  - done.
  - apply injective_projections; [reflexivity|by_evaluation].
Defined.

(** * The [HEAD] of a clone *)

Lemma Sprintf_ref (name : string) :
  Fmt.Sprintf "ref: refs/heads/%s" [Fmt.ArgString name] = "ref: refs/heads/" +:+ name.
Proof. simpl. by rewrite append_nil_r. Qed.

(** X20: After a reconstruction that ends well in a clone whose Git [HEAD] is
    on a branch, the [HEAD] of the MGit storage names that branch. *)
Theorem reconstruct_branch_HEAD `{JSON} (repo : Repository) (repoPath : FS.path)
    (fs fs' : FS.t) (data : string)
    (mappings : list Mapping.NostrCommitMapping) (head : plumbing.Reference) :
  FS.ReadFile (FS.Join repoPath [".mgit"; "mappings"; "hash_mappings.json"]) fs
    = Some data ->
  UnmarshalMappings data = Some mappings ->
  Head repo = Some head ->
  plumbing.IsBranch head = true ->
  reconstructMGitObjects (Some repo) repoPath fs = (fs', Ok tt) ->
  GetHead (mkStorage (FS.Join repoPath [".mgit"])) fs'
  = Ok ("refs/heads/" +:+ plumbing.Short head).
Proof.
  intros Hfile Hparse Hhead Hb Hrun.
  destruct (reconstruct_ends_in_HEAD repo repoPath fs fs' (Ok tt) data mappings head
              Hfile Hparse Hhead Hrun) as [fs0 Hstep]; [by left|].
  unfold reconstructHEAD in Hstep. rewrite Hb in Hstep. cbv zeta in Hstep.
  apply writeFile_again in Hstep as [_ Hnode].
  unfold GetHead. cbv zeta. simpl RootDir.
  rewrite <- Join_app. simpl app.
  rewrite (Stat_node_at _ _ _ Hnode). simpl FS.IsNotExist. cbv iota.
  rewrite (proj2 (ReadFile_node_at _ _ _) Hnode), Sprintf_ref.
  change ("ref: refs/heads/" +:+ plumbing.Short head)
    with ("ref: " +:+ "refs/heads/" +:+ plumbing.Short head).
  by rewrite HasPrefix_app, TrimPrefix_app.
Qed.

Lemma reconstruct_branch_HEAD_witness :
  GetHead (mkStorage (FS.Join [] [".mgit"]))
    (reconstructMGitObjects (H := exCodec) (Some (exRepo exBranch)) [] exTableStore).1
  = Ok ("refs/heads/" +:+ plumbing.Short exBranch).
Proof.
  apply (reconstruct_branch_HEAD (H := exCodec) (exRepo exBranch) [] exTableStore _
           "table.json" exMappings exBranch).
  - by_evaluation.
  - reflexivity.
  - reflexivity.
  - reflexivity.
  - apply injective_projections; [reflexivity|by_evaluation].
Defined.

(** * Where the reconstruction writes *)

Section ChangesWithin.
Variable repoPath : FS.path.

#[global] Instance changesWithin_preorder : PreOrder (changesWithin repoPath).
Proof.
  split.
  - intros fs. split; reflexivity.
  - intros a b c [H1 H2] [H3 H4]. split; by etrans.
Qed.

Lemma inStorage_app (k : FS.path) : inStorage repoPath (k ++ ".mgit" :: repoPath).
Proof. apply suffix_app_r. done. Qed.

Lemma suffix_storage (k q : FS.path) :
  q `suffix_of` k ++ ".mgit" :: repoPath ->
  inStorage repoPath q \/ q `suffix_of` repoPath.
Proof.
  induction k as [|x k IH]; simpl.
  - destruct q as [|y q]; [intros _; right; apply suffix_nil|].
    intros [E|Hs]%suffix_cons_inv; [left; rewrite E; apply (inStorage_app [])|by right].
  - destruct q as [|y q]; [intros _; right; apply suffix_nil|].
    intros [E|Hs]%suffix_cons_inv; [|by apply IH].
    left. rewrite E. apply (inStorage_app (x :: k)).
Qed.

Lemma within_mkdirAll (k : FS.path) (e : error) :
  preserves (changesWithin repoPath) (mkdirAll (k ++ ".mgit" :: repoPath) e).
Proof.
  intros fs fs' r Hrun. split.
  - revert Hrun. apply preserves_mkdirAll.
  - revert Hrun. apply comes_from_mkdirAll. apply suffix_storage.
Qed.

Lemma within_writeFile (k : FS.path) (data : string) (e : error) :
  preserves (changesWithin repoPath) (writeFile (k ++ ".mgit" :: repoPath) data e).
Proof.
  intros fs fs' r Hrun. split.
  - revert Hrun. apply preserves_writeFile. intros d0 Hd0. destruct Hd0. apply inStorage_app.
  - revert Hrun. apply comes_from_writeFile. apply inStorage_app.
Qed.

Lemma changesWithin_node_at (fs fs' : FS.t) (q : FS.path) :
  changesWithin repoPath fs fs' ->
  FS.node_at fs' q = FS.node_at fs q
  \/ inStorage repoPath q
  \/ q `suffix_of` repoPath /\ FS.node_at fs q = None /\ FS.node_at fs' q = Some FS.Dir.
Proof.
  intros [Hev Hcf].
  destruct (decide (inStorage repoPath q)) as [Hin|Hout]; [auto|].
  destruct (FS.node_at fs q) as [[d|]|] eqn:E.
  - destruct (ev_file _ _ _ Hev _ _ E) as (d' & E' & Hk). left. by rewrite E', (Hk Hout).
  - left. by apply (ev_dir _ _ _ Hev).
  - destruct (FS.node_at fs' q) as [[d|]|] eqn:E'; [| |by left].
    + destruct (cf_file _ _ _ _ Hcf _ _ E') as [?|?]; [done|congruence].
    + destruct (cf_dir _ _ _ _ Hcf _ E') as [[?|?]|?]; [done|auto|congruence].
Qed.

End ChangesWithin.

Section ReconstructWithin.
Context `{JSON}.
Variable repoPath : FS.path.

Local Abbreviation s := (mkStorage (".mgit" :: repoPath)).

Lemma within_Initialize : preserves (changesWithin repoPath) (Initialize s).
Proof.
  intros fs fs' r Hrun. split.
  - revert Hrun. apply Initialize_preserves. intros d0 Hd0. destruct Hd0.
    apply (inStorage_app repoPath ["HEAD"]).
  - apply (Initialize_comes_from s) in Hrun. revert Hrun. apply comes_from_weaken.
    + intros q (d & Hd & Hs).
      repeat (apply elem_of_cons in Hd as [->|Hd]); try (by apply elem_of_nil in Hd).
      * by apply (suffix_storage repoPath ["objects"]).
      * by apply (suffix_storage repoPath ["heads"; "refs"]).
      * by apply (suffix_storage repoPath ["tags"; "refs"]).
      * by apply (suffix_storage repoPath ["mappings"]).
    + intros q ->. apply (inStorage_app repoPath ["HEAD"]).
Qed.

Lemma within_StoreCommit (commit : MCommit.MCommitStruct) :
  full_hash (MCommit.MGitHash commit) ->
  preserves (changesWithin repoPath) (StoreCommit s commit).
Proof.
  intros Hh fs fs' r Hrun.
  destruct (StoreCommit_changes s commit fs Hh) as [Hev Hcf].
  rewrite Hrun in Hev, Hcf. cbn [fst] in Hev, Hcf.
  set (h := MCommit.MGitHash commit) in *. split.
  - revert Hev. apply evolves_weaken. intros p d0 Hout ->. apply Hout.
    apply (inStorage_app repoPath [str_drop 2 h; str_take 2 h; "objects"]).
  - revert Hcf. apply comes_from_weaken.
    + intros q Hq. apply (suffix_storage repoPath [str_take 2 h; "objects"]). exact Hq.
    + intros q ->. apply (inStorage_app repoPath [str_drop 2 h; str_take 2 h; "objects"]).
Qed.

Lemma within_reconstructMapping (repo : Repository)
    (mappings : list Mapping.NostrCommitMapping) (mapping : Mapping.NostrCommitMapping) :
  full_hash (Mapping.MGitHash mapping) ->
  preserves (changesWithin repoPath) (reconstructMapping s repo mappings mapping).
Proof.
  intros Hh fs fs' r. unfold reconstructMapping.
  destruct (GetCommit s _ fs); [by intros [= <- _]| |by intros [= <- _]].
  destruct (CommitObject repo _) as [g|]; [|by intros [= <- _]].
  pose proof (within_StoreCommit (reconstructedCommit mappings mapping g) Hh fs) as Hst.
  destruct (StoreCommit s _ fs) as [fs1 r1]. specialize (Hst fs1 r1 eq_refl).
  rewrite printShort_result. by destruct r1 as [[]| |]; intros [= <- _].
Qed.

Lemma refFile_storage (name : string) :
  exists k, refFile s name = k ++ ".mgit" :: repoPath.
Proof.
  exists (reverse (FS.split_slash name) ++ ["heads"; "refs"]).
  unfold refFile. by rewrite <- app_assoc.
Qed.

Lemma within_reconstructRef (mappings : list Mapping.NostrCommitMapping)
    (ref : plumbing.Reference) :
  (plumbing.IsBranch ref = true -> branchName_ok (plumbing.Short ref)) ->
  preserves (changesWithin repoPath) (reconstructRef s mappings ref).
Proof.
  intros Hname fs fs' r. unfold reconstructRef.
  destruct (plumbing.IsBranch ref); [|by intros [= <- _]].
  destruct (lookupMGitHash mappings _) as [h|]; [|by intros [= <- _]].
  destruct (UpdateRef_changes s (plumbing.Short ref) h fs (Hname eq_refl)) as [Hev Hcf].
  destruct (UpdateRef s _ h fs) as [fs1 r1]. simpl in Hev, Hcf.
  destruct (refFile_storage (plumbing.Short ref)) as [k Ek].
  assert (Hin : changesWithin repoPath fs fs1).
  { split.
    - revert Hev. apply evolves_weaken. intros p d0 Hout ->. apply Hout.
      rewrite Ek. apply inStorage_app.
    - revert Hcf. apply comes_from_weaken.
      + intros q [Hq _]. rewrite Ek in Hq. by apply suffix_storage in Hq.
      + intros q ->. rewrite Ek. apply inStorage_app. }
  rewrite printShort_result. by destruct r1 as [[]| |]; intros [= <- _].
Qed.

Lemma within_reconstructHEAD (mappings : list Mapping.NostrCommitMapping)
    (head : plumbing.Reference) :
  preserves (changesWithin repoPath) (reconstructHEAD repoPath mappings head).
Proof.
  unfold reconstructHEAD. rewrite Join_HEAD.
  destruct (plumbing.IsBranch head).
  - apply (within_writeFile repoPath ["HEAD"]).
  - cbv zeta. destruct (decide _); [apply preserves_fail; apply _|].
    apply preserves_bind; [apply _|apply (within_writeFile repoPath ["HEAD"])|].
    intros _ fs fs' r. rewrite printShort_result. by intros [= <- _].
Qed.

Lemma reconstruct_within (repo : Repository) (fs : FS.t) (data : string)
    (mappings : list Mapping.NostrCommitMapping) :
  FS.ReadFile (FS.Join repoPath [".mgit"; "mappings"; "hash_mappings.json"]) fs
    = Some data ->
  UnmarshalMappings data = Some mappings ->
  Forall (fun m => full_hash (Mapping.MGitHash m)) mappings ->
  (forall refs ref, References repo = Some refs -> ref ∈ refs ->
                    plumbing.IsBranch ref = true -> branchName_ok (plumbing.Short ref)) ->
  changesWithin repoPath fs (reconstructMGitObjects (Some repo) repoPath fs).1.
Proof.
  intros Hfile Hun Hfull Hnames.
  destruct (reconstructMGitObjects (Some repo) repoPath fs) as [fs' r] eqn:Hrun. simpl.
  unfold reconstructMGitObjects in Hrun. cbv zeta in Hrun.
  rewrite Join_table in *.
  rewrite (Join_plain repoPath ".mgit") in * by apply plain_mgit.
  rewrite !Join_plain in Hrun by (by vm_compute).
  set (tab := "hash_mappings.json" :: "mappings" :: ".mgit" :: repoPath) in *.
  apply ReadFile_node_at in Hfile.
  unfold bind at 1 in Hrun.
  set (dirs := [_; _; _; _]) in Hrun.
  pose proof (forEach_mkdirAll_node_at dirs (fun _ => ErrRcMkdir) tab fs _ Hfile) as Hfile_a.
  cbv beta in Hfile_a.
  assert (Hdirs : preserves (changesWithin repoPath)
                    (forEach dirs (fun dir => mkdirAll dir ErrRcMkdir))).
  { apply preserves_forEach; [apply _|]. intros dir Hdir.
    repeat (apply elem_of_cons in Hdir as [->|Hdir]); try (by apply elem_of_nil in Hdir).
    - apply (within_mkdirAll repoPath ["objects"]).
    - apply (within_mkdirAll repoPath ["refs"]).
    - apply (within_mkdirAll repoPath ["heads"; "refs"]).
    - apply (within_mkdirAll repoPath ["mappings"]). }
  destruct (forEach dirs _ fs) as [fsa ra] eqn:Hda. specialize (Hdirs _ _ _ Hda).
  simpl in Hfile_a.
  destruct ra as [[]|e|]; [|by injection Hrun as <- _..].
  trans fsa; [done|]. clear Hdirs Hda.
  unfold bind at 1, look in Hrun.
  rewrite (Stat_node_at _ _ _ Hfile_a) in Hrun. simpl in Hrun.
  unfold FS.ReadFile in Hrun. rewrite Hfile_a, Hun in Hrun.
  revert Hrun. apply preserves_bind; [apply _| |].
  { intros fs0 fs1 r1 Hinit.
    destruct (Initialize s fs0) as [fsi ri] eqn:Hi.
    apply within_Initialize in Hi. by destruct ri; injection Hinit as <- _. }
  intros _. apply preserves_bind; [apply _| |].
  { apply preserves_forEach; [apply _|]. intros m Hm.
    apply within_reconstructMapping. by apply (proj1 (Forall_forall _ _) Hfull). }
  intros _. destruct (References repo) as [refs|] eqn:Hrefs; [|apply preserves_fail; apply _].
  apply preserves_bind; [apply _| |].
  { apply preserves_forEach; [apply _|]. intros ref Href.
    apply within_reconstructRef. intros Hb. by apply (Hnames refs). }
  intros _. destruct (Head repo) as [head|]; [|apply preserves_fail; apply _].
  apply within_reconstructHEAD.
Qed.

(** X21: However a run of [reconstructMGitObjects] ends, it changes nothing
    outside the directory [.mgit] of the clone, but that it makes the
    directory of the clone and those above it where they are missing:
    every other path holds after the run what it held before.  This needs
    the overlay hashes of the table to be full hashes and the names of the
    branches to be made of plain components. *)
Theorem reconstruct_stays_in_storage (repo : Repository) (fs : FS.t) (data : string)
    (mappings : list Mapping.NostrCommitMapping) :
  FS.ReadFile (FS.Join repoPath [".mgit"; "mappings"; "hash_mappings.json"]) fs
    = Some data ->
  UnmarshalMappings data = Some mappings ->
  Forall (fun m => full_hash (Mapping.MGitHash m)) mappings ->
  (forall refs ref, References repo = Some refs -> ref ∈ refs ->
                    plumbing.IsBranch ref = true -> branchName_ok (plumbing.Short ref)) ->
  let fs' := (reconstructMGitObjects (Some repo) repoPath fs).1 in
  forall q,
    FS.node_at fs' q = FS.node_at fs q
    \/ inStorage repoPath q
    \/ q `suffix_of` repoPath /\ FS.node_at fs q = None /\ FS.node_at fs' q = Some FS.Dir.
Proof.
  intros Hfile Hun Hfull Hnames fs' q.
  apply changesWithin_node_at. by apply (reconstruct_within repo fs data mappings).
Qed.

End ReconstructWithin.

Section MGitCommitWithin.
Context `{JSON}.

Lemma within_StoreMapping (gitHash mgitHash pubkey : string) :
  preserves (changesWithin []) (StoreMapping NewMGitStorage gitHash mgitHash pubkey).
Proof.
  intros fs fs' r Hrun.
  destruct (StoreMapping_changes gitHash mgitHash pubkey fs) as [Hev Hcf].
  rewrite Hrun in Hev, Hcf. cbn [fst] in Hev, Hcf. split.
  - revert Hev. apply evolves_weaken. intros p d0 Hout ->. apply Hout.
    apply (inStorage_app [] ["hash_mappings.json"; "mappings"]).
  - revert Hcf. apply comes_from_weaken.
    + intros q Hq. by apply (suffix_storage [] ["mappings"]).
    + intros q ->. apply (inStorage_app [] ["hash_mappings.json"; "mappings"]).
Qed.

Lemma within_UpdateRef (name mgitHash : string) (fs : FS.t) :
  branchName_ok name ->
  changesWithin [] fs
    (UpdateRef NewMGitStorage (Fmt.Sprintf "refs/heads/%s" [Fmt.ArgString name])
       mgitHash fs).1.
Proof.
  intros Hname.
  destruct (UpdateRef_changes NewMGitStorage name mgitHash fs Hname) as [Hev Hcf].
  destruct (refFile_storage [] name) as [k Ek].
  change (mkStorage [".mgit"]) with NewMGitStorage in Ek. split.
  - revert Hev. apply evolves_weaken. intros p d0 Hout ->. apply Hout.
    rewrite Ek. apply inStorage_app.
  - revert Hcf. apply comes_from_weaken.
    + intros q [Hq _]. rewrite Ek in Hq. by apply suffix_storage in Hq.
    + intros q ->. rewrite Ek. apply inStorage_app.
Qed.

Lemma MGitCommit_within (repo : Repository) (worktree : option (option plumbing.Hash))
    (pubkey : string) (fs : FS.t) :
  (forall head, Head repo = Some head -> plumbing.IsBranch head = true ->
                branchName_ok (plumbing.Short head)) ->
  changesWithin [] fs (MGitCommit (Some repo) worktree pubkey fs).1.
Proof.
  intros Hname. unfold MGitCommit.
  destruct worktree as [[gitHash|]|]; [|reflexivity..].
  destruct (decide (pubkey = "")); [reflexivity|].
  destruct (CommitObject repo gitHash) as [gitCommit|]; [|reflexivity].
  destruct (Initialize NewMGitStorage fs) as [fs1 r1] eqn:Hinit.
  apply (within_Initialize []) in Hinit.
  destruct r1 as [[]|e|]; [|done..].
  destruct (MGitCommit_parents _ _ fs1) as [parents|e|]; [|done..].
  set (record := MGitCommit_record gitCommit gitHash parents pubkey).
  destruct (StoreCommit NewMGitStorage record fs1) as [fs2 r2] eqn:Hst.
  apply (within_StoreCommit []) in Hst; cycle 1.
  { apply EncodeToString_full_hash. by rewrite length_computeMGitHash. }
  assert (H02 : changesWithin [] fs fs2) by (by trans fs1).
  destruct r2 as [[]|e|]; [|done..].
  destruct (StoreMapping NewMGitStorage _ _ pubkey fs2) as [fs3 r3] eqn:Hmap.
  apply within_StoreMapping in Hmap.
  assert (H03 : changesWithin [] fs fs3) by (by trans fs2).
  destruct r3 as [[]|e|]; [|done..].
  destruct (Head repo) as [head|] eqn:Hhead; [|done].
  destruct (plumbing.IsBranch head) eqn:Hb; [|done].
  cbn [fst]. trans fs3; [done|]. apply within_UpdateRef. by apply Hname.
Qed.

(** X22: However [MGitCommit] ends, what it does after the Git commit changes
    nothing outside the directory [.mgit]: every other path holds
    afterwards what it held before. *)
Theorem MGitCommit_stays_in_storage (repo : Repository)
    (worktree : option (option plumbing.Hash)) (pubkey : string) (fs : FS.t) :
  (forall head, Head repo = Some head -> plumbing.IsBranch head = true ->
                branchName_ok (plumbing.Short head)) ->
  forall q,
    FS.node_at (MGitCommit (Some repo) worktree pubkey fs).1 q = FS.node_at fs q
    \/ inStorage [] q.
Proof.
  intros Hname q.
  destruct (changesWithin_node_at [] fs _ q (MGitCommit_within repo worktree pubkey fs Hname))
    as [?|[?|(Hq & Hnone & _)]]; [auto..|].
  apply suffix_nil_inv in Hq as ->. done.
Qed.

End MGitCommitWithin.

Lemma MGitCommit_stays_in_storage_witness :
  FS.node_at
    (MGitCommit (H := exCommitCodec) (Some (exRepo exMasterBranch))
       (Some (Some (plumbing.NewHash exRootGitHash))) exKey ∅).1 ["README"]
  = FS.node_at ∅ ["README"]
  \/ inStorage [] ["README"].
Proof.
  apply (MGitCommit_stays_in_storage (H := exCommitCodec) (exRepo exMasterBranch)).
  intros head ->%exMaster_names _. by_evaluation.
Defined.

Lemma reconstruct_stays_in_storage_witness :
  let fs' :=
    (reconstructMGitObjects (H := exCodec) (Some (exRepo exBranch)) ["clone"]
       (<[ ["hash_mappings.json"; "mappings"; ".mgit"; "clone"] := FS.File "table.json" ]> ∅)).1 in
  FS.node_at fs' ["README"; "clone"]
  = FS.node_at (<[ ["hash_mappings.json"; "mappings"; ".mgit"; "clone"]
                   := FS.File "table.json" ]> ∅) ["README"; "clone"]
  \/ inStorage ["clone"] ["README"; "clone"]
  \/ ["README"; "clone"] `suffix_of` ["clone"]
     /\ FS.node_at (<[ ["hash_mappings.json"; "mappings"; ".mgit"; "clone"]
                       := FS.File "table.json" ]> ∅) ["README"; "clone"] = None
     /\ FS.node_at fs' ["README"; "clone"] = Some FS.Dir.
Proof.
  apply (reconstruct_stays_in_storage (H := exCodec) ["clone"] (exRepo exBranch) _
           "table.json" exMappings).
  - by_evaluation.
  - reflexivity.
  - by_evaluation.
  - intros refs ref [= <-] Href _.
    apply list_elem_of_singleton in Href as ->. by_evaluation.
Defined.

(** The condition on the hashes is needed: an overlay hash of the table
    that begins with [..] makes the run write a record next to the storage
    directory. *)
Example reconstruct_climbs_out :
  let fs := <[ ["hash_mappings.json"; "mappings"; ".mgit"; "clone"]
               := FS.File "table.json" ]> ∅ in
  let fs' :=
    (reconstructMGitObjects (H := exClimbingCodec) (Some (exRepo exBranch)) ["clone"] fs).1 in
  FS.node_at fs ["outside"; "clone"] = None
  /\ FS.node_at fs' ["outside"; "clone"] = Some (FS.File "climb.json")
  /\ ~ inStorage ["clone"] ["outside"; "clone"].
Proof. cbv zeta. split; [by_evaluation|]. split; by_evaluation. Qed.
